(** * cpdetect: Bayesian change point detection

    A shallow embedding of [cpdetect/cp_detector.py] (class [Detector] with
    its two distribution models [Normal] and [LogNormal]) and the properties
    of the recursive segmentation and of the step-function reconstruction.

    Numbers are IEEE 754 binary64 values, as numpy's [float64] and Python's
    [float] are: the Standard Library's executable specification
    [SpecFloat] instantiated at precision 53 and maximal exponent 1024.
    The transcendental functions the program takes from numpy and scipy
    ([np.log], [np.exp], [scipy.special.gammaln]) are an interface
    ([Libm]); the development is generic in it.

    Methods keep their names and take the instance [self] first; a method
    that assigns attributes returns the new instance. Exceptions are the
    left summand of [raises]; the recursive [_split] takes fuel. Data
    frames are lists of rows, the dictionaries of the instance are finite
    maps keyed by ['traj_<k>']. Logging is left out.

    The definitions come first: the embedding of the program, then the
    closed forms of the scorer as the specification words them, the
    auxiliary definitions of the proofs, an executable instance of the
    interfaces and concrete detectors. The theorems follow: the scorer,
    the recursive segmenter, the reconstruction, the driver, the table. *)

From Stdlib Require Import ZArith Lia Bool.
From Stdlib Require Import Floats.SpecFloat.
From stdpp Require Import gmap strings list pretty sorting.

Set Default Proof Using "Type".

(** ** Binary64 arithmetic *)

Abbreviation float := spec_float.

Module F64.

Definition prec : Z := 53.
Definition emax : Z := 1024.

Definition add : float -> float -> float := SFadd prec emax.
Definition sub : float -> float -> float := SFsub prec emax.
Definition mul : float -> float -> float := SFmul prec emax.
Definition div : float -> float -> float := SFdiv prec emax.
Definition abs : float -> float := SFabs.
Definition ltb : float -> float -> bool := SFltb.
Definition leb : float -> float -> bool := SFleb.

(** [m * 2^e] rounded to nearest even: float literals and the conversion
    of a Python [int] to [float]. *)
Definition lit (m e : Z) : float := binary_normalize prec emax m e false.
Definition of_Z (z : Z) : float := lit z 0.
Definition of_nat (n : nat) : float := of_Z (Z.of_nat n).

Definition nan : float := S754_nan.
Definition inf : float := S754_infinity false.
Definition neg_inf : float := S754_infinity true.
Definition zero : float := S754_zero false.
Definition one : float := Eval cbv in lit 1 0.

(** [math.isnan] *)
Definition isnan (x : float) : bool :=
  match x with S754_nan => true | _ => false end.

(** A finite real number: neither NaN nor an infinity. *)
Definition is_finite (x : float) : bool :=
  match x with
  | S754_zero _ | S754_finite _ _ _ => true
  | S754_infinity _ | S754_nan => false
  end.

(** Negative infinity or NaN: what a sum becomes once a negative infinity
    entered it. *)
Definition low (x : float) : Prop := x = neg_inf \/ x = nan.

(** A well-formed binary64 datum (normalised mantissa, exponent in range). *)
Definition valid (x : float) : bool := valid_binary prec emax x.

(** [np.pi], the binary64 value 0x1.921fb54442d18p+1. *)
Definition pi : float := Eval cbv in lit 884279719003555 (-48).

(** The float literals of the program. *)
Definition f0_5 : float := Eval cbv in lit 1 (-1).
Definition f1_5 : float := Eval cbv in lit 3 (-1).
Definition f2 : float := Eval cbv in lit 2 0.
Definition f2_5 : float := Eval cbv in lit 5 (-1).
Definition m0_5 : float := Eval cbv in lit (-1) (-1).
Definition m99 : float := Eval cbv in lit (-99) 0.

End F64.

Declare Scope f64_scope.
Delimit Scope f64_scope with f64.
Infix "+" := F64.add : f64_scope.
Infix "-" := F64.sub : f64_scope.
Infix "*" := F64.mul : f64_scope.
Infix "/" := F64.div : f64_scope.

(** ** The mathematical library

    [np.log], [np.exp] and [scipy.special.gammaln] on binary64 scalars.
    These are not code of the repository; their values enter the program
    only through this interface. *)

Class Libm := {
  np_log : float -> float;
  np_exp : float -> float;
  gammaln : float -> float
}.

(** Whether [frame['ts'].values] is a view of the data frame's storage (so
    that sorting it in place reorders the stored column) or a copy. The
    answer depends on the pandas version and on the frame's internal
    layout, so the development is generic in it too. *)
Class Pandas := {
  values_is_view : bool
}.

(** ** Exceptions

    Python exceptions the modelled code can raise. A computation that may
    raise returns [exn + A]. *)

Inductive exn := ValueError | IndexError | KeyError.

Definition raises (A : Type) : Type := (exn + A)%type.

Definition raise {A} (e : exn) : raises A := inl e.

#[global] Instance raises_ret : MRet raises := fun A a => inr a.
#[global] Instance raises_bind : MBind raises := fun A B k c =>
  match c with
  | inl e => inl e
  | inr a => k a
  end.

(** A recursive method is given fuel, the number of nested calls it may
    make: [None] is a recursion that needs more than that. *)
Definition partial (A : Type) : Type := option (raises A).

Definition lift {A} (c : raises A) : partial A := Some c.

#[global] Instance partial_ret : MRet partial := fun A a => Some (inr a).
#[global] Instance partial_bind : MBind partial := fun A B k c =>
  match c with
  | None => None
  | Some (inl e) => Some (inl e)
  | Some (inr a) => k a
  end.

(** [for x in l: s = body(s, x)] with exceptions. *)
Fixpoint for_each {A S} (body : S -> A -> raises S) (l : list A) (s : S)
  : raises S :=
  match l with
  | [] => mret s
  | x :: l' => s' ← body s x; for_each body l' s'
  end.

(** ** numpy arrays as lists *)

(** [range(a, b)] *)
Definition range (a b : nat) : list nat := seq a (b - a).

(** [a[lo:hi]] for non-negative [lo], [hi] (indices are natural numbers
    throughout): bounds are clamped to the array, the slice is empty when
    [hi <= lo]. *)
Definition slice {A} (a : list A) (lo hi : nat) : list A :=
  take (hi - lo) (drop lo a).

(** [a[i]] raising [IndexError] out of range. *)
Definition index {A} (a : list A) (i : nat) : raises A :=
  match a !! i with
  | Some x => mret x
  | None => raise IndexError
  end.

(** [a.sum()]: the reduction starts from the first element and adds the
    others from left to right; the sum of the empty array is [0.0]. (On
    long arrays numpy adds in blocks, which can round differently; no
    theorem below depends on how a finite sum is rounded.) *)
Definition np_sum (a : list float) : float :=
  match a with
  | [] => F64.zero
  | x :: a' => fold_left F64.add a' x
  end.

(** [a.mean()]: [a.sum() / len(a)]; NaN on the empty array. *)
Definition np_mean (a : list float) : float :=
  (np_sum a / F64.of_nat (length a))%f64.

(** [a.var()]: the mean of the squared deviations from the mean. *)
Definition np_var (a : list float) : float :=
  let arrmean := np_mean a in
  np_mean (map (fun x => let d := (x - arrmean)%f64 in (d * d)%f64) a).

(** [a.argmax()] on a float array: the first index holding the maximum,
    the first NaN counting as the maximum. [np_argmax_from] scans the rest
    of the array with the running maximum [mp] found at index [best];
    [i] is the index of the head of the rest. *)
Fixpoint np_argmax_from (a : list float) (i : nat) (mp : float) (best : nat)
  : nat :=
  match a with
  | [] => best
  | x :: a' =>
      if F64.leb x mp then np_argmax_from a' (S i) mp best
      else if F64.isnan x then i
      else np_argmax_from a' (S i) x i
  end.

Definition np_argmax (a : list float) : raises nat :=
  match a with
  | [] => raise ValueError
  | x :: a' => mret (if F64.isnan x then 0 else np_argmax_from a' 1 x 0)
  end.

(** [a[lo:hi] = v] on an array: the positions [lo <= i < hi] that exist
    are overwritten. *)
Definition assign_slice {A} (a : list A) (lo hi : nat) (v : A) : list A :=
  imap (fun i x => if (lo <=? i) && (i <? hi) then v else x) a.

(** [a.sort()] on an integer array. *)
Definition np_sort (a : list nat) : list nat := merge_sort le a.

(** [np.ones(n)] *)
Definition np_ones (n : nat) : list float := replicate n F64.one.

(** ** Data model *)

Inductive Distribution := LogNormal | Normal.

(** A row of a [change_points] data frame (columns [ts], [log_odds],
    [start_end]). *)
Record cp_row := {
  ts : nat;
  log_odds : float;
  start_end : nat * nat
}.

(** A row of a [state_emission] data frame (columns [partition],
    [sample_mu], [sample_sigma]). *)
Record se_row := {
  partition : nat * nat;
  sample_mu : float;
  sample_sigma : float
}.

(** The attributes of a [Detector] instance. The three dictionaries are
    keyed by ['traj_<k>']; a data frame is the list of its rows. *)
Record Detector := {
  _observations : list (list float);
  _nobs : nat;
  _Ts : list nat;
  change_points : gmap string (list cp_row);
  state_emission : gmap string (list se_row);
  loggamma : list float;
  threshold : float;
  step_function : gmap string (list float);
  _distribution : Distribution;
  distribution : string
}.

(** ['traj_%s' % str(k)] *)
Definition traj_key (k : nat) : string := "traj_" +:+ pretty k.

Definition set_change_points (self : Detector) (key : string)
  (frame : list cp_row) : Detector :=
  {| _observations := _observations self; _nobs := _nobs self;
     _Ts := _Ts self;
     change_points := <[key := frame]> (change_points self);
     state_emission := state_emission self; loggamma := loggamma self;
     threshold := threshold self; step_function := step_function self;
     _distribution := _distribution self;
     distribution := distribution self |}.

Definition set_state_emission (self : Detector) (key : string)
  (frame : list se_row) : Detector :=
  {| _observations := _observations self; _nobs := _nobs self;
     _Ts := _Ts self; change_points := change_points self;
     state_emission := <[key := frame]> (state_emission self);
     loggamma := loggamma self; threshold := threshold self;
     step_function := step_function self;
     _distribution := _distribution self;
     distribution := distribution self |}.

Definition set_step_function (self : Detector) (key : string)
  (sf : list float) : Detector :=
  {| _observations := _observations self; _nobs := _nobs self;
     _Ts := _Ts self; change_points := change_points self;
     state_emission := state_emission self; loggamma := loggamma self;
     threshold := threshold self;
     step_function := <[key := sf]> (step_function self);
     _distribution := _distribution self;
     distribution := distribution self |}.

Definition set_loggamma (self : Detector) (table : list float) : Detector :=
  {| _observations := _observations self; _nobs := _nobs self;
     _Ts := _Ts self; change_points := change_points self;
     state_emission := state_emission self; loggamma := table;
     threshold := threshold self; step_function := step_function self;
     _distribution := _distribution self;
     distribution := distribution self |}.

(** [self.observation_lengths] *)
Definition observation_lengths (self : Detector) : list nat := _Ts self.

(** [self.nobservations] *)
Definition nobservations (self : Detector) : nat := _nobs self.

(** ** The detector *)

Section WithLibm.

Context {libm : Libm} {pandas : Pandas}.

(** [LogNormal.mean_var] and [Normal.mean_var]. *)
Definition mean_var (d : Distribution) (data : list float) : float * float :=
  match d with
  | LogNormal =>
      let n := length data in
      let logx := map np_log data in
      let loc := (np_sum logx / F64.of_nat n)%f64 in
      let scale :=
        (np_sum (map (fun x => let d := (x - loc)%f64 in (d * d)%f64) logx)
         / F64.of_nat n)%f64 in
      (loc, scale)
  | Normal => (np_mean data, np_var data)
  end.

(** The body of the loop of [_normal_lognormal_bf] (lines 99-115): the
    weight of the candidate split [i] of the segment [obs]. *)
Definition split_weight (self : Detector) (obs : list float) (i : nat)
  : raises float :=
  let data_a := slice obs 0 i in
  let n_a := length data_a in
  let data_b := drop i obs in
  let n_b := length data_b in
  let '(mean_a, var_a) := mean_var (_distribution self) data_a in
  let '(mean_b, var_b) := mean_var (_distribution self) data_b in
  let mean_a2 := (mean_a * mean_a)%f64 in
  let mean_b2 := (mean_b * mean_b)%f64 in
  lg_a ← index (loggamma self) n_a;
  let wnumf1 :=
    ((F64.m0_5 * F64.of_nat n_a + F64.f0_5) * np_log (F64.of_nat n_a)
     + (F64.m0_5 * F64.of_nat n_a + F64.one) * np_log var_a + lg_a)%f64 in
  lg_b ← index (loggamma self) n_b;
  let wnumf2 :=
    ((F64.m0_5 * F64.of_nat n_b + F64.f0_5) * np_log (F64.of_nat n_b)
     + (F64.m0_5 * F64.of_nat n_b + F64.one) * np_log var_b + lg_b)%f64 in
  let wdenom :=
    (np_log (var_a + var_b) + np_log (mean_a2 * mean_b2))%f64 in
  mret ((wnumf1 + wnumf2) - wdenom)%f64.

(** Line 123: the positions where a change cannot occur are set to
    negative infinity. *)
Definition mask_weights (weights : list float) : list float :=
  let n := length weights in
  <[n - 2 := F64.neg_inf]>
    (<[n - 1 := F64.neg_inf]>
       (<[2 := F64.neg_inf]>
          (<[1 := F64.neg_inf]> (<[0 := F64.neg_inf]> weights)))).

(** [Detector._normal_lognormal_bf]: [None] when the segment is not split,
    otherwise the split index (relative to the segment) and the log odds. *)
Definition _normal_lognormal_bf (self : Detector) (obs : list float)
  : raises (option (nat * float)) :=
  let n := length obs in
  if n <? 6 then mret None
  else
    let '(mean, var) := mean_var (_distribution self) obs in
    lg_n ← index (loggamma self) n;
    let denom :=
      (F64.f1_5 * np_log F64.pi
       + (F64.of_Z (- Z.of_nat n) / F64.f2 + F64.f0_5)
         * np_log (F64.of_nat n * var)
       + lg_n)%f64 in
    weights ← for_each
      (fun weights i => w ← split_weight self obs i; mret (weights ++ [w]))
      (range 3 (n - 2)) [F64.zero; F64.zero; F64.zero];
    let weights := weights ++ [F64.zero; F64.zero] in
    let num :=
      (F64.f2_5 * np_log F64.f2 + np_log (F64.abs mean)
       + np_mean weights)%f64 in
    let log_odds := (num - denom)%f64 in
    let weights := mask_weights weights in
    if F64.isnan log_odds then raise ValueError
    else if F64.ltb log_odds (threshold self) then mret None
    else i ← np_argmax weights; mret (Some (i, log_odds)).

(** [Detector._generate_loggamma_table]; [max] of an empty sequence raises
    [ValueError]. *)
Definition _generate_loggamma_table (self : Detector) : raises Detector :=
  match _Ts self with
  | [] => raise ValueError
  | _ =>
      mret (fold_left
              (fun self i =>
                 set_loggamma self
                   (loggamma self
                    ++ [gammaln (F64.f0_5 * F64.of_nat i - F64.one)%f64]))
              (range 3 (foldr Nat.max 0 (_Ts self) + 1)) self)
  end.

(** [Detector.__init__] *)
Definition __init__ (observations : list (list float))
  (distribution : string) (log_odds_threshold : float) : raises Detector :=
  let self d name :=
    {| _observations := observations;
       _nobs := length observations;
       _Ts := map length observations;
       change_points := ∅;
       state_emission := ∅;
       loggamma := [F64.m99; F64.m99; F64.m99];
       threshold := log_odds_threshold;
       step_function := ∅;
       _distribution := d;
       distribution := name |} in
  if String.eqb distribution "log_normal" then
    _generate_loggamma_table (self LogNormal "log_normal")
  else if String.eqb distribution "normal"
          || String.eqb distribution "gaussian" then
    _generate_loggamma_table (self Normal "normal")
  else raise ValueError.

(** [self.change_points[key]], raising [KeyError] on a missing key. *)
Definition get_change_points (self : Detector) (key : string)
  : raises (list cp_row) :=
  match change_points self !! key with
  | Some frame => mret frame
  | None => raise KeyError
  end.

(** [Detector._split] *)
Fixpoint _split (fuel : nat) (self : Detector) (obs : list float)
  (start end_ itraj : nat) : partial Detector :=
  match fuel with
  | 0 => None
  | S fuel =>
      result ← lift (_normal_lognormal_bf self (slice obs start end_));
      match result with
      | None => mret self
      | Some (i, log_odds) =>
          let ts := start + i in
          frame ← lift (get_change_points self (traj_key itraj));
          let self :=
            set_change_points self (traj_key itraj)
              (frame ++ [{| ts := ts; log_odds := log_odds;
                            start_end := (start, end_) |}]) in
          self ← _split fuel self obs start ts itraj;
          _split fuel self obs ts end_ itraj
      end
  end.

(** The loop of [_generate_step_function] (lines 228-239) over the sorted
    change points [ts]: [rest] is what remains to enumerate, [j] its head.
    Reading [ts[i+1]] past the end raises the [IndexError] that the
    [except] clause turns into the last partition. [length_] is
    [self.observation_lengths[itraj]]; the loop runs with a change point
    recorded, on a trajectory of at least 6 samples, so that the
    subtractions [length_ - 1] and [len(obs) - 1] stay natural numbers. *)
Fixpoint partition_loop (d : Distribution) (obs : list float) (length_ : nat)
  (ts_last : nat) (rest : list nat)
  (acc : list (nat * nat) * list float * list float)
  : list (nat * nat) * list float * list float :=
  let '(partitions, means, sigmas) := acc in
  match rest with
  | [] => acc
  | j :: rest' =>
      match rest' with
      | next :: _ =>
          let '(mean, var) := mean_var d (slice obs (j + 1) next) in
          partition_loop d obs length_ ts_last rest'
            (partitions ++ [(j + 1, next)], means ++ [mean], sigmas ++ [var])
      | [] =>
          let '(mean, var) :=
            mean_var d (slice obs (ts_last + 1) (length obs - 1)) in
          partition_loop d obs length_ ts_last rest'
            (partitions ++ [(ts_last + 1, length_ - 1)],
             means ++ [mean], sigmas ++ [var])
      end
  end.

(** Assembling the [state_emission] frame from its three columns. *)
Definition se_frame (cols : list (nat * nat) * list float * list float)
  : list se_row :=
  let '(partitions, means, sigmas) := cols in
  zip_with (fun p ms => {| partition := p; sample_mu := ms.1;
                           sample_sigma := ms.2 |})
    partitions (zip means sigmas).

(** The loop writing the step function (lines 246-248). *)
Definition write_rows (sf : list float) (rows : list se_row) : list float :=
  fold_left
    (fun sf row =>
       assign_slice sf (partition row).1 ((partition row).2 + 1)
         (np_exp (sample_mu row)))
    rows sf.

(** The effect of sorting [frame['ts'].values] in place on the stored
    frame. *)
Definition sort_ts_column (frame : list cp_row) : list cp_row :=
  if values_is_view then
    zip_with (fun row t => {| ts := t; log_odds := log_odds row;
                              start_end := start_end row |})
      frame (np_sort (map ts frame))
  else frame.

(** [Detector._generate_step_function]. [np.ones] of a negative length
    raises [ValueError]. *)
Definition _generate_step_function (self : Detector) (obs : list float)
  (itraj : nat) : raises Detector :=
  let key := traj_key itraj in
  let self := set_state_emission self key [] in
  frame ← get_change_points self key;
  let ts := map ts frame in
  if length ts =? 0 then
    length_ ← index (observation_lengths self) itraj;
    if length_ =? 0 then raise ValueError
    else
      let self := set_step_function self key (np_ones (length_ - 1)) in
      let '(mean, var) := mean_var (_distribution self) obs in
      mret (set_step_function self key
              (map (fun x => (x * np_exp mean)%f64) (np_ones (length_ - 1))))
  else
    let ts := np_sort ts in
    let self := set_change_points self key (sort_ts_column frame) in
    let ts0 := default 0 (head ts) in
    let ts_last := default 0 (last ts) in
    let '(mean, var) := mean_var (_distribution self) (slice obs 0 ts0) in
    length_ ← index (observation_lengths self) itraj;
    let cols :=
      partition_loop (_distribution self) obs length_ ts_last ts
        ([(0, ts0)], [mean], [var]) in
    let self := set_state_emission self key (se_frame cols) in
    let self := set_step_function self key (np_ones length_) in
    mret (set_step_function self key
            (write_rows (np_ones length_) (se_frame cols))).

(** The body of the loop of [detect_cp] (lines 159-168), over the
    trajectory indices [ks] still to process. *)
Fixpoint detect_cp_loop (fuel : nat) (ks : list nat) (self : Detector)
  : partial Detector :=
  match ks with
  | [] => mret self
  | k :: ks =>
      let self := set_change_points self (traj_key k) [] in
      obs ← lift (index (_observations self) k);
      length_ ← lift (index (observation_lengths self) k);
      self ← _split fuel self obs 0 length_ k;
      self ← lift (_generate_step_function self obs k);
      detect_cp_loop fuel ks self
  end.

(** [Detector.detect_cp] *)
Definition detect_cp (fuel : nat) (self : Detector) : partial Detector :=
  detect_cp_loop fuel (range 0 (_nobs self)) self.

End WithLibm.

(** ** Auxiliary definitions for the proofs *)

(** The attributes the scorer reads. *)
Definition same_config (a b : Detector) : Prop :=
  _distribution a = _distribution b
  /\ loggamma a = loggamma b
  /\ threshold a = threshold b.

(** The attributes no method assigns after construction. *)
Definition same_input (a b : Detector) : Prop :=
  _observations a = _observations b
  /\ _nobs a = _nobs b
  /\ _Ts a = _Ts b
  /\ distribution a = distribution b.

(** A detector as its constructor leaves these attributes. *)
Definition well_formed (self : Detector) : Prop :=
  _nobs self = length (_observations self)
  /\ _Ts self = map length (_observations self).

Section SplitRows.

Context {libm : Libm}.

(** The rows [_split] appends to the frame of its trajectory, in the order
    it appends them. *)
Fixpoint split_rows (fuel : nat) (self : Detector) (obs : list float)
  (start end_ : nat) : partial (list cp_row) :=
  match fuel with
  | 0 => None
  | S fuel =>
      result ← lift (_normal_lognormal_bf self (slice obs start end_));
      match result with
      | None => mret []
      | Some (i, lo) =>
          let t := start + i in
          left ← split_rows fuel self obs start t;
          right ← split_rows fuel self obs t end_;
          mret ({| ts := t; log_odds := lo; start_end := (start, end_) |}
                  :: left ++ right)
      end
  end.

(** The windows [[s, e)] that the call [_split(obs, start, end_, itraj)]
    scores, itself or in one of its recursive calls, when no exception
    ends it before: the window of the call and, when the scorer accepts
    a split of it at [start + i], the windows that the calls on
    [[start, start + i)] and on [[start + i, end_)] score. *)
Inductive scored (self : Detector) (obs : list float)
  : nat -> nat -> nat -> nat -> Prop :=
  | scored_here (start end_ : nat) : scored self obs start end_ start end_
  | scored_left (start end_ i : nat) (lo : float) (s e : nat) :
      _normal_lognormal_bf self (slice obs start end_) = inr (Some (i, lo)) ->
      scored self obs start (start + i) s e ->
      scored self obs start end_ s e
  | scored_right (start end_ i : nat) (lo : float) (s e : nat) :
      _normal_lognormal_bf self (slice obs start end_) = inr (Some (i, lo)) ->
      scored self obs (start + i) end_ s e ->
      scored self obs start end_ s e.

End SplitRows.

Section Reconstruction.

Context {libm : Libm} {pandas : Pandas}.

(** The State-Emission row the program records for the partition [p]: the
    statistics of the slice [obs[p.1:p.2]]. *)
Definition stat_row (d : Distribution) (obs : list float) (p : nat * nat)
  : se_row :=
  let mv := mean_var d (slice obs p.1 p.2) in
  {| partition := p; sample_mu := mv.1; sample_sigma := mv.2 |}.

(** The partitions that follow the first one, from the sorted change
    points [ts]: [(ts_i + 1, ts_(i+1))], the last one ending at [hi]. *)
Fixpoint partitions_after (hi : nat) (ts : list nat) : list (nat * nat) :=
  match ts with
  | [] => []
  | j :: rest =>
      (j + 1, match rest with next :: _ => next | [] => hi end)
        :: partitions_after hi rest
  end.

(** The partitions of a trajectory of length [len] with the sorted change
    points [ts]. *)
Definition partitions_of (len : nat) (ts : list nat) : list (nat * nat) :=
  match ts with
  | [] => []
  | t0 :: _ => (0, t0) :: partitions_after (len - 1) ts
  end.

(** What [_generate_step_function] computes from the frame of change
    points of a trajectory: the frame it leaves, the State-Emission frame
    and the step function. *)
Definition reconstruct (self : Detector) (obs : list float) (itraj : nat)
  (frame : list cp_row)
  : raises (list cp_row * list se_row * list float) :=
  length_ ← index (observation_lengths self) itraj;
  match frame with
  | [] =>
      if length_ =? 0 then raise ValueError
      else
        mret ([], [],
              map (fun x => (x * np_exp (mean_var (_distribution self) obs).1)%f64)
                (np_ones (length_ - 1)))
  | _ :: _ =>
      let ts := np_sort (map ts frame) in
      let ts0 := default 0 (head ts) in
      let ts_last := default 0 (last ts) in
      let '(mean, var) := mean_var (_distribution self) (slice obs 0 ts0) in
      let rows :=
        se_frame (partition_loop (_distribution self) obs length_ ts_last ts
                    ([(0, ts0)], [mean], [var])) in
      mret (sort_ts_column frame, rows, write_rows (np_ones length_) rows)
  end.

(** Storing the three results of a trajectory. *)
Definition store (self : Detector) (itraj : nat)
  (r : list cp_row * list se_row * list float) : Detector :=
  let '(cp, se, sf) := r in
  set_step_function
    (set_state_emission (set_change_points self (traj_key itraj) cp)
       (traj_key itraj) se)
    (traj_key itraj) sf.

(** What one round of the loop of [detect_cp] computes for the trajectory
    [k]. *)
Definition trajectory_result (fuel : nat) (self : Detector) (k : nat)
  : partial (list cp_row * list se_row * list float) :=
  obs ← lift (index (_observations self) k);
  length_ ← lift (index (observation_lengths self) k);
  rows ← split_rows fuel self obs 0 length_;
  lift (reconstruct self obs k rows).

End Reconstruction.

(** The inclusive ranges [parts] follow one another without gap or
    overlap from [lo] up to, and excluding, [stop]. *)
Fixpoint chain (lo : nat) (parts : list (nat * nat)) (stop : nat) : Prop :=
  match parts with
  | [] => lo = stop
  | (a, b) :: rest => a = lo /\ a <= b /\ chain (b + 1) rest stop
  end.

(** The number of inclusive ranges among [parts] that contain [i]. *)
Definition count_containing (i : nat) (parts : list (nat * nat)) : nat :=
  length (filter (fun p => p.1 <= i <= p.2) parts).

(** The inclusive ranges [parts] cover [[0, len)] exactly: every index
    below [len] lies in exactly one, every other index in none. *)
Definition covers_exactly (parts : list (nat * nat)) (len : nat) : Prop :=
  forall i, count_containing i parts = if decide (i < len) then 1 else 0.

(** The constant block a State-Emission row contributes to the step
    function. *)
Definition block {libm : Libm} (row : se_row) : list float :=
  replicate ((partition row).2 + 1 - (partition row).1)
    (np_exp (sample_mu row)).

(** The three entries of a detector for the key [key]. *)
Definition results_at (self : Detector) (key : string)
  : option (list cp_row) * option (list se_row) * option (list float) :=
  (change_points self !! key, state_emission self !! key,
   step_function self !! key).

(** The indices at which scoring the segment [obs] (of at least 6 points)
    subscripts [self.loggamma], in the order of the reads: line 92, then
    lines 110 and 111 for every candidate split. *)
Definition loggamma_reads (obs : list float) : list nat :=
  let n := length obs in
  n :: flat_map (fun i => [length (slice obs 0 i); length (drop i obs)])
         (range 3 (n - 2)).

(** The longest trajectory, [max(self._Ts)]. *)
Definition max_length (observations : list (list float)) : nat :=
  foldr Nat.max 0 (map length observations).

(** ** An executable instance of the interfaces

    A coarse stand-in for the mathematical library, used to run the
    detector on concrete inputs. It is exact on the IEEE 754 special cases
    ([log] of zero, of a negative number, of an infinity, of NaN, and so
    on) and returns a well-formed finite approximation elsewhere; no
    theorem below depends on its finite values. *)

Module Coarse.

Definition ln2 : float := Eval cbv in F64.lit 6243314768165359 (-53).
Definition log2e : float := Eval cbv in F64.lit 6497320848556798 (-52).
Definition half_ln_2pi : float := Eval cbv in F64.lit 8277062471433908 (-53).

(** The logarithm of [m * 2^e]: [ln2 * (k + (f - 1))] where
    [m * 2^e = f * 2^k] with [1 <= f < 2]. *)
Definition log_pos (m : positive) (e : Z) : float :=
  let d := (Z.pos (digits2_pos m) - 1)%Z in
  let k := F64.of_Z (e + d) in
  let f := F64.lit (Z.pos m) (- d) in
  (ln2 * (k + (f - F64.one)))%f64.

Definition log (x : float) : float :=
  match x with
  | S754_nan => F64.nan
  | S754_zero _ => F64.neg_inf
  | S754_infinity false => F64.inf
  | S754_infinity true => F64.nan
  | S754_finite true _ _ => F64.nan
  | S754_finite false m e => log_pos m e
  end.

(** The integer part of a finite float. *)
Definition trunc (x : float) : Z :=
  match x with
  | S754_finite s m e =>
      let a := match e with
               | Z.neg p => Z.shiftr (Z.pos m) (Z.pos p)
               | _ => Z.shiftl (Z.pos m) e
               end in
      if s then (- a)%Z else a
  | _ => 0%Z
  end.

(** The exponential: the power of two [2^trunc(x * log2e)]. *)
Definition exp (x : float) : float :=
  match x with
  | S754_nan => F64.nan
  | S754_zero _ => F64.one
  | S754_infinity false => F64.inf
  | S754_infinity true => F64.zero
  | S754_finite s m e =>
      if (12 <? e + Z.pos (digits2_pos m))%Z
      then (if s then F64.zero else F64.inf)
      else F64.lit 1 (trunc (x * log2e)%f64)
  end.

(** The logarithm of the gamma function by Stirling's formula on the
    positive numbers, [+inf] on the others. *)
Definition lgamma (x : float) : float :=
  match x with
  | S754_nan => F64.nan
  | S754_infinity _ => F64.inf
  | S754_zero _ => F64.inf
  | S754_finite true _ _ => F64.inf
  | S754_finite false m e =>
      ((x - F64.f0_5) * log_pos m e - x + half_ln_2pi)%f64
  end.

#[export] Instance libm : Libm :=
  {| np_log := log; np_exp := exp; gammaln := lgamma |}.

(** Both answers to the aliasing question. *)
Definition view : Pandas := {| values_is_view := true |}.
Definition copy : Pandas := {| values_is_view := false |}.

End Coarse.

(** ** The scorer as the specification words it

    The closed forms of the specification (section 4.3), written from its
    text: [logGamma] is the table read as a function, a candidate split [i]
    has a left part of length [i] and a right part of length [n - i]. *)

Section Spec.

Context {libm : Libm}.

Variable logGamma : nat -> float.
Variable d : Distribution.
Variable segment : list float.

Definition spec_denom : float :=
  let n := length segment in
  let var := (mean_var d segment).2 in
  (F64.f1_5 * np_log F64.pi
   + (F64.of_Z (- Z.of_nat n) / F64.f2 + F64.f0_5)
     * np_log (F64.of_nat n * var)
   + logGamma n)%f64.

Definition spec_w (i : nat) : float :=
  let n := length segment in
  let n_a := i in
  let n_b := n - i in
  let '(mean_a, var_a) := mean_var d (take i segment) in
  let '(mean_b, var_b) := mean_var d (drop i segment) in
  ((((F64.m0_5 * F64.of_nat n_a + F64.f0_5) * np_log (F64.of_nat n_a)
     + (F64.m0_5 * F64.of_nat n_a + F64.one) * np_log var_a
     + logGamma n_a)
    + ((F64.m0_5 * F64.of_nat n_b + F64.f0_5) * np_log (F64.of_nat n_b)
       + (F64.m0_5 * F64.of_nat n_b + F64.one) * np_log var_b
       + logGamma n_b))
   - (np_log (var_a + var_b)
      + np_log ((mean_a * mean_a) * (mean_b * mean_b))))%f64.

(** One weight per position of the segment: [w(i)] at the candidates
    [3 <= i <= n - 3], the zero placeholder at positions 0, 1, 2 and at the
    last two. *)
Definition spec_weights : list float :=
  let n := length segment in
  map (fun i => if (3 <=? i) && (i <=? n - 3) then spec_w i else F64.zero)
    (seq 0 n).

Definition spec_num : float :=
  let mean := (mean_var d segment).1 in
  (F64.f2_5 * np_log F64.f2 + np_log (F64.abs mean)
   + np_mean spec_weights)%f64.

Definition spec_log_odds : float := (spec_num - spec_denom)%f64.

End Spec.

(** The table of a detector read as a function. *)
Definition table_fun (table : list float) (n : nat) : float :=
  default F64.nan (table !! n).

(** What the scorer decides from the log odds [lo] and the weights [w]. *)
Definition decision (threshold : float) (lo : float) (w : list float)
  : raises (option (nat * float)) :=
  if F64.isnan lo then raise ValueError
  else if F64.ltb lo threshold then mret None
  else i ← np_argmax (mask_weights w); mret (Some (i, lo)).


(** ** Concrete detectors *)

Module Examples.

(** Two levels with a jump after the third sample. *)
Definition two_levels : list float :=
  map F64.of_Z [1; 2; 3; 11; 12; 13]%Z.

(** The first three samples average to zero: 1, -1, 0, 5, 6, 7.5. *)
Definition zero_mean_head : list float :=
  [F64.of_Z 1; F64.of_Z (-1); F64.of_Z 0; F64.of_Z 5; F64.of_Z 6;
   F64.lit 15 (-1)].

(** Samples so large that the product of the squared means of the two
    halves overflows: 1, 2, 3, 1, 2, 3 times 2^340. *)
Definition huge : list float :=
  map (fun z => F64.lit z 340) [1; 2; 3; 1; 2; 3]%Z.

(** A trajectory too short to be split. *)
Definition short : list float := map F64.of_Z [4; 5; 6]%Z.

Definition no_detector : Detector :=
  {| _observations := []; _nobs := 0; _Ts := [];
     change_points := ∅; state_emission := ∅; loggamma := [];
     threshold := F64.zero; step_function := ∅;
     _distribution := Normal; distribution := "" |}.

(** The detector [Detector(observations, name, thr)]. *)
Definition construct (observations : list (list float)) (name : string)
  (thr : float) : Detector :=
  match __init__ (libm := Coarse.libm) observations name thr with
  | inr self => self
  | inl _ => no_detector
  end.

(** The detector after [detect_cp], when it returns. *)
Definition run (p : Pandas) (fuel : nat) (self : Detector) : Detector :=
  match detect_cp (libm := Coarse.libm) (pandas := p) fuel self with
  | Some (inr self') => self'
  | _ => no_detector
  end.

(** A detector of two trajectories, and what [detect_cp] makes of it. *)
Definition two_trajectories : Detector :=
  construct [two_levels; short] "normal" F64.zero.

Definition detected : Detector := run Coarse.view 5 two_trajectories.

(** The change points recorded for the first trajectory. *)
Definition detected_cps : list cp_row :=
  default [] (change_points detected !! traj_key 0).

End Examples.

(** ** Further definitions: the rest of the class and what the
    properties of the next part are stated with *)

(** The string the constructor stores for a distribution model. *)
Definition model_name (d : Distribution) : string :=
  match d with
  | LogNormal => "log_normal"
  | Normal => "normal"
  end.

(** The instance with another distribution model. *)
Definition with_model (self : Detector) (d : Distribution) : Detector :=
  {| _observations := _observations self; _nobs := _nobs self;
     _Ts := _Ts self; change_points := change_points self;
     state_emission := state_emission self; loggamma := loggamma self;
     threshold := threshold self; step_function := step_function self;
     _distribution := d;
     distribution := model_name d |}.

(** The instance with another threshold. *)
Definition with_threshold (self : Detector) (thr : float) : Detector :=
  {| _observations := _observations self; _nobs := _nobs self;
     _Ts := _Ts self; change_points := change_points self;
     state_emission := state_emission self; loggamma := loggamma self;
     threshold := thr; step_function := step_function self;
     _distribution := _distribution self;
     distribution := distribution self |}.

(** A function applied to the value a recursive method returns. *)
Definition partial_map {A B} (f : A -> B) (c : partial A) : partial B :=
  match c with
  | None => None
  | Some (inl e) => Some (inl e)
  | Some (inr a) => Some (inr (f a))
  end.

(** NaN. *)
Definition is_nan (x : float) : Prop := x = F64.nan.

(** Positive infinity or NaN. *)
Definition high (x : float) : Prop := x = F64.inf \/ x = F64.nan.

(** What IEEE 754 and C say of the logarithm outside the positive finite
    numbers: NaN for NaN and for the negative numbers, negative infinity
    for both zeros, positive infinity for positive infinity. *)
Definition ieee_log {libm : Libm} : Prop :=
  np_log F64.nan = F64.nan
  /\ (forall s, np_log (S754_zero s) = F64.neg_inf)
  /\ np_log F64.inf = F64.inf
  /\ np_log F64.neg_inf = F64.nan
  /\ (forall m e, np_log (S754_finite true m e) = F64.nan).

(** A positive finite number: the samples the log-normal model is meant
    for. *)
Definition positive_finite (x : float) : bool :=
  match x with
  | S754_finite false _ _ => true
  | _ => false
  end.

(** [Detector.to_csv]. The rendering of a data frame as text is pandas's;
    of the method the model keeps what it does with it. [pd.concat] raises
    [ValueError] when there is no frame to concatenate. With a file name
    that is true (not [None], not the empty string) the concatenation
    [frames] of the frames under their keys is written to the file and the
    method returns [None]; without one the method evaluates
    [all.to_csv()], on the built-in [all], which raises
    [AttributeError]. *)
Inductive to_csv_outcome :=
  | CsvValueError
  | CsvAttributeError
  | CsvWritten (filename : string) (frames : gmap string (list cp_row)).

Definition to_csv (self : Detector) (filename : option string)
  : to_csv_outcome :=
  if decide (change_points self = ∅) then CsvValueError
  else
    match filename with
    | Some name =>
        if String.eqb name "" then CsvAttributeError
        else CsvWritten name (change_points self)
    | None => CsvAttributeError
    end.

(** A Change Point Record made by an accepted split of a window inside
    [[start, end_)]: its log odds are a number that is not below the
    threshold, and its change point lies at least three positions inside
    the window it records. *)
Definition record_ok (thr : float) (start end_ : nat) (r : cp_row) : Prop :=
  F64.isnan (log_odds r) = false
  /\ F64.ltb (log_odds r) thr = false
  /\ start <= (start_end r).1
  /\ (start_end r).2 <= end_
  /\ (start_end r).1 + 3 <= ts r
  /\ ts r + 3 <= (start_end r).2.

(** At least three positions apart. *)
Definition gap3 (a b : nat) : Prop := a + 3 <= b.

(** ** Further concrete inputs *)

Module Inputs.

(** Six samples, the third a NaN. *)
Definition with_nan : list float :=
  [F64.of_Z 1; F64.of_Z 2; F64.nan; F64.of_Z 4; F64.of_Z 5; F64.of_Z 6].

(** Eighteen samples on three levels: 1, 2, 3, 1, 2, 3, then 41, 42, 43,
    41, 42, 43, then 91, 92, 93, 91, 92, 93. *)
Definition three_levels : list float :=
  map F64.of_Z
    [1; 2; 3; 1; 2; 3; 41; 42; 43; 41; 42; 43; 91; 92; 93; 91; 92; 93]%Z.

(** A detector on [Examples.two_levels] as [detect_cp] leaves it before
    it calls [_split], and what the call makes of it. *)
Definition before_split : Detector :=
  set_change_points
    (Examples.construct [Examples.two_levels] "normal" F64.zero)
    (traj_key 0) [].

Definition after_split : Detector :=
  match
    _split (libm := Coarse.libm) 7 before_split Examples.two_levels 0 6 0
  with
  | Some (inr self') => self'
  | _ => Examples.no_detector
  end.

(** The detector on [three_levels], and the split index and log odds the
    scorer returns for the whole trajectory. *)
Definition three_levels_detector : Detector :=
  Examples.construct [three_levels] "normal" F64.zero.

Definition three_levels_split : nat * float :=
  match
    _normal_lognormal_bf (libm := Coarse.libm) three_levels_detector
      three_levels
  with
  | inr (Some r) => r
  | _ => (0, F64.nan)
  end.

(** A detector of two trajectories, the second one empty. *)
Definition with_empty : Detector :=
  Examples.construct [Examples.two_levels; []] "normal" F64.zero.

End Inputs.
(** ** The numpy operations on small inputs *)

Section Sanity.

Example slice_clamps : slice [10; 11; 12; 13] 1 9 = [11; 12; 13].
Proof. reflexivity. Qed.

Example slice_empty : slice [10; 11; 12; 13] 3 2 = [].
Proof. reflexivity. Qed.

Example assign_slice_clamps :
  assign_slice [10; 11; 12; 13] 2 9 0 = [10; 11; 0; 0].
Proof. reflexivity. Qed.

Example np_argmax_first_maximum :
  np_argmax [F64.of_Z 1; F64.of_Z 7; F64.of_Z 3; F64.of_Z 7] = inr 1.
Proof. reflexivity. Qed.

Example np_argmax_first_nan :
  np_argmax [F64.of_Z 1; F64.nan; F64.of_Z 3; F64.nan] = inr 1.
Proof. reflexivity. Qed.

Example np_argmax_all_neg_inf :
  np_argmax [F64.neg_inf; F64.neg_inf; F64.neg_inf] = inr 0.
Proof. reflexivity. Qed.

Example np_mean_empty : np_mean [] = F64.nan.
Proof. reflexivity. Qed.

Example np_mean_three :
  np_mean [F64.of_Z 1; F64.of_Z 2; F64.of_Z 6] = F64.of_Z 3.
Proof. reflexivity. Qed.

Example np_var_three :
  np_var [F64.of_Z 1; F64.of_Z 3; F64.of_Z 5]
  = (F64.of_Z 8 / F64.of_Z 3)%f64.
Proof. reflexivity. Qed.

Example np_sort_ints : np_sort [10; 7; 3; 13; 17] = [3; 7; 10; 13; 17].
Proof. reflexivity. Qed.

Example traj_key_12 : traj_key 12 = "traj_12".
Proof. reflexivity. Qed.

End Sanity.

(** ** Properties of the scorer *)

Section Scorer.

Context {libm : Libm}.

Lemma for_each_append {A B} (f : A -> raises B) (g : A -> B) (l : list A)
  (acc : list B) :
  (forall i, i ∈ l -> f i = inr (g i)) ->
  for_each (fun ws i => w ← f i; mret (ws ++ [w])) l acc
  = inr (acc ++ map g l).
Proof.
  revert acc. induction l as [|x l IH]; intros acc Hf; simpl.
  - by rewrite app_nil_r.
  - rewrite (Hf x) by left. simpl.
    rewrite IH by (intros i Hi; apply Hf; by right).
    by rewrite <- app_assoc.
Qed.

Lemma index_table_fun (table : list float) (n : nat) :
  n < length table -> index table n = inr (table_fun table n).
Proof.
  intros Hn. unfold index, table_fun.
  destruct (lookup_lt_is_Some_2 table n Hn) as [x ->]. reflexivity.
Qed.

Lemma split_weight_spec (self : Detector) (obs : list float) (i : nat) :
  i <= length obs -> length obs < length (loggamma self) ->
  split_weight self obs i
  = inr (spec_w (table_fun (loggamma self)) (_distribution self) obs i).
Proof.
  intros Hi Hn. unfold split_weight, spec_w, slice.
  rewrite drop_0, Nat.sub_0_r, length_take, length_drop.
  rewrite (Nat.min_l i) by lia.
  destruct (mean_var _ (take i obs)) as [mean_a var_a].
  destruct (mean_var _ (drop i obs)) as [mean_b var_b].
  rewrite !index_table_fun by lia. reflexivity.
Qed.

(** The weights as the loop builds them are the weights of the
    specification. *)
Lemma weights_spec (logGamma : nat -> float) (d : Distribution)
  (obs : list float) :
  6 <= length obs ->
  [F64.zero; F64.zero; F64.zero]
    ++ map (spec_w logGamma d obs) (range 3 (length obs - 2))
    ++ [F64.zero; F64.zero]
  = spec_weights logGamma d obs.
Proof.
  intros Hn. unfold spec_weights, range.
  set (n := length obs) in *.
  assert (Hseq : seq 0 n = [0; 1; 2] ++ seq 3 (n - 2 - 3) ++ [n - 2; n - 1]).
  { transitivity (seq 0 3 ++ seq (0 + 3) (n - 2 - 3)
                    ++ seq (0 + 3 + (n - 2 - 3)) 2).
    - rewrite <- !seq_app. f_equal. lia.
    - simpl. do 4 f_equal. f_equal; [lia|]. f_equal. lia. }
  rewrite Hseq, !map_app. cbn [map app].
  change (3 <=? 0) with false. change (3 <=? 1) with false.
  change (3 <=? 2) with false. cbn [andb].
  replace (n - 2 <=? n - 3) with false by (symmetry; apply Nat.leb_gt; lia).
  replace (n - 1 <=? n - 3) with false by (symmetry; apply Nat.leb_gt; lia).
  rewrite !andb_false_r. do 4 f_equal.
  apply map_ext_in. intros i Hi%in_seq.
  replace ((3 <=? i) && (i <=? n - 3)) with true; [done|].
  symmetry. apply andb_true_iff. split; apply Nat.leb_le; lia.
Qed.

Lemma bf_spec (self : Detector) (obs : list float) :
  6 <= length obs -> length obs < length (loggamma self) ->
  _normal_lognormal_bf self obs
  = decision (threshold self)
      (spec_log_odds (table_fun (loggamma self)) (_distribution self) obs)
      (spec_weights (table_fun (loggamma self)) (_distribution self) obs).
Proof.
  intros Hn Ht. unfold _normal_lognormal_bf.
  replace (length obs <? 6) with false by (symmetry; apply Nat.ltb_ge; lia).
  unfold decision, spec_log_odds, spec_num, spec_denom.
  destruct (mean_var (_distribution self) obs) as [mean var] eqn:Hmv.
  rewrite index_table_fun by lia. simpl.
  rewrite (for_each_append _
             (spec_w (table_fun (loggamma self)) (_distribution self) obs)).
  2:{ intros i Hi. apply split_weight_spec; [|done].
      unfold range in Hi. apply list_elem_of_In, in_seq in Hi. lia. }
  simpl. rewrite <- (weights_spec _ _ obs Hn). simpl. reflexivity.
Qed.

End Scorer.

(** ** Infinities and NaN in binary64 arithmetic *)

Module F64Facts.

Lemma add_neg_inf_r x : F64.low (x + F64.neg_inf)%f64.
Proof. destruct x as [s|[]| |s m e]; cbn; unfold F64.low; auto. Qed.

Lemma add_low_r x y : F64.low y -> F64.low (x + y)%f64.
Proof.
  intros [->| ->]; [apply add_neg_inf_r|].
  right. by destruct x.
Qed.

Lemma add_low_zero x : F64.low x -> F64.low (x + F64.zero)%f64.
Proof. intros [->| ->]; [left|right]; reflexivity. Qed.

Lemma sub_low_l x y : F64.low x -> F64.low (x - y)%f64.
Proof.
  intros [->| ->]; [|by right].
  destruct y as [s|[]| |s m e]; cbn; unfold F64.low; auto.
Qed.

(** The conversion of a natural number never yields a negative float. *)
Lemma of_nat_sign n :
  match F64.of_nat n with
  | S754_zero s | S754_infinity s | S754_finite s _ _ => s = false
  | S754_nan => True
  end.
Proof.
  unfold F64.of_nat, F64.of_Z, F64.lit, binary_normalize.
  destruct (Z.of_nat n) as [|p|p] eqn:Hn; [done| |lia].
  unfold binary_round. destruct (shl_align _ _ _) as [mz ez].
  unfold binary_round_aux.
  destruct (shr_fexp _ _ _ _ _) as [mrs' e'].
  destruct (shr_fexp _ _ _ _ _) as [mrs'' e''].
  destruct (shr_m mrs''); [done| |done].
  by destruct (Z.leb _ _).
Qed.

Lemma div_low_of_nat x n : F64.low x -> F64.low (x / F64.of_nat n)%f64.
Proof.
  intros [->| ->]; [|by right].
  pose proof (of_nat_sign n) as Hs.
  destruct (F64.of_nat n) as [s|s| |s m e]; cbn; unfold F64.low; subst; auto.
Qed.

(** Nothing but negative infinity is at most negative infinity, and
    negative infinity is at most everything but NaN. *)
Lemma leb_neg_inf_r x : F64.leb x F64.neg_inf = true -> x = F64.neg_inf.
Proof. by destruct x as [s|[]| |[] m e]. Qed.

Lemma leb_neg_inf_l x : F64.isnan x = false -> F64.leb F64.neg_inf x = true.
Proof. by destruct x as [s|[]| |[] m e]. Qed.

Lemma ltb_inf_l x : F64.ltb F64.inf x = false.
Proof. by destruct x as [s|[]| |[] m e]. Qed.

Lemma ltb_nan_l x : F64.ltb F64.nan x = false.
Proof. done. Qed.

Lemma fold_add_low (l : list float) (acc : float) :
  F64.low acc -> Forall (fun x => x = F64.neg_inf \/ x = F64.zero) l ->
  F64.low (fold_left F64.add l acc).
Proof.
  revert acc. induction l as [|x l IH]; intros acc Hacc Hl; [done|].
  apply Forall_cons in Hl as [Hx Hl]. simpl. apply IH; [|done].
  destruct Hx as [->| ->]; [apply add_neg_inf_r|by apply add_low_zero].
Qed.

(** Multiplying a well-formed float by [1.0] returns it. *)
Lemma mul_one_l (x : float) : F64.valid x = true -> (F64.one * x)%f64 = x.
Proof.
  destruct x as [s|s| |s m e]; try reflexivity.
  unfold F64.valid, valid_binary, bounded, canonical_mantissa.
  intros [Hc He]%andb_true_iff.
  apply Z.eqb_eq in Hc. apply Z.leb_le in He.
  unfold F64.mul, SFmul, F64.one. cbn [xorb].
  unfold binary_round_aux, shr_fexp.
  assert (Hm : (4503599627370496 * m = Pos.iter xO m 52)%positive)
    by reflexivity.
  assert (Hd : (Z.pos (digits2_pos (4503599627370496 * m))
                = Z.pos (digits2_pos m) + 52)%Z).
  { rewrite Hm. cbn [Pos.iter digits2_pos]. lia. }
  cbn [Zdigits2]. rewrite Hd.
  replace (Z.pos (digits2_pos m) + 52 + (-52 + e))%Z
    with (Z.pos (digits2_pos m) + e)%Z by lia.
  rewrite Hc.
  replace (e - (-52 + e))%Z with 52%Z by lia.
  rewrite Hm.
  assert (Hi : shr (shr_record_of_loc (Z.pos (Pos.iter xO m 52)) loc_Exact)
                 (-52 + e) 52
               = ({| shr_m := Z.pos m; shr_r := false; shr_s := false |},
                  (-52 + e + 52)%Z)) by reflexivity.
  rewrite Hi. cbn [shr_m loc_of_shr_record round_nearest_even Zdigits2].
  replace (-52 + e + 52)%Z with e by lia.
  rewrite Hc, Z.sub_diag. cbn [shr shr_record_of_loc shr_m].
  apply Z.leb_le in He. by rewrite He.
Qed.

End F64Facts.

Section Argmax.

Import F64Facts.

Lemma np_argmax_from_spec (a : list float) (i : nat) (mp : float)
  (best : nat) :
  F64.isnan mp = false ->
  let r := np_argmax_from a i mp best in
  (r = best /\ Forall (fun x => F64.leb x mp = true) a)
  \/ (i <= r /\ exists x, a !! (r - i) = Some x /\ x <> F64.neg_inf).
Proof.
  revert i mp best. induction a as [|x a IH]; intros i mp best Hmp; simpl.
  { left. by split. }
  destruct (F64.leb x mp) eqn:Hle.
  - destruct (IH (S i) mp best Hmp) as [[Hr Hall]|(Hr & y & Hy & Hne)].
    + left. split; [done|]. by constructor.
    + right. split; [lia|]. exists y. split; [|done].
      replace (np_argmax_from a (S i) mp best - i)
        with (S (np_argmax_from a (S i) mp best - S i)) by lia.
      done.
  - assert (Hx : x <> F64.neg_inf).
    { intros ->. by rewrite leb_neg_inf_l in Hle. }
    destruct (F64.isnan x) eqn:Hnan.
    + right. split; [done|]. exists x. by rewrite Nat.sub_diag.
    + destruct (IH (S i) x i Hnan) as [[Hr Hall]|(Hr & y & Hy & Hne)].
      * right. rewrite Hr. split; [done|]. exists x. by rewrite Nat.sub_diag.
      * right. split; [lia|]. exists y. split; [|done].
        replace (np_argmax_from a (S i) x i - i)
          with (S (np_argmax_from a (S i) x i - S i)) by lia.
        done.
Qed.

Lemma mask_weights_shape (a b c d e : float) (mid : list float) :
  mask_weights ([a; b; c] ++ mid ++ [d; e])
  = [F64.neg_inf; F64.neg_inf; F64.neg_inf] ++ mid
      ++ [F64.neg_inf; F64.neg_inf].
Proof.
  unfold mask_weights. rewrite !length_app. cbn [length app].
  cbn [insert list_insert].
  change (?x :: ?y :: ?z :: mid ++ [d; e])
    with ([x; y; z] ++ mid ++ [d; e]).
  rewrite !app_assoc.
  rewrite !insert_app_r_alt by (rewrite length_app; simpl; lia).
  rewrite !length_app. cbn [length].
  replace (3 + (length mid + 2) - 1 - (3 + length mid)) with 1 by lia.
  replace (3 + (length mid + 2) - 2 - (3 + length mid)) with 0 by lia.
  reflexivity.
Qed.

(** The index selected among masked weights is a candidate split, unless
    every candidate weighs negative infinity, when it is 0. *)
Lemma np_argmax_masked (a b c d e : float) (mid : list float) :
  exists r,
    np_argmax (mask_weights ([a; b; c] ++ mid ++ [d; e])) = inr r
    /\ ((r = 0 /\ Forall (fun x => x = F64.neg_inf) mid)
        \/ 3 <= r < 3 + length mid).
Proof.
  rewrite mask_weights_shape. cbn [app np_argmax F64.isnan F64.neg_inf].
  eexists. split; [reflexivity|].
  destruct (np_argmax_from_spec
              (F64.neg_inf :: F64.neg_inf :: mid
                 ++ [F64.neg_inf; F64.neg_inf]) 1 F64.neg_inf 0 eq_refl)
    as [[Hr Hall]|(Hr & y & Hy & Hne)].
  - left. split; [done|].
    apply Forall_cons in Hall as [_ Hall].
    apply Forall_cons in Hall as [_ Hall].
    apply Forall_app in Hall as [Hall _].
    eapply Forall_impl; [exact Hall|]. intros x. apply leb_neg_inf_r.
  - right. set (r := np_argmax_from _ _ _ _) in *.
    destruct (r - 1) as [|[|k]] eqn:Hk; simpl in Hy.
    + by inversion Hy.
    + by inversion Hy.
    + destruct (decide (k < length mid)) as [Hlt|Hge]; [lia|].
      rewrite lookup_app_r in Hy by lia.
      destruct (k - length mid) as [|[|j]]; simpl in Hy;
        [by inversion Hy|by inversion Hy|done].
Qed.

End Argmax.

Section ScorerOutcome.

Context {libm : Libm}.

Import F64Facts.

Lemma fold_add_low_exists (l : list float) (acc : float) :
  acc = F64.zero \/ F64.low acc ->
  Forall (fun x => x = F64.neg_inf \/ x = F64.zero) l ->
  Exists (fun x => x = F64.neg_inf) l ->
  F64.low (fold_left F64.add l acc).
Proof.
  revert acc. induction l as [|x l IH]; intros acc Hacc Hl Hex.
  { by apply Exists_nil in Hex. }
  apply Forall_cons in Hl as [Hx Hl]. simpl.
  destruct Hacc as [->|Hacc].
  - destruct Hx as [->| ->].
    + apply fold_add_low; [by left|done].
    + apply IH; [by left|done|].
      apply Exists_cons in Hex as [Hex|Hex]; [done|done].
  - apply fold_add_low; [|done].
    destruct Hx as [->| ->]; [apply add_neg_inf_r|by apply add_low_zero].
Qed.

(** When every candidate weighs negative infinity, so do the log odds,
    unless they are NaN. *)
Lemma log_odds_low (logGamma : nat -> float) (d : Distribution)
  (obs : list float) :
  6 <= length obs ->
  Forall (fun x => x = F64.neg_inf)
    (map (spec_w logGamma d obs) (range 3 (length obs - 2))) ->
  F64.low (spec_log_odds logGamma d obs).
Proof.
  intros Hn Hall. unfold spec_log_odds, spec_num.
  apply sub_low_l, add_low_r. unfold np_mean. apply div_low_of_nat.
  rewrite <- (weights_spec _ _ _ Hn).
  set (mid := map _ _) in *. cbn [app np_sum].
  apply fold_add_low_exists; [by left| |].
  - apply Forall_cons; split; [by right|].
    apply Forall_cons; split; [by right|].
    apply Forall_app; split.
    + eapply Forall_impl; [exact Hall|]. by left.
    + repeat constructor; by right.
  - do 2 apply Exists_cons_tl. apply Exists_app. left.
    assert (Hlen : length mid = length obs - 2 - 3).
    { unfold mid, range. by rewrite length_map, length_seq. }
    destruct mid as [|x mid']; [simpl in Hlen; lia|].
    apply Forall_cons in Hall as [-> _]. by left.
Qed.

(** The outcome of scoring a segment of at least 6 points, by cases on the
    log odds [lo] of the closed form. *)
Lemma bf_cases (self : Detector) (obs : list float) :
  6 <= length obs -> length obs < length (loggamma self) ->
  let n := length obs in
  let lo :=
    spec_log_odds (table_fun (loggamma self)) (_distribution self) obs in
  (F64.isnan lo = true /\ _normal_lognormal_bf self obs = inl ValueError)
  \/ (F64.isnan lo = false /\ F64.ltb lo (threshold self) = true
      /\ _normal_lognormal_bf self obs = inr None)
  \/ (F64.isnan lo = false /\ F64.ltb lo (threshold self) = false
      /\ exists i, _normal_lognormal_bf self obs = inr (Some (i, lo))
         /\ ((3 <= i <= n - 3)
             \/ (i = 0 /\ lo = F64.neg_inf
                 /\ F64.ltb F64.neg_inf (threshold self) = false))).
Proof.
  intros Hn Ht n lo. rewrite (bf_spec self obs Hn Ht). fold lo.
  unfold decision.
  destruct (F64.isnan lo) eqn:Hnan; [by left|]. right.
  destruct (F64.ltb lo (threshold self)) eqn:Hlt; [by left|]. right.
  split; [done|]. split; [done|].
  rewrite <- (weights_spec _ _ _ Hn).
  destruct (np_argmax_masked F64.zero F64.zero F64.zero F64.zero F64.zero
              (map (spec_w (table_fun (loggamma self))
                           (_distribution self) obs)
                   (range 3 (length obs - 2))))
    as (r & -> & Hr).
  exists r. split; [done|].
  destruct Hr as [[-> Hall]|Hr].
  - right. split; [done|].
    destruct (log_odds_low _ _ _ Hn Hall) as [Hlo|Hlo]; fold lo in Hlo.
    + split; [done|]. by rewrite <- Hlo.
    + by rewrite Hlo in Hnan.
  - left. unfold range in Hr. rewrite length_map, length_seq in Hr.
    unfold n. lia.
Qed.

(** A short segment is never split. *)
Lemma bf_short (self : Detector) (obs : list float) :
  length obs < 6 -> _normal_lognormal_bf self obs = inr None.
Proof.
  intros Hn. unfold _normal_lognormal_bf.
  by replace (length obs <? 6) with true by (symmetry; apply Nat.ltb_lt; lia).
Qed.

(** With a threshold above negative infinity, an accepted split is a
    candidate. *)
Lemma bf_accepted (self : Detector) (obs : list float) (i : nat)
  (lo : float) :
  length obs < length (loggamma self) ->
  F64.ltb F64.neg_inf (threshold self) = true ->
  _normal_lognormal_bf self obs = inr (Some (i, lo)) ->
  6 <= length obs /\ 3 <= i <= length obs - 3.
Proof.
  intros Ht Hthr Hres.
  destruct (decide (length obs < 6)) as [Hn|Hn].
  { by rewrite bf_short in Hres. }
  split; [lia|].
  destruct (bf_cases self obs ltac:(lia) Ht)
    as [[_ H]|[(_ & _ & H)|(_ & _ & j & H & Hj)]]; rewrite H in Hres;
    [done|done|].
  injection Hres as -> _.
  destruct Hj as [Hj|(_ & _ & Hj)]; [done|congruence].
Qed.

End ScorerOutcome.

(** ** The recursive segmenter *)

Section Split.

Context {libm : Libm}.

Lemma bf_same_config (a b : Detector) (obs : list float) :
  same_config a b -> _normal_lognormal_bf a obs = _normal_lognormal_bf b obs.
Proof.
  intros (Hd & Ht & Hthr). unfold _normal_lognormal_bf, split_weight.
  by rewrite Hd, Ht, Hthr.
Qed.

Lemma same_config_refl (a : Detector) : same_config a a.
Proof. by repeat split. Qed.

Lemma same_config_trans (a b c : Detector) :
  same_config a b -> same_config b c -> same_config a c.
Proof.
  intros (? & ? & ?) (? & ? & ?). repeat split; congruence.
Qed.

Lemma bf_table_short (self : Detector) (obs : list float) :
  6 <= length obs -> length (loggamma self) <= length obs ->
  _normal_lognormal_bf self obs = inl IndexError.
Proof.
  intros Hn Ht. unfold _normal_lognormal_bf.
  replace (length obs <? 6) with false by (symmetry; apply Nat.ltb_ge; lia).
  destruct (mean_var _ obs) as [mean var].
  unfold index. by rewrite (lookup_ge_None_2 _ _ Ht).
Qed.

(** An accepted split index is a candidate, or it is 0 with a threshold
    that is not above negative infinity. *)
Lemma bf_accepted_cases (self : Detector) (obs : list float) (i : nat)
  (lo : float) :
  _normal_lognormal_bf self obs = inr (Some (i, lo)) ->
  6 <= length obs
  /\ ((3 <= i <= length obs - 3)
      \/ (i = 0 /\ F64.ltb F64.neg_inf (threshold self) = false)).
Proof.
  intros Hres.
  destruct (decide (length obs < 6)) as [Hn|Hn].
  { by rewrite bf_short in Hres. }
  split; [lia|].
  destruct (decide (length obs < length (loggamma self))) as [Ht|Ht].
  2:{ rewrite bf_table_short in Hres by lia. done. }
  destruct (bf_cases self obs ltac:(lia) Ht)
    as [[_ H]|[(_ & _ & H)|(_ & _ & j & H & Hj)]]; rewrite H in Hres;
    [done|done|].
  injection Hres as -> _.
  destruct Hj as [Hj|(? & _ & ?)]; [by left|by right].
Qed.

Lemma length_slice_le {A} (a : list A) (lo hi : nat) :
  length (slice a lo hi) <= hi - lo
  /\ length (slice a lo hi) <= length a - lo.
Proof. unfold slice. rewrite length_take, length_drop. lia. Qed.

Lemma split_same_config (fuel : nat) (self self' : Detector)
  (obs : list float) (start end_ itraj : nat) :
  _split fuel self obs start end_ itraj = Some (inr self') ->
  same_config self self'.
Proof.
  revert self self' start end_.
  induction fuel as [|fuel IH]; intros self self' start end_; [done|].
  simpl. destruct (_normal_lognormal_bf self _) as [e|[[i lo]|]]; simpl;
    [done| |].
  - unfold get_change_points.
    destruct (change_points self !! traj_key itraj) as [frame|]; [|done].
    simpl.
    destruct (_split fuel _ obs start (start + i) itraj)
      as [[e|self1]|] eqn:H1; simpl; [done| |done].
    intros H2. apply IH in H1. apply IH in H2.
    eapply same_config_trans; [|exact H2].
    eapply same_config_trans; [|exact H1]. by repeat split.
  - intros [= ->]. apply same_config_refl.
Qed.

(** With a threshold above negative infinity, enough fuel always lets
    [_split] finish, normally or by raising. *)
Lemma split_total (w : nat) :
  forall (self : Detector) (obs : list float) (start end_ itraj : nat),
    end_ - start <= w ->
    F64.ltb F64.neg_inf (threshold self) = true ->
    exists r, forall fuel,
      w < fuel -> _split fuel self obs start end_ itraj = Some r.
Proof.
  induction w as [w IH] using lt_wf_ind.
  intros self obs start end_ itraj Hw Hthr.
  destruct (_normal_lognormal_bf self (slice obs start end_))
    as [e|[[i lo]|]] eqn:Hbf.
  - exists (inl e). intros [|fuel] Hf; [lia|]. simpl. by rewrite Hbf.
  - destruct (bf_accepted_cases _ _ _ _ Hbf) as [Hn [Hi|[_ Hi]]];
      [|congruence].
    pose proof (length_slice_le obs start end_) as [Hlen _].
    destruct (get_change_points self (traj_key itraj)) as [e|frame] eqn:Hcp.
    { exists (inl e). intros [|fuel] Hf; [lia|]. simpl.
      rewrite Hbf. simpl. by rewrite Hcp. }
    set (self0 := set_change_points self (traj_key itraj)
                    (frame ++ [{| ts := start + i; log_odds := lo;
                                  start_end := (start, end_) |}])).
    destruct (IH (w - 1) ltac:(lia) self0 obs start (start + i) itraj
                ltac:(lia) Hthr) as [r1 Hr1].
    destruct r1 as [e|self1].
    + exists (inl e). intros [|fuel] Hf; [lia|]. simpl.
      rewrite Hbf. simpl. rewrite Hcp. simpl. fold self0.
      by rewrite Hr1 by lia.
    + assert (Hthr1 : F64.ltb F64.neg_inf (threshold self1) = true).
      { pose proof (Hr1 w ltac:(lia)) as H1.
        apply split_same_config in H1 as (_ & _ & <-). exact Hthr. }
      destruct (IH (w - 1) ltac:(lia) self1 obs (start + i) end_ itraj
                  ltac:(lia) Hthr1) as [r2 Hr2].
      exists r2. intros [|fuel] Hf; [lia|]. simpl.
      rewrite Hbf. simpl. rewrite Hcp. simpl. fold self0.
      rewrite Hr1 by lia. simpl. apply Hr2. lia.
  - exists (inr self). intros [|fuel] Hf; [lia|]. simpl. by rewrite Hbf.
Qed.

End Split.

Section SplitRowsFacts.

Context {libm : Libm}.

Lemma set_change_points_id (self : Detector) (key : string)
  (frame : list cp_row) :
  change_points self !! key = Some frame ->
  set_change_points self key frame = self.
Proof.
  intros H. destruct self. unfold set_change_points. simpl in *.
  by rewrite insert_id.
Qed.

Lemma set_change_points_twice (self : Detector) (key : string)
  (f1 f2 : list cp_row) :
  set_change_points (set_change_points self key f1) key f2
  = set_change_points self key f2.
Proof. unfold set_change_points. simpl. by rewrite insert_insert_eq. Qed.

Lemma split_rows_same_config (fuel : nat) (a b : Detector)
  (obs : list float) (start end_ : nat) :
  same_config a b ->
  split_rows fuel a obs start end_ = split_rows fuel b obs start end_.
Proof.
  intros Hab. revert start end_.
  induction fuel as [|fuel IH]; intros start end_; [done|].
  simpl. rewrite (bf_same_config a b _ Hab).
  destruct (_normal_lognormal_bf b _) as [e|[[i lo]|]]; simpl; [done| |done].
  by rewrite !IH.
Qed.

(** [_split] appends the rows of [split_rows] to the frame of its
    trajectory and changes nothing else. *)
Lemma split_rows_spec (fuel : nat) :
  forall (self : Detector) (obs : list float) (start end_ itraj : nat)
    (frame : list cp_row),
    change_points self !! traj_key itraj = Some frame ->
    _split fuel self obs start end_ itraj
    = (rows ← split_rows fuel self obs start end_;
       mret (set_change_points self (traj_key itraj) (frame ++ rows))).
Proof.
  induction fuel as [|fuel IH]; intros self obs start end_ itraj frame Hf;
    [done|].
  simpl.
  destruct (_normal_lognormal_bf self _) as [e|[[i lo]|]]; simpl; [done| |].
  - unfold get_change_points. rewrite Hf. simpl.
    set (row := {| ts := start + i; log_odds := lo;
                   start_end := (start, end_) |}).
    set (self0 := set_change_points self (traj_key itraj) (frame ++ [row])).
    assert (H0 : change_points self0 !! traj_key itraj
                 = Some (frame ++ [row])).
    { unfold self0, set_change_points. simpl. apply lookup_insert_eq. }
    assert (Hc : same_config self0 self) by (by repeat split).
    rewrite (IH self0 obs start (start + i) itraj _ H0).
    rewrite (split_rows_same_config fuel self0 self _ _ _ Hc).
    destruct (split_rows fuel self obs start (start + i))
      as [[e|left]|]; simpl; [done| |done].
    set (self1 := set_change_points self0 _ _).
    assert (H1 : change_points self1 !! traj_key itraj
                 = Some ((frame ++ [row]) ++ left)).
    { unfold self1, set_change_points. simpl. apply lookup_insert_eq. }
    assert (Hc1 : same_config self1 self) by (by repeat split).
    rewrite (IH self1 obs (start + i) end_ itraj _ H1).
    rewrite (split_rows_same_config fuel self1 self _ _ _ Hc1).
    destruct (split_rows fuel self obs (start + i) end_)
      as [[e|right]|]; simpl; [done| |done].
    unfold self1, self0. rewrite !set_change_points_twice.
    by rewrite <- !app_assoc.
  - by rewrite app_nil_r, set_change_points_id.
Qed.

(** An accepted split at relative index 0 makes [_split] call itself on
    the same window for ever. *)
Lemma split_rows_stuck (self : Detector) (obs : list float)
  (start end_ : nat) (lo : float) (fuel : nat) :
  _normal_lognormal_bf self (slice obs start end_) = inr (Some (0, lo)) ->
  split_rows fuel self obs start end_ = None.
Proof.
  intros Hbf. induction fuel as [|fuel IH]; [done|].
  simpl. rewrite Hbf. simpl. rewrite Nat.add_0_r.
  destruct (split_rows fuel self obs start start) as [[e|left]|] eqn:Hl;
    simpl; [|by rewrite IH|done].
  destruct fuel as [|fuel]; [done|]. simpl in Hl.
  rewrite bf_short in Hl; [done|].
  unfold slice. rewrite length_take. lia.
Qed.

(** The change points of a window lie at least three positions inside it
    and are pairwise distinct. *)
Lemma split_rows_ok (fuel : nat) :
  forall (self : Detector) (obs : list float) (start end_ : nat)
    (rows : list cp_row),
    split_rows fuel self obs start end_ = Some (inr rows) ->
    Forall (fun r => start + 3 <= ts r /\ ts r + 3 <= end_
                     /\ ts r + 3 <= length obs) rows
    /\ NoDup (map ts rows).
Proof.
  induction fuel as [|fuel IH]; intros self obs start end_ rows; [done|].
  simpl.
  destruct (_normal_lognormal_bf self _) as [e|[[i lo]|]] eqn:Hbf; simpl;
    [done| |].
  2:{ intros [= <-]. split; constructor. }
  destruct (bf_accepted_cases _ _ _ _ Hbf) as [Hn [Hi|[-> _]]].
  2:{ rewrite Nat.add_0_r.
      destruct (split_rows fuel self obs start start) as [[e|left]|];
        simpl; [done| |done].
      by rewrite (split_rows_stuck _ _ _ _ lo fuel). }
  pose proof (length_slice_le obs start end_) as [Hlen1 Hlen2].
  destruct (split_rows fuel self obs start (start + i))
    as [[e|left]|] eqn:Hl; simpl; [done| |done].
  destruct (split_rows fuel self obs (start + i) end_)
    as [[e|right]|] eqn:Hr; simpl; [done| |done].
  intros [= <-].
  apply IH in Hl as [Hlb Hld]. apply IH in Hr as [Hrb Hrd].
  rewrite Forall_forall in Hlb, Hrb.
  split.
  - apply Forall_cons; split; [simpl; lia|].
    apply Forall_app; split; apply Forall_forall; intros r Hr.
    + specialize (Hlb r Hr). lia.
    + specialize (Hrb r Hr). lia.
  - cbn [map ts]. rewrite map_app. apply NoDup_cons; split.
    + rewrite elem_of_app, !list_elem_of_fmap.
      intros [(r & Ht & Hr)|(r & Ht & Hr)].
      * specialize (Hlb r Hr). lia.
      * specialize (Hrb r Hr). lia.
    + apply NoDup_app; split; [done|]. split; [|done].
      intros t (r & -> & Hr)%list_elem_of_fmap
        (r' & Ht & Hr')%list_elem_of_fmap.
      specialize (Hlb r Hr). specialize (Hrb r' Hr'). lia.
Qed.

End SplitRowsFacts.

(** ** The step-function reconstruction *)

Section ReconstructionFacts.

Context {libm : Libm} {pandas : Pandas}.

Lemma gsf_spec (self : Detector) (obs : list float) (itraj : nat)
  (frame : list cp_row) :
  change_points self !! traj_key itraj = Some frame ->
  _generate_step_function self obs itraj
  = (r ← reconstruct self obs itraj frame; mret (store self itraj r)).
Proof.
  intros Hf. unfold _generate_step_function, reconstruct, get_change_points.
  cbn [change_points set_state_emission]. rewrite Hf. cbn.
  unfold observation_lengths. cbn [_Ts set_state_emission].
  destruct (index (_Ts self) itraj) as [e|length_].
  { destruct frame; cbn; [done|]. by destruct (mean_var _ _). }
  destruct frame as [|row frame].
  - cbn. destruct (length_ =? 0); [done|]. cbn.
    destruct (mean_var (_distribution self) obs) as [mean var]. cbn.
    destruct self. unfold mret, raises_ret, set_step_function,
      set_state_emission, set_change_points. cbn in *.
    rewrite !insert_insert_eq. by rewrite (insert_id _ _ _ Hf).
  - cbn [length map Nat.eqb]. cbn.
    destruct (mean_var _ (slice obs 0 _)) as [mean var]. cbn.
    destruct self. unfold mret, raises_ret, set_step_function,
      set_state_emission, set_change_points. cbn.
    by rewrite !insert_insert_eq.
Qed.


Lemma partition_stat_row (d : Distribution) (obs : list float)
  (p : nat * nat) : partition (stat_row d obs p) = p.
Proof. done. Qed.

Lemma partition_loop_spec (d : Distribution) (obs : list float)
  (ts_last : nat) (rest : list nat) :
  forall (P : list (nat * nat)) (M S : list float),
    rest = [] \/ last rest = Some ts_last ->
    partition_loop d obs (length obs) ts_last rest (P, M, S)
    = (P ++ partitions_after (length obs - 1) rest,
       M ++ map (fun p => sample_mu (stat_row d obs p))
              (partitions_after (length obs - 1) rest),
       S ++ map (fun p => sample_sigma (stat_row d obs p))
              (partitions_after (length obs - 1) rest)).
Proof.
  induction rest as [|j rest IH]; intros P M S Hlast.
  { simpl. by rewrite !app_nil_r. }
  destruct Hlast as [|Hlast]; [done|].
  cbn [partition_loop partitions_after map].
  destruct rest as [|next rest'].
  - injection Hlast as ->. cbn [stat_row sample_mu sample_sigma fst snd].
    destruct (mean_var d (slice obs (ts_last + 1) (length obs - 1)))
      as [mean var]. cbn [fst snd].
    rewrite IH by (by left). cbn [partitions_after map].
    by rewrite <- !app_assoc.
  - cbn [stat_row sample_mu sample_sigma fst snd].
    destruct (mean_var d (slice obs (j + 1) next)) as [mean var].
    cbn [fst snd].
    rewrite IH by (right; exact Hlast).
    by rewrite <- !app_assoc.
Qed.

Lemma se_frame_columns (rows : list se_row) :
  se_frame (map partition rows, map sample_mu rows, map sample_sigma rows)
  = rows.
Proof.
  unfold se_frame. induction rows as [|[p m s] rows IH]; [done|].
  cbn. f_equal. exact IH.
Qed.

Lemma np_sort_nonempty (l : list nat) : l <> [] -> np_sort l <> [].
Proof.
  intros Hl Hs. apply Hl. apply Permutation_nil_r.
  rewrite <- Hs. unfold np_sort. by rewrite merge_sort_Permutation.
Qed.

(** With change points, the State-Emission rows are the statistics of
    the slices [obs[a:b]] of the partitions [(a, b)]. *)
Lemma reconstruct_nonempty (self : Detector) (obs : list float)
  (itraj : nat) (frame : list cp_row) :
  frame <> [] ->
  index (observation_lengths self) itraj = inr (length obs) ->
  let rows :=
    map (stat_row (_distribution self) obs)
      (partitions_of (length obs) (np_sort (map ts frame))) in
  reconstruct self obs itraj frame
  = inr (sort_ts_column frame, rows,
         write_rows (np_ones (length obs)) rows).
Proof.
  intros Hne Hlen rows. unfold reconstruct. rewrite Hlen.
  unfold mbind, raises_bind. cbv beta iota.
  destruct frame as [|row frame]; [done|].
  assert (Hs : np_sort (map ts (row :: frame)) <> []).
  { by apply np_sort_nonempty. }
  subst rows. set (tss := np_sort (map ts (row :: frame))) in *.
  destruct tss as [|t0 tss'] eqn:Htss; [done|].
  cbn [head default from_option partitions_of]. unfold id.
  destruct (mean_var (_distribution self) (slice obs 0 t0))
    as [mean var] eqn:Hmv.
  assert (Hlast : is_Some (last (t0 :: tss'))).
  { destruct (last (t0 :: tss')) eqn:Hl; [by eexists|].
    by apply last_None in Hl. }
  destruct Hlast as [tl Hlast]. rewrite Hlast.
  cbn [default from_option]. unfold id.
  rewrite partition_loop_spec by (by right).
  set (parts := partitions_after (length obs - 1) (t0 :: tss')).
  assert (Hrows :
    se_frame ([(0, t0)] ++ parts,
              [mean] ++ map (fun p => sample_mu (stat_row (_distribution self) obs p)) parts,
              [var] ++ map (fun p => sample_sigma (stat_row (_distribution self) obs p)) parts)
    = map (stat_row (_distribution self) obs) ((0, t0) :: parts)).
  { rewrite <- (se_frame_columns (map _ ((0, t0) :: parts))).
    rewrite !map_map. cbn [map app stat_row partition sample_mu sample_sigma fst snd].
    rewrite Hmv. cbn [fst snd]. rewrite map_id. reflexivity. }
  by rewrite Hrows.
Qed.

End ReconstructionFacts.

Section Partitions.

Lemma chain_le (parts : list (nat * nat)) (lo stop : nat) :
  chain lo parts stop -> lo <= stop.
Proof.
  revert lo. induction parts as [|[a b] parts IH]; intros lo; simpl.
  - lia.
  - intros (-> & Hab & Hc). apply IH in Hc. lia.
Qed.

Lemma chain_bounds (parts : list (nat * nat)) (lo stop : nat) :
  chain lo parts stop ->
  Forall (fun p => lo <= p.1 /\ p.1 <= p.2 /\ p.2 < stop) parts.
Proof.
  revert lo. induction parts as [|[a b] parts IH]; intros lo; simpl.
  - constructor.
  - intros (-> & Hab & Hc). pose proof (chain_le _ _ _ Hc).
    constructor; [simpl; lia|].
    eapply Forall_impl; [exact (IH _ Hc)|]. simpl. intros p. lia.
Qed.

Lemma chain_covers (parts : list (nat * nat)) (lo stop : nat) :
  chain lo parts stop ->
  forall i,
    count_containing i parts = if decide (lo <= i < stop) then 1 else 0.
Proof.
  unfold count_containing.
  revert lo. induction parts as [|[a b] parts IH]; intros lo; simpl.
  - intros -> i. destruct (decide _); [lia|done].
  - intros (-> & Hab & Hc) i. pose proof (chain_le _ _ _ Hc) as Hle.
    rewrite filter_cons. cbn [fst snd].
    specialize (IH _ Hc i).
    destruct (decide (lo <= i <= b)) as [Hin|Hout]; cbn [length];
      rewrite IH; repeat destruct (decide _); lia.
Qed.

Lemma chain_partitions_after (hi : nat) (rest : list nat) :
  forall j,
    StronglySorted lt (j :: rest) ->
    Forall (fun t => t + 2 <= hi) (j :: rest) ->
    chain (j + 1) (partitions_after hi (j :: rest)) (hi + 1).
Proof.
  induction rest as [|next rest IH]; intros j Hs Hb.
  - apply Forall_cons in Hb as [Hj _]. simpl. lia.
  - apply StronglySorted_inv in Hs as [Hs Hj].
    apply Forall_cons in Hb as [_ Hb].
    apply Forall_cons in Hj as [Hj _].
    cbn [partitions_after chain]. split; [done|]. split; [lia|].
    apply IH; done.
Qed.

(** The partitions of sorted, distinct change points that leave three
    positions at the end of the trajectory follow one another from 0 to
    the end of the trajectory. *)
Lemma chain_partitions_of (len : nat) (tss : list nat) :
  tss <> [] ->
  StronglySorted lt tss ->
  Forall (fun t => t + 3 <= len) tss ->
  chain 0 (partitions_of len tss) len.
Proof.
  intros Hne Hs Hb. destruct tss as [|t0 tss]; [done|].
  unfold partitions_of. cbn [chain]. split; [done|]. split; [lia|].
  assert (Hlen : 3 <= len).
  { apply Forall_cons in Hb as [H _]. lia. }
  replace len with (len - 1 + 1) at 2 by lia.
  apply chain_partitions_after; [done|].
  eapply Forall_impl; [exact Hb|]. simpl. lia.
Qed.

Lemma np_sort_strict (l : list nat) :
  NoDup l -> StronglySorted lt (np_sort l).
Proof.
  intros Hnd. unfold np_sort.
  assert (Hs : StronglySorted le (merge_sort le l)).
  { apply StronglySorted_merge_sort; apply _. }
  assert (Hnd' : NoDup (merge_sort le l)).
  { by rewrite merge_sort_Permutation. }
  induction Hs as [|x l' Hs IH Hx]; [constructor|].
  apply NoDup_cons in Hnd' as [Hx' Hnd']. constructor; [by apply IH|].
  rewrite Forall_forall in Hx |- *. intros y Hy.
  specialize (Hx y Hy). assert (x <> y) by (by intros ->). lia.
Qed.

Lemma np_sort_Forall (P : nat -> Prop) (l : list nat) :
  Forall P l -> Forall P (np_sort l).
Proof. unfold np_sort. by rewrite merge_sort_Permutation. Qed.

End Partitions.

Section StepFunction.

Context {libm : Libm}.

Lemma imap_same {A} (f : nat -> A -> A) (l : list A) :
  (forall i x, l !! i = Some x -> f i x = x) -> imap f l = l.
Proof.
  intros Hf. rewrite (imap_ext f (const id) l Hf).
  rewrite imap_const. apply list_fmap_id.
Qed.

Lemma assign_slice_tail {A} (rest : list A) (c : nat) (v : A) :
  imap (fun i x => if i <? c then v else x) rest
  = replicate (c `min` length rest) v ++ drop c rest.
Proof.
  revert c. induction rest as [|x rest IH]; intros c.
  - by rewrite Nat.min_0_r, drop_nil.
  - rewrite imap_cons. destruct c as [|c].
    + cbn [Nat.min replicate app drop]. f_equal.
      by apply imap_same.
    + cbn [length Nat.min replicate drop app].
      change (0 <? S c) with true. cbv iota. f_equal.
      rewrite <- IH. apply imap_ext. intros i y _. reflexivity.
Qed.

Lemma assign_slice_app {A} (done rest : list A) (hi : nat) (v : A) :
  assign_slice (done ++ rest) (length done) hi v
  = done ++ replicate ((hi - length done) `min` length rest) v
      ++ drop (hi - length done) rest.
Proof.
  unfold assign_slice. rewrite imap_app. f_equal.
  - apply imap_same. intros i x Hi%lookup_lt_Some.
    replace (length done <=? i) with false
      by (symmetry; apply Nat.leb_gt; lia).
    done.
  - rewrite <- assign_slice_tail. apply imap_ext. intros i x _. simpl.
    replace (length done <=? length done + i) with true
      by (symmetry; apply Nat.leb_le; lia).
    cbn [andb].
    destruct (Nat.ltb_spec (length done + i) hi),
             (Nat.ltb_spec i (hi - length done)); (done || lia).
Qed.

(** Over partitions that follow one another to the end of the array, the
    loop writes the blocks of the rows one after the other: nothing of
    the initial array is left. *)
Lemma write_rows_chain (rows : list se_row) :
  forall (done rest : list float),
    chain (length done) (map partition rows) (length done + length rest) ->
    write_rows (done ++ rest) rows = done ++ flat_map block rows.
Proof.
  unfold write_rows.
  induction rows as [|row rows IH]; intros done rest Hc.
  - simpl in *. assert (length rest = 0) as ->%nil_length_inv by lia.
    reflexivity.
  - cbn [map chain] in Hc. destruct (partition row) as [a b] eqn:Hp.
    destruct Hc as (-> & Hab & Hc).
    pose proof (chain_le _ _ _ Hc) as Hle.
    cbn [fold_left flat_map]. rewrite Hp. cbn [fst snd].
    rewrite assign_slice_app, app_assoc.
    rewrite Nat.min_l by lia.
    rewrite IH.
    + rewrite <- app_assoc. unfold block at 2. by rewrite Hp.
    + rewrite !length_app, length_replicate, length_drop.
      replace (length done + (b + 1 - length done)) with (b + 1) by lia.
      replace (b + 1 + (length rest - (b + 1 - length done)))
        with (length done + length rest) by lia.
      exact Hc.
Qed.

Lemma length_write_rows (sf : list float) (rows : list se_row) :
  length (write_rows sf rows) = length sf.
Proof.
  unfold write_rows. revert sf.
  induction rows as [|row rows IH]; intros sf; [done|].
  simpl. rewrite IH. unfold assign_slice. by rewrite length_imap.
Qed.

(** In the concatenation of the blocks, every index of a partition holds
    the exponential of the mean recorded for the partition. *)
Lemma blocks_lookup (rows : list se_row) :
  forall (lo stop : nat) (row : se_row) (i : nat),
    chain lo (map partition rows) stop ->
    row ∈ rows ->
    (partition row).1 <= i <= (partition row).2 ->
    flat_map block rows !! (i - lo) = Some (np_exp (sample_mu row)).
Proof.
  induction rows as [|r rows IH]; intros lo stop row i Hc Hin Hi.
  { by apply elem_of_nil in Hin. }
  cbn [map chain] in Hc. destruct (partition r) as [a b] eqn:Hp.
  destruct Hc as (-> & Hab & Hc). cbn [flat_map].
  assert (Hlen : length (block r) = b + 1 - lo).
  { unfold block. by rewrite length_replicate, Hp. }
  apply elem_of_cons in Hin as [->|Hin].
  - rewrite Hp in Hi. cbn [fst snd] in Hi.
    rewrite lookup_app_l by lia.
    unfold block. rewrite Hp. cbn [fst snd].
    apply lookup_replicate_2. lia.
  - pose proof (chain_bounds _ _ _ Hc) as Hb.
    rewrite Forall_forall in Hb.
    specialize (Hb (partition row)
                  ltac:(apply list_elem_of_fmap; by exists row)).
    rewrite lookup_app_r by lia. rewrite Hlen.
    replace (i - lo - (b + 1 - lo)) with (i - (b + 1)) by lia.
    by apply (IH (b + 1) stop).
Qed.

End StepFunction.

(** ** The driver *)

Section Driver.

Context {libm : Libm} {pandas : Pandas}.

Lemma traj_key_inj (j k : nat) : traj_key j = traj_key k -> j = k.
Proof.
  unfold traj_key. intros H. apply (inj (String.append "traj_")) in H.
  by apply (inj pretty) in H.
Qed.

Lemma store_same_config (self : Detector) (k : nat)
  (r : list cp_row * list se_row * list float) :
  same_config self (store self k r) /\ same_input self (store self k r).
Proof. destruct r as [[cp se] sf]. by repeat split. Qed.

Lemma results_at_store (self : Detector) (k : nat)
  (cp : list cp_row) (se : list se_row) (sf : list float) :
  results_at (store self k (cp, se, sf)) (traj_key k)
  = (Some cp, Some se, Some sf).
Proof.
  unfold results_at, store. cbn. by rewrite !lookup_insert_eq.
Qed.

Lemma results_at_store_ne (self : Detector) (k : nat)
  (r : list cp_row * list se_row * list float) (key : string) :
  key <> traj_key k ->
  results_at (store self k r) key = results_at self key.
Proof.
  intros Hne. destruct r as [[cp se] sf].
  unfold results_at, store. cbn. by rewrite !lookup_insert_ne.
Qed.

Lemma store_id (self : Detector) (k : nat)
  (cp : list cp_row) (se : list se_row) (sf : list float) :
  results_at self (traj_key k) = (Some cp, Some se, Some sf) ->
  store self k (cp, se, sf) = self.
Proof.
  unfold results_at, store. intros [= H1 H2 H3]. destruct self.
  unfold set_step_function, set_state_emission, set_change_points.
  cbn in *. by rewrite !insert_id.
Qed.

Lemma trajectory_result_ext (fuel : nat) (a b : Detector) (k : nat) :
  same_config a b -> same_input a b ->
  trajectory_result fuel a k = trajectory_result fuel b k.
Proof.
  intros Hc (Ho & _ & HT & _). unfold trajectory_result.
  destruct Hc as (Hd & Hl & Ht). unfold observation_lengths.
  rewrite Ho, HT.
  destruct (index (_observations b) k) as [e|obs]; [done|]. cbn.
  destruct (index (_Ts b) k) as [e|len]; [done|]. cbn.
  rewrite (split_rows_same_config fuel a b) by (by repeat split).
  destruct (split_rows fuel b obs 0 len) as [[e|rows]|]; [done| |done].
  cbn. unfold reconstruct, observation_lengths. by rewrite HT, Hd.
Qed.

(** One round of the loop of [detect_cp] stores the result of its
    trajectory. *)
Lemma detect_cp_loop_step (fuel : nat) (k : nat) (ks : list nat)
  (self : Detector) :
  detect_cp_loop fuel (k :: ks) self
  = (r ← trajectory_result fuel self k;
     detect_cp_loop fuel ks (store self k r)).
Proof.
  cbn [detect_cp_loop]. unfold trajectory_result.
  set (self0 := set_change_points self (traj_key k) []).
  change (_observations self0) with (_observations self).
  change (observation_lengths self0) with (observation_lengths self).
  destruct (index (_observations self) k) as [e|obs]; [done|]. cbn.
  destruct (index (observation_lengths self) k) as [e|len]; [done|]. cbn.
  assert (H0 : change_points self0 !! traj_key k = Some []).
  { unfold self0, set_change_points. cbn. apply lookup_insert_eq. }
  rewrite (split_rows_spec fuel self0 obs 0 len k [] H0).
  rewrite (split_rows_same_config fuel self0 self)
    by (by repeat split).
  destruct (split_rows fuel self obs 0 len) as [[e|rows]|]; [done| |done].
  cbn. unfold self0. rewrite set_change_points_twice.
  set (self1 := set_change_points self (traj_key k) rows).
  assert (H1 : change_points self1 !! traj_key k = Some rows).
  { unfold self1, set_change_points. cbn. apply lookup_insert_eq. }
  rewrite (gsf_spec self1 obs k rows H1).
  change (reconstruct self1 obs k rows) with (reconstruct self obs k rows).
  destruct (reconstruct self obs k rows) as [e|[[cp se] sf]]; [done|].
  cbn. unfold self1. unfold store. by rewrite set_change_points_twice.
Qed.

(** The detector after the loop: unchanged attributes, the result of every
    processed trajectory under its key, and the other keys untouched. *)
Lemma detect_cp_loop_spec (fuel : nat) (ks : list nat) :
  forall (self self' : Detector),
    NoDup ks ->
    detect_cp_loop fuel ks self = Some (inr self') ->
    same_config self self' /\ same_input self self'
    /\ (forall k, k ∈ ks ->
          exists cp se sf,
            trajectory_result fuel self k = Some (inr (cp, se, sf))
            /\ results_at self' (traj_key k) = (Some cp, Some se, Some sf))
    /\ (forall key, (forall k, k ∈ ks -> key <> traj_key k) ->
          results_at self' key = results_at self key).
Proof.
  induction ks as [|k ks IH]; intros self self' Hnd Hrun.
  { injection Hrun as <-. repeat split; try done.
    intros k Hk. by apply elem_of_nil in Hk. }
  rewrite detect_cp_loop_step in Hrun.
  destruct (trajectory_result fuel self k) as [[e|r]|] eqn:Hr; [done| |done].
  cbn in Hrun. apply NoDup_cons in Hnd as [Hk Hnd].
  destruct (IH _ _ Hnd Hrun) as ((Hd & Hl & Ht) & (Ho & Hn & HT & Hs)
                                  & Hres & Hother).
  destruct (store_same_config self k r)
    as [(Hd0 & Hl0 & Ht0) (Ho0 & Hn0 & HT0 & Hs0)].
  split; [repeat split; congruence|].
  split; [repeat split; congruence|].
  split.
  - intros j [->|Hj]%elem_of_cons.
    + destruct r as [[cp se] sf]. exists cp, se, sf. split; [done|].
      rewrite Hother.
      * apply results_at_store.
      * intros j Hj ->%traj_key_inj. done.
    + destruct (Hres j Hj) as (cp & se & sf & Htr & Hat).
      exists cp, se, sf. split; [|done].
      rewrite <- Htr. apply trajectory_result_ext; by repeat split.
  - intros key Hkey. rewrite Hother.
    + apply results_at_store_ne. apply Hkey. by left.
    + intros j Hj. apply Hkey. by right.
Qed.

(** Running the loop on a detector that already holds the results leaves
    it as it is. *)
Lemma detect_cp_loop_fixed (fuel : nat) (ks : list nat) (self : Detector) :
  (forall k, k ∈ ks ->
     exists cp se sf,
       trajectory_result fuel self k = Some (inr (cp, se, sf))
       /\ results_at self (traj_key k) = (Some cp, Some se, Some sf)) ->
  detect_cp_loop fuel ks self = Some (inr self).
Proof.
  induction ks as [|k ks IH]; intros Hres; [done|].
  rewrite detect_cp_loop_step.
  destruct (Hres k ltac:(by left)) as (cp & se & sf & Htr & Hat).
  rewrite Htr.
  change (detect_cp_loop fuel ks (store self k (cp, se, sf))
          = Some (inr self)).
  rewrite (store_id _ _ _ _ _ Hat).
  apply IH. intros j Hj. apply Hres. by right.
Qed.


Lemma length_sort_ts_column (frame : list cp_row) :
  length (sort_ts_column frame) = length frame.
Proof.
  unfold sort_ts_column. destruct values_is_view; [|done].
  rewrite length_zip_with. unfold np_sort.
  rewrite merge_sort_Permutation, length_map. lia.
Qed.

Lemma sort_ts_column_nil (frame : list cp_row) :
  sort_ts_column frame = [] <-> frame = [].
Proof.
  rewrite <- !length_zero_iff_nil. by rewrite length_sort_ts_column.
Qed.

(** Sorting the stored column in place or not, the sorted change points
    are the same. *)
Lemma np_sort_sort_ts_column (frame : list cp_row) :
  np_sort (map ts (sort_ts_column frame)) = np_sort (map ts frame).
Proof.
  unfold sort_ts_column. destruct values_is_view; [|done].
  assert (Hlen : length (np_sort (map ts frame)) = length frame).
  { unfold np_sort. by rewrite merge_sort_Permutation, length_map. }
  assert (Hmap : map ts (zip_with
                   (fun row t => {| ts := t; log_odds := log_odds row;
                                    start_end := start_end row |})
                   frame (np_sort (map ts frame)))
                 = np_sort (map ts frame)).
  { revert Hlen. generalize (np_sort (map ts frame)). clear.
    induction frame as [|r frame IH]; intros [|t l] Hlen; try done.
    cbn. f_equal. apply IH. by injection Hlen. }
  rewrite Hmap. unfold np_sort at 1.
  apply (Sorted_unique le).
  - apply Sorted_merge_sort. apply _.
  - apply Sorted_merge_sort. apply _.
  - apply merge_sort_Permutation.
Qed.

(** What [detect_cp] leaves for the trajectory [k] of a well-formed
    detector. *)
Lemma detect_cp_trajectory (fuel : nat) (self self' : Detector) (k : nat)
  (obs : list float) :
  well_formed self ->
  detect_cp fuel self = Some (inr self') ->
  _observations self !! k = Some obs ->
  exists rows cp se sf,
    split_rows fuel self obs 0 (length obs) = Some (inr rows)
    /\ index (observation_lengths self) k = inr (length obs)
    /\ reconstruct self obs k rows = inr (cp, se, sf)
    /\ results_at self' (traj_key k) = (Some cp, Some se, Some sf).
Proof.
  intros [Hn HT] Hrun Hobs. unfold detect_cp in Hrun.
  apply detect_cp_loop_spec in Hrun as (_ & _ & Hres & _);
    [|apply NoDup_seq].
  destruct (Hres k) as (cp & se & sf & Htr & Hat).
  { unfold range. apply list_elem_of_In, in_seq.
    apply lookup_lt_Some in Hobs. lia. }
  unfold trajectory_result, index, observation_lengths in Htr.
  rewrite Hobs, HT, list_lookup_fmap, Hobs in Htr. cbn in Htr.
  destruct (split_rows fuel self obs 0 (length obs))
    as [[e|rows]|] eqn:Hsp; [done| |done].
  exists rows, cp, se, sf. split; [done|]. split.
  { unfold index, observation_lengths.
    by rewrite HT, list_lookup_fmap, Hobs. }
  split; [|done]. cbn in Htr. by injection Htr.
Qed.

(** Without change points: no State-Emission row, and a step function one
    shorter than the trajectory. *)
Lemma detect_cp_unsplit (fuel : nat) (self self' : Detector) (k : nat)
  (obs : list float) :
  well_formed self ->
  detect_cp fuel self = Some (inr self') ->
  _observations self !! k = Some obs ->
  change_points self' !! traj_key k = Some [] ->
  1 <= length obs
  /\ state_emission self' !! traj_key k = Some []
  /\ step_function self' !! traj_key k
     = Some (map (fun x =>
                    (x * np_exp (mean_var (_distribution self) obs).1)%f64)
               (np_ones (length obs - 1))).
Proof.
  intros Hwf Hrun Hobs Hcp.
  destruct (detect_cp_trajectory _ _ _ _ _ Hwf Hrun Hobs)
    as (rows & cp & se & sf & Hsp & Hlen & Hrec & Hat).
  unfold results_at in Hat. injection Hat as Hcp' Hse Hsf.
  rewrite Hcp in Hcp'. injection Hcp' as <-.
  unfold reconstruct in Hrec. rewrite Hlen in Hrec. cbn in Hrec.
  destruct rows as [|row rows].
  - destruct (length obs =? 0) eqn:H0; [done|].
    apply Nat.eqb_neq in H0. injection Hrec as <- <-.
    split; [lia|]. by split.
  - destruct (mean_var _ _) in Hrec. unfold mret, raises_ret in Hrec.
    injection Hrec as Hnil _ _.
    by apply (proj1 (sort_ts_column_nil _)) in Hnil.
Qed.

(** With change points: the partitions follow one another from 0 to the
    end of the trajectory, the State-Emission rows are those of
    [stat_row], and the step function is the concatenation of their
    blocks whatever the array was filled with. *)
Lemma detect_cp_split (fuel : nat) (self self' : Detector) (k : nat)
  (obs : list float) (cps : list cp_row) :
  well_formed self ->
  detect_cp fuel self = Some (inr self') ->
  _observations self !! k = Some obs ->
  change_points self' !! traj_key k = Some cps ->
  cps <> [] ->
  let tss := np_sort (map ts cps) in
  let parts := partitions_of (length obs) tss in
  let se := map (stat_row (_distribution self) obs) parts in
  tss <> []
  /\ StronglySorted lt tss
  /\ Forall (fun t => 3 <= t /\ t + 3 <= length obs) tss
  /\ chain 0 parts (length obs)
  /\ state_emission self' !! traj_key k = Some se
  /\ exists sf,
       step_function self' !! traj_key k = Some sf
       /\ sf = flat_map block se
       /\ forall fill, length fill = length obs -> write_rows fill se = sf.
Proof.
  intros Hwf Hrun Hobs Hcp Hne tss parts se.
  destruct (detect_cp_trajectory _ _ _ _ _ Hwf Hrun Hobs)
    as (rows & cp & se' & sf & Hsp & Hlen & Hrec & Hat).
  unfold results_at in Hat. injection Hat as Hcp' Hse Hsf.
  rewrite Hcp in Hcp'. injection Hcp' as <-.
  assert (Hrows : rows <> []).
  { intros ->. unfold reconstruct in Hrec. rewrite Hlen in Hrec.
    cbn in Hrec. destruct (length obs =? 0); [done|].
    by injection Hrec as <- _ _. }
  rewrite (reconstruct_nonempty self obs k rows Hrows Hlen) in Hrec.
  injection Hrec as Hcps Hse' Hsf'.
  assert (Htss : tss = np_sort (map ts rows)).
  { unfold tss. rewrite <- Hcps. apply np_sort_sort_ts_column. }
  destruct (split_rows_ok _ _ _ _ _ _ Hsp) as [Hb Hnd].
  assert (H1 : tss <> []).
  { rewrite Htss. apply np_sort_nonempty. by destruct rows. }
  assert (H2 : StronglySorted lt tss).
  { rewrite Htss. by apply np_sort_strict. }
  assert (H3 : Forall (fun t => 3 <= t /\ t + 3 <= length obs) tss).
  { rewrite Htss. apply np_sort_Forall. apply Forall_fmap.
    eapply Forall_impl; [exact Hb|]. cbn. lia. }
  assert (H4 : chain 0 parts (length obs)).
  { apply chain_partitions_of; [done|done|].
    eapply Forall_impl; [exact H3|]. cbn. lia. }
  assert (Hse'' : map (stat_row (_distribution self) obs)
                    (partitions_of (length obs) (np_sort (map ts rows)))
                  = se).
  { unfold se, parts. by rewrite Htss. }
  do 4 (split; [done|]). split; [rewrite Hse, <- Hse'; f_equal; exact Hse''|].
  exists sf. split; [done|].
  assert (Hfill : forall fill,
             length fill = length obs -> write_rows fill se = flat_map block se).
  { intros fill Hfill.
    apply (write_rows_chain se [] fill). cbn [length].
    rewrite Hfill. unfold se. rewrite map_map.
    rewrite (map_ext _ id) by done.
    by rewrite map_id. }
  assert (Hsf'' : sf = flat_map block se).
  { rewrite <- Hsf'. rewrite Hse''.
    apply Hfill. unfold np_ones. by rewrite length_replicate. }
  split; [done|]. intros fill Hf. rewrite Hsf''. by apply Hfill.
Qed.

End Driver.

(** ** The log-gamma table *)

Section Table.

Context {libm : Libm}.

Lemma set_loggamma_id (self : Detector) :
  set_loggamma self (loggamma self) = self.
Proof. by destruct self. Qed.

Lemma table_loop (g : nat -> float) (l : list nat) (self : Detector) :
  fold_left (fun self i => set_loggamma self (loggamma self ++ [g i])) l self
  = set_loggamma self (loggamma self ++ map g l).
Proof.
  revert self. induction l as [|i l IH]; intros self.
  - cbn. by rewrite app_nil_r, set_loggamma_id.
  - cbn [fold_left map]. rewrite IH. cbn [loggamma set_loggamma].
    unfold set_loggamma. cbn. by rewrite <- app_assoc.
Qed.

(** The detector the constructor returns. *)
Lemma init_spec (observations : list (list float)) (name : string)
  (thr : float) (self : Detector) :
  __init__ observations name thr = inr self ->
  _observations self = observations
  /\ well_formed self
  /\ threshold self = thr
  /\ change_points self = ∅
  /\ loggamma self
     = [F64.m99; F64.m99; F64.m99]
         ++ map (fun i => gammaln (F64.f0_5 * F64.of_nat i - F64.one)%f64)
              (range 3 (max_length observations + 1)).
Proof.
  unfold __init__, _generate_loggamma_table. cbn [_Ts].
  destruct (String.eqb name "log_normal");
    [|destruct (String.eqb name "normal" || String.eqb name "gaussian")];
    [| |done];
    (destruct (map length observations) eqn:Hl; [done|]);
    rewrite <- Hl; intros [= <-]; rewrite table_loop; by repeat split.
Qed.

Lemma length_table (observations : list (list float)) :
  length ([F64.m99; F64.m99; F64.m99]
            ++ map (fun i => gammaln (F64.f0_5 * F64.of_nat i - F64.one)%f64)
                 (range 3 (max_length observations + 1)))
  = 3 `max` (max_length observations + 1).
Proof.
  rewrite length_app, length_map. unfold range. rewrite length_seq.
  cbn [length]. lia.
Qed.

Lemma loggamma_reads_bounds (obs : list float) (i : nat) :
  6 <= length obs -> i ∈ loggamma_reads obs -> 3 <= i <= length obs.
Proof.
  intros Hn. unfold loggamma_reads.
  intros [->|Hi]%elem_of_cons; [lia|].
  apply list_elem_of_In, in_flat_map in Hi as (j & Hj & Hi).
  unfold range in Hj. apply in_seq in Hj.
  unfold slice in Hi. rewrite length_take, !length_drop in Hi.
  cbn in Hi. lia.
Qed.

Lemma for_each_ext {A S} (f g : S -> A -> raises S) (l : list A) (s : S) :
  (forall s i, i ∈ l -> f s i = g s i) ->
  for_each f l s = for_each g l s.
Proof.
  revert s. induction l as [|x l IH]; intros s Hfg; [done|].
  cbn. rewrite (Hfg s x) by left.
  destruct (g s x) as [e|s']; [done|]. cbn.
  apply IH. intros s0 i Hi. apply Hfg. by right.
Qed.

(** The score depends on the table only through the entries at
    [loggamma_reads]. *)
Lemma bf_reads (self : Detector) (table' : list float) (obs : list float) :
  (forall i, i ∈ loggamma_reads obs -> table' !! i = loggamma self !! i) ->
  _normal_lognormal_bf (set_loggamma self table') obs
  = _normal_lognormal_bf self obs.
Proof.
  intros Hag. unfold _normal_lognormal_bf.
  destruct (length obs <? 6); [done|].
  cbn [_distribution set_loggamma loggamma threshold].
  destruct (mean_var (_distribution self) obs) as [mean var].
  assert (Hn : index table' (length obs) = index (loggamma self) (length obs)).
  { unfold index. rewrite Hag; [done|]. by left. }
  rewrite Hn. destruct (index (loggamma self) (length obs)) as [e|lg_n];
    [done|].
  cbn [mbind raises_bind].
  rewrite (for_each_ext _
    (fun weights i => w ← split_weight self obs i; mret (weights ++ [w]))).
  { reflexivity. }
  intros ws i Hi. unfold split_weight.
  cbn [_distribution set_loggamma loggamma].
  assert (Ha : index table' (length (slice obs 0 i))
               = index (loggamma self) (length (slice obs 0 i))).
  { unfold index. rewrite Hag; [done|]. right.
    apply list_elem_of_In, in_flat_map. exists i.
    split; [by apply list_elem_of_In|]. by left. }
  assert (Hb : index table' (length (drop i obs))
               = index (loggamma self) (length (drop i obs))).
  { unfold index. rewrite Hag; [done|]. right.
    apply list_elem_of_In, in_flat_map. exists i.
    split; [by apply list_elem_of_In|]. right. by left. }
  by rewrite Ha, Hb.
Qed.

End Table.

Section LastPartition.

Lemma last_partitions_after (hi : nat) (rest : list nat) :
  rest <> [] -> exists a, last (partitions_after hi rest) = Some (a, hi).
Proof.
  induction rest as [|j rest IH]; [done|]. intros _.
  destruct rest as [|next rest].
  - by exists (j + 1).
  - destruct (IH ltac:(done)) as [a Ha]. exists a.
    cbn [partitions_after] in *. by rewrite last_cons, Ha.
Qed.

(** The last partition ends at the last index of the trajectory. *)
Lemma last_partitions_of (len : nat) (tss : list nat) :
  tss <> [] -> exists a, last (partitions_of len tss) = Some (a, len - 1).
Proof.
  intros Hne. destruct tss as [|t0 tss]; [done|].
  destruct (last_partitions_after (len - 1) (t0 :: tss) Hne) as [a Ha].
  exists a. unfold partitions_of. by rewrite last_cons, Ha.
Qed.

End LastPartition.

(** ** The Bayes factor scorer: closed form and outcome *)

Section ScorerClaims.

Context {libm : Libm}.

(** C1. For a segment of at least 6 points that the table covers, the
    scorer decides on exactly the log odds of the closed forms of the
    specification: [spec_log_odds] is [spec_num - spec_denom], the
    numerator averages one weight per position of the segment, [w(i)] at
    every candidate [3 <= i <= n - 3] and the zero placeholder at
    positions 0, 1, 2 and at the last two. *)
Theorem bayes_factor_closed_form (self : Detector) (obs : list float) :
  6 <= length obs -> length obs < length (loggamma self) ->
  let lG := table_fun (loggamma self) in
  let d := _distribution self in
  let n := length obs in
  _normal_lognormal_bf self obs
  = decision (threshold self) (spec_log_odds lG d obs)
      (spec_weights lG d obs)
  /\ length (spec_weights lG d obs) = n
  /\ (forall i, 3 <= i <= n - 3 ->
        spec_weights lG d obs !! i = Some (spec_w lG d obs i))
  /\ (forall i, i < 3 \/ n - 2 <= i < n ->
        spec_weights lG d obs !! i = Some F64.zero).
Proof.
  intros Hn Ht lG d n. split; [by apply bf_spec|].
  unfold spec_weights. fold n.
  split; [by rewrite length_map, length_seq|].
  split; intros i Hi; rewrite list_lookup_fmap, lookup_seq_lt by lia;
    cbn [fmap option_fmap option_map Nat.add].
  - replace ((3 <=? i) && (i <=? n - 3)) with true; [done|].
    symmetry. apply andb_true_iff. split; apply Nat.leb_le; lia.
  - replace ((3 <=? i) && (i <=? n - 3)) with false; [done|].
    symmetry. apply andb_false_iff.
    destruct Hi; [left|right]; apply Nat.leb_gt; lia.
Qed.

(** C2 (amended). The scorer returns [None] exactly when the segment has
    fewer than 6 points or its log odds are below the threshold.
    Otherwise it raises [ValueError] when the log odds are NaN, and else
    returns the log odds, which are not NaN but may be infinite, with a
    split index between 3 and [n - 3], provided the threshold is above
    negative infinity. *)
Theorem scorer_outcome (self : Detector) (obs : list float) :
  length obs < length (loggamma self) ->
  F64.ltb F64.neg_inf (threshold self) = true ->
  let n := length obs in
  let lo :=
    spec_log_odds (table_fun (loggamma self)) (_distribution self) obs in
  (_normal_lognormal_bf self obs = inr None
   <-> n < 6 \/ (6 <= n /\ F64.ltb lo (threshold self) = true))
  /\ (6 <= n -> F64.ltb lo (threshold self) = false ->
      if F64.isnan lo then _normal_lognormal_bf self obs = inl ValueError
      else exists i,
          _normal_lognormal_bf self obs = inr (Some (i, lo))
          /\ 3 <= i <= n - 3).
Proof.
  intros Ht Hthr n lo.
  destruct (decide (n < 6)) as [Hn|Hn].
  { split; [|lia]. split; [by left|]. intros _. by apply bf_short. }
  destruct (bf_cases self obs ltac:(unfold n in Hn; lia) Ht)
    as [[Hnan H]|[(Hnan & Hlt & H)|(Hnan & Hlt & i & H & Hi)]];
    fold lo in Hnan; try fold lo in Hlt; rewrite H.
  - assert (Hlt : F64.ltb lo (threshold self) = false).
    { destruct lo; try done. }
    split.
    + split; [done|]. intros [?|[_ Hlt']]; [lia|congruence].
    + intros _ _. by rewrite Hnan.
  - split; [|congruence]. split; [|done]. intros _. right. split; [lia|done].
  - split.
    + split; [done|]. intros [?|[_ Hlt']]; [lia|congruence].
    + intros _ _. rewrite Hnan. exists i. split; [done|].
      destruct Hi as [Hi|(_ & _ & Hi)]; [exact Hi|congruence].
Qed.

End ScorerClaims.

Lemma bayes_factor_closed_form_witness :
  6 <= length Examples.two_levels
  /\ _normal_lognormal_bf (libm := Coarse.libm)
       (Examples.construct [Examples.two_levels] "normal" F64.zero)
       Examples.two_levels
     = decision F64.zero
         (spec_log_odds (libm := Coarse.libm)
            (table_fun (loggamma (Examples.construct [Examples.two_levels]
                                    "normal" F64.zero)))
            Normal Examples.two_levels)
         (spec_weights (libm := Coarse.libm)
            (table_fun (loggamma (Examples.construct [Examples.two_levels]
                                    "normal" F64.zero)))
            Normal Examples.two_levels).
Proof.
  split; [vm_compute; lia|].
  apply (@bayes_factor_closed_form Coarse.libm
           (Examples.construct [Examples.two_levels] "normal" F64.zero)
           Examples.two_levels); vm_compute; lia.
Defined.

Lemma scorer_outcome_witness :
  F64.ltb F64.neg_inf F64.zero = true
  /\ exists i,
       _normal_lognormal_bf (libm := Coarse.libm)
         (Examples.construct [Examples.two_levels] "normal" F64.zero)
         Examples.two_levels
       = inr (Some (i, spec_log_odds (libm := Coarse.libm)
                         (table_fun
                            (loggamma
                               (Examples.construct [Examples.two_levels]
                                  "normal" F64.zero)))
                         Normal Examples.two_levels))
       /\ 3 <= i <= length Examples.two_levels - 3.
Proof.
  split; [reflexivity|].
  pose proof (@scorer_outcome Coarse.libm
                (Examples.construct [Examples.two_levels] "normal" F64.zero)
                Examples.two_levels) as H.
  cbv zeta in H.
  destruct H as [_ H]; [vm_compute; lia|reflexivity|].
  specialize (H ltac:(vm_compute; lia) ltac:(vm_compute; reflexivity)).
  replace (F64.isnan _) with false in H by (vm_compute; reflexivity).
  exact H.
Defined.

(** C2 as stated fails here. The first three of the samples 1, -1, 0, 5,
    6, 7.5 average to zero, so the only candidate split, at 3, takes the
    logarithm of zero in [wdenom] and weighs positive infinity; so do the
    mean of the weights and the log odds, which are neither NaN nor below
    the threshold 0. The scorer returns them: log odds that are not
    finite. (Of the mathematical library this uses that the logarithm of
    zero is negative infinity and that the other logarithms and
    log-gammas involved, of positive finite numbers, are finite.) *)
Lemma scorer_returns_infinite_log_odds :
  length Examples.zero_mean_head = 6
  /\ _normal_lognormal_bf (libm := Coarse.libm)
       (Examples.construct [Examples.zero_mean_head] "normal" F64.zero)
       Examples.zero_mean_head
     = inr (Some (3, F64.inf))
  /\ F64.is_finite F64.inf = false.
Proof. vm_compute. by repeat split. Qed.

(** C4 as stated fails here. The samples 1, 2, 3, 1, 2, 3 times 2^340 have
    halves of mean 2^341: the product of the squared means overflows to
    positive infinity, its logarithm makes the only weight negative
    infinity, and so are the log odds. They are not finite, yet nothing is
    raised: the segment is silently left unsplit. (Of the mathematical
    library this uses that the logarithm of positive infinity is positive
    infinity and that the other logarithms and log-gammas involved are
    finite.) *)
Lemma infinite_log_odds_not_raised :
  length Examples.huge = 6
  /\ spec_log_odds (libm := Coarse.libm)
       (table_fun (loggamma (Examples.construct [Examples.huge]
                               "normal" F64.zero)))
       Normal Examples.huge
     = F64.neg_inf
  /\ F64.is_finite F64.neg_inf = false
  /\ _normal_lognormal_bf (libm := Coarse.libm)
       (Examples.construct [Examples.huge] "normal" F64.zero)
       Examples.huge
     = inr None.
Proof. vm_compute. by repeat split. Qed.

(** ** An exception of the scorer ends the run *)

Section AbortClaims.

Context {libm : Libm} {pandas : Pandas}.

(** A window that raises, scored by a call, keeps the rows of the call
    from being returned. *)
Lemma split_rows_scored_raises (self : Detector) (obs : list float)
  (start end_ s e : nat) (err : exn) :
  scored self obs start end_ s e ->
  _normal_lognormal_bf self (slice obs s e) = inl err ->
  forall fuel rows, split_rows fuel self obs start end_ <> Some (inr rows).
Proof.
  intros Hsc Herr.
  induction Hsc as [start end_|start end_ i lo s e Hbf _ IH
                   |start end_ i lo s e Hbf _ IH];
    intros [|fuel] rows; try done; cbn [split_rows].
  - by rewrite Herr.
  - rewrite Hbf. cbn.
    specialize (IH Herr fuel).
    destruct (split_rows fuel self obs start (start + i)) as [[e'|left]|];
      [done| |done].
    by destruct (IH left).
  - rewrite Hbf. cbn.
    specialize (IH Herr fuel).
    destruct (split_rows fuel self obs start (start + i)) as [[e'|left]|];
      [done| |done].
    cbn.
    destruct (split_rows fuel self obs (start + i) end_) as [[e'|right]|];
      [done| |done].
    by destruct (IH right).
Qed.

Lemma split_scored_raises (self : Detector) (obs : list float)
  (start end_ s e itraj : nat) (err : exn) :
  scored self obs start end_ s e ->
  _normal_lognormal_bf self (slice obs s e) = inl err ->
  forall fuel r,
    _split fuel self obs start end_ itraj = Some r -> exists e', r = inl e'.
Proof.
  intros Hsc Herr fuel r Hrun.
  destruct r as [e'|self']; [by exists e'|]. exfalso.
  destruct (change_points self !! traj_key itraj) as [frame|] eqn:Hf.
  - rewrite (split_rows_spec fuel _ _ _ _ _ _ Hf) in Hrun.
    destruct (split_rows fuel self obs start end_) as [[e'|rows]|] eqn:Hrows;
      [done| |done].
    by apply (split_rows_scored_raises _ _ _ _ _ _ _ Hsc Herr fuel rows).
  - destruct fuel as [|fuel]; [done|]. cbn [_split] in Hrun.
    destruct (_normal_lognormal_bf self (slice obs start end_))
      as [e'|[[i lo]|]] eqn:Hbf; [done| |].
    + cbn in Hrun. unfold get_change_points in Hrun.
      by rewrite Hf in Hrun.
    + inversion Hsc; subst; congruence.
Qed.

(** On a detector whose table covers its trajectories, the exceptions of
    detection are [ValueError]s. *)
Lemma split_rows_error (fuel : nat) :
  forall (self : Detector) (obs : list float) (start end_ : nat) (err : exn),
    length obs < length (loggamma self) ->
    split_rows fuel self obs start end_ = Some (inl err) ->
    err = ValueError.
Proof.
  induction fuel as [|fuel IH]; intros self obs start end_ err Ht; [done|].
  cbn [split_rows].
  pose proof (length_slice_le obs start end_) as [_ Hlen].
  destruct (decide (length (slice obs start end_) < 6)) as [Hn|Hn].
  { by rewrite bf_short. }
  destruct (bf_cases self (slice obs start end_) ltac:(lia) ltac:(lia))
    as [[_ H]|[(_ & _ & H)|(_ & _ & i & H & _)]]; rewrite H; cbn.
  - by intros [= <-].
  - done.
  - destruct (split_rows fuel self obs start (start + i))
      as [[e'|left]|] eqn:Hl; cbn; [|  |done].
    { intros [= <-]. by apply (IH _ _ _ _ _ Ht Hl). }
    destruct (split_rows fuel self obs (start + i) end_)
      as [[e'|right]|] eqn:Hr; cbn; [|done|done].
    intros [= <-]. by apply (IH _ _ _ _ _ Ht Hr).
Qed.

Lemma trajectory_result_error (fuel : nat) (self : Detector) (k : nat)
  (err : exn) :
  well_formed self ->
  Forall (fun n => n < length (loggamma self)) (observation_lengths self) ->
  k < _nobs self ->
  trajectory_result fuel self k = Some (inl err) ->
  err = ValueError.
Proof.
  intros [Hn HT] Hcov Hk. unfold trajectory_result.
  rewrite Hn in Hk.
  destruct (lookup_lt_is_Some_2 _ _ Hk) as [obs Hobs].
  unfold index, observation_lengths in *.
  rewrite Hobs, HT, list_lookup_fmap, Hobs. cbn.
  assert (Ht : length obs < length (loggamma self)).
  { rewrite Forall_forall in Hcov. apply Hcov. rewrite HT.
    apply list_elem_of_fmap. exists obs. split; [done|].
    by apply list_elem_of_lookup_2 in Hobs. }
  destruct (split_rows fuel self obs 0 (length obs))
    as [[e'|rows]|] eqn:Hrows; cbn; [| |done].
  { intros [= <-]. by apply (split_rows_error _ _ _ _ _ _ Ht Hrows). }
  unfold lift, reconstruct, index, observation_lengths.
  rewrite HT, list_lookup_fmap, Hobs. cbn.
  destruct rows as [|row rows].
  - destruct (length obs =? 0); [by intros [= <-]|done].
  - by destruct (mean_var _ _).
Qed.

Lemma detect_cp_loop_error (fuel : nat) (ks : list nat) :
  forall (self : Detector) (err : exn),
    well_formed self ->
    Forall (fun n => n < length (loggamma self)) (observation_lengths self) ->
    Forall (fun k => k < _nobs self) ks ->
    detect_cp_loop fuel ks self = Some (inl err) ->
    err = ValueError.
Proof.
  induction ks as [|k ks IH]; intros self err Hwf Hcov Hks; [done|].
  apply Forall_cons in Hks as [Hk Hks].
  rewrite detect_cp_loop_step.
  destruct (trajectory_result fuel self k) as [[e'|r]|] eqn:Hr; cbn;
    [|  |done].
  { intros [= <-]. by apply (trajectory_result_error fuel self k). }
  destruct (store_same_config self k r)
    as [(_ & Ht & _) (Ho & Hn & HT & _)].
  apply IH.
  - destruct Hwf as [Hn' HT']. split; congruence.
  - unfold observation_lengths in *. by rewrite <- Ht, <- HT.
  - by rewrite <- Hn.
Qed.

(** C4 (amended). Scoring a segment of at least 6 points raises
    [ValueError] exactly when the log odds are NaN, and raises nothing
    else. Nothing catches the error: [_split] raises when the segment is
    the window of the call, it does not return normally when the segment
    is a window scored at any depth of its recursion, and neither does
    [detect_cp] when the segment is such a window of one of its
    trajectories: if the run ends, it ends with [ValueError]. Infinite
    log odds are no error: positive infinity is returned with a split
    index; negative infinity is below every threshold above it and gives
    [None], and is returned with a split index under the other
    thresholds (negative infinity and NaN). *)
Theorem value_error_iff_nan (self : Detector) (obs : list float) :
  6 <= length obs -> length obs < length (loggamma self) ->
  let lo :=
    spec_log_odds (table_fun (loggamma self)) (_distribution self) obs in
  (F64.isnan lo = true -> _normal_lognormal_bf self obs = inl ValueError)
  /\ (F64.isnan lo = true ->
      forall fuel trajectory start end_ itraj,
        slice trajectory start end_ = obs ->
        _split (S fuel) self trajectory start end_ itraj
        = Some (inl ValueError))
  /\ (F64.isnan lo = true ->
      forall fuel trajectory start end_ s e itraj r,
        scored self trajectory start end_ s e ->
        slice trajectory s e = obs ->
        _split fuel self trajectory start end_ itraj = Some r ->
        exists err, r = inl err)
  /\ (F64.isnan lo = true ->
      forall fuel k trajectory s e r,
        well_formed self ->
        Forall (fun n => n < length (loggamma self))
          (observation_lengths self) ->
        _observations self !! k = Some trajectory ->
        scored self trajectory 0 (length trajectory) s e ->
        slice trajectory s e = obs ->
        detect_cp fuel self = Some r ->
        r = inl ValueError)
  /\ (F64.isnan lo = false ->
      exists r, _normal_lognormal_bf self obs = inr r)
  /\ (lo = F64.inf ->
      exists i, _normal_lognormal_bf self obs = inr (Some (i, F64.inf)))
  /\ (lo = F64.neg_inf ->
      F64.ltb F64.neg_inf (threshold self) = true ->
      _normal_lognormal_bf self obs = inr None)
  /\ (lo = F64.neg_inf ->
      F64.ltb F64.neg_inf (threshold self) = false ->
      exists i,
        _normal_lognormal_bf self obs = inr (Some (i, F64.neg_inf))).
Proof.
  intros Hn Ht lo.
  assert (Hdeep : _normal_lognormal_bf self obs = inl ValueError ->
            (forall fuel trajectory start end_ s e itraj r,
               scored self trajectory start end_ s e ->
               slice trajectory s e = obs ->
               _split fuel self trajectory start end_ itraj = Some r ->
               exists err, r = inl err)
            /\ (forall fuel k trajectory s e r,
                  well_formed self ->
                  Forall (fun n => n < length (loggamma self))
                    (observation_lengths self) ->
                  _observations self !! k = Some trajectory ->
                  scored self trajectory 0 (length trajectory) s e ->
                  slice trajectory s e = obs ->
                  detect_cp fuel self = Some r ->
                  r = inl ValueError)).
  { intros H. split.
    - intros fuel trajectory start end_ s e itraj r Hsc Hslice Hrun.
      rewrite <- Hslice in H.
      exact (split_scored_raises _ _ _ _ _ _ itraj _ Hsc H fuel r Hrun).
    - intros fuel k trajectory s e r Hwf Hcov Hobs Hsc Hslice Hrun.
      rewrite <- Hslice in H.
      destruct r as [err|self'].
      + f_equal. unfold detect_cp in Hrun.
        apply (detect_cp_loop_error _ _ _ _ Hwf Hcov) in Hrun; [done|].
        apply Forall_forall. intros j Hj. unfold range in Hj.
        apply list_elem_of_In, in_seq in Hj. lia.
      + exfalso.
        destruct (detect_cp_trajectory _ _ _ _ _ Hwf Hrun Hobs)
          as (rows & _ & _ & _ & Hrows & _).
        by apply (split_rows_scored_raises _ _ _ _ _ _ _ Hsc H fuel rows). }
  destruct (bf_cases self obs Hn Ht)
    as [[Hnan H]|[(Hnan & Hlt & H)|(Hnan & Hlt & i & H & Hi)]];
    fold lo in Hnan; try fold lo in Hlt.
  - destruct (Hdeep H) as [Hsplit Hrun]. rewrite H.
    split; [done|]. split.
    { intros _ fuel trajectory start end_ itraj Hslice.
      cbn [_split]. by rewrite Hslice, H. }
    split; [intros _; exact Hsplit|].
    split; [intros _; exact Hrun|].
    split; [congruence|].
    repeat split; intros Hlo; rewrite Hlo in Hnan; done.
  - rewrite H.
    do 4 (split; [congruence|]). split; [by eexists|].
    split.
    { intros Hlo. rewrite Hlo in Hlt.
      by rewrite F64Facts.ltb_inf_l in Hlt. }
    split; [done|]. intros Hlo Hthr. rewrite Hlo in Hlt. congruence.
  - rewrite H.
    do 4 (split; [congruence|]). split; [by eexists|].
    split; [|split].
    + intros Hlo. exists i. by rewrite <- Hlo.
    + intros Hlo Hthr. rewrite Hlo in Hlt. congruence.
    + intros Hlo _. exists i. by rewrite <- Hlo.
Qed.

End AbortClaims.

Lemma value_error_iff_nan_witness :
  6 <= length Inputs.with_nan
  /\ F64.isnan
       (spec_log_odds (libm := Coarse.libm)
          (table_fun (loggamma (Examples.construct [Inputs.with_nan]
                                  "normal" F64.zero)))
          Normal Inputs.with_nan) = true
  /\ _normal_lognormal_bf (libm := Coarse.libm)
       (Examples.construct [Inputs.with_nan] "normal" F64.zero)
       Inputs.with_nan
     = inl ValueError
  /\ forall fuel r,
       detect_cp (libm := Coarse.libm) (pandas := Coarse.view) fuel
         (Examples.construct [Inputs.with_nan] "normal" F64.zero)
       = Some r ->
       r = inl ValueError.
Proof.
  assert (Hn : 6 <= length Inputs.with_nan) by (vm_compute; lia).
  assert (Hnan : F64.isnan
                   (spec_log_odds (libm := Coarse.libm)
                      (table_fun
                         (loggamma (Examples.construct [Inputs.with_nan]
                                      "normal" F64.zero)))
                      Normal Inputs.with_nan) = true).
  { vm_compute. reflexivity. }
  pose proof (@value_error_iff_nan Coarse.libm Coarse.view
                (Examples.construct [Inputs.with_nan] "normal" F64.zero)
                Inputs.with_nan Hn ltac:(vm_compute; lia)) as H.
  cbv zeta in H. destruct H as (Hbf & _ & _ & Hrun & _).
  split; [exact Hn|]. split; [exact Hnan|]. split; [exact (Hbf Hnan)|].
  intros fuel r.
  apply (Hrun Hnan fuel 0 Inputs.with_nan 0 6 r).
  - by split.
  - repeat constructor.
  - reflexivity.
  - apply scored_here.
  - reflexivity.
Defined.

(** ** Termination of the recursive segmenter *)

Section SplitClaims.

Context {libm : Libm}.

(** C5 (amended). With a threshold above negative infinity (every real
    number), every accepted split yields a change point [ts] with
    [start < ts < end_], so that both recursive calls work on strictly
    smaller windows, and [_split] finishes on every input once it has
    more fuel than the window has points: it returns the detector or
    raises, and the result does not depend on the fuel. *)
Theorem split_terminates (self : Detector) (obs : list float)
  (start end_ itraj : nat) :
  F64.ltb F64.neg_inf (threshold self) = true ->
  (forall i lo,
     _normal_lognormal_bf self (slice obs start end_) = inr (Some (i, lo)) ->
     start < start + i < end_
     /\ start + i - start < end_ - start
     /\ end_ - (start + i) < end_ - start)
  /\ exists r, forall fuel,
       end_ - start < fuel ->
       _split fuel self obs start end_ itraj = Some r.
Proof.
  intros Hthr. split.
  - intros i lo Hbf.
    destruct (bf_accepted_cases _ _ _ _ Hbf) as [Hn [Hi|[_ Hi]]];
      [|congruence].
    pose proof (length_slice_le obs start end_) as [Hlen _]. lia.
  - by apply (split_total (end_ - start)).
Qed.

End SplitClaims.

Lemma split_terminates_witness :
  F64.ltb F64.neg_inf F64.zero = true
  /\ exists r, forall fuel,
       6 - 0 < fuel ->
       _split (libm := Coarse.libm) fuel
         (set_change_points
            (Examples.construct [Examples.two_levels] "normal" F64.zero)
            (traj_key 0) [])
         Examples.two_levels 0 6 0
       = Some r.
Proof.
  split; [reflexivity|].
  apply (@split_terminates Coarse.libm
           (set_change_points
              (Examples.construct [Examples.two_levels] "normal" F64.zero)
              (traj_key 0) [])
           Examples.two_levels 0 6 0).
  reflexivity.
Defined.

(** C5 as stated fails here. The constructor takes any threshold. With
    the threshold negative infinity, the samples of [Examples.huge], whose
    log odds are negative infinity, are not below the threshold: the
    scorer accepts a split, and since every candidate weighs negative
    infinity like the masked positions, at the relative index 0. The
    change point is [start] itself, not inside the window, the first
    recursive call is on an empty window and the second on the same
    window again: [_split] does not finish, whatever fuel it is given.
    (Of the mathematical library this uses, as for C4, that the logarithm
    of positive infinity is positive infinity and that the other
    logarithms and log-gammas involved are finite.) *)
Lemma split_stuck_at_lowest_threshold :
  _normal_lognormal_bf (libm := Coarse.libm)
    (Examples.construct [Examples.huge] "normal" F64.neg_inf)
    (slice Examples.huge 0 6)
  = inr (Some (0, F64.neg_inf))
  /\ ~ (0 < 0 + 0 < 6)
  /\ forall fuel,
       _split (libm := Coarse.libm) fuel
         (set_change_points
            (Examples.construct [Examples.huge] "normal" F64.neg_inf)
            (traj_key 0) [])
         Examples.huge 0 6 0
       = None.
Proof.
  split; [vm_compute; reflexivity|]. split; [lia|].
  intros fuel. rewrite (split_rows_spec fuel _ _ _ _ _ []).
  - by rewrite (split_rows_stuck _ _ _ _ F64.neg_inf fuel).
  - apply lookup_insert_eq.
Qed.

(** ** The log-gamma table *)

Section TableClaims.

Context {libm : Libm}.

(** C9. The table the constructor builds holds [gammaln(0.5 * n - 1)] at
    every index [n] from 3 to the maximal trajectory length [L], and the
    sentinel -99 at the indices 0, 1, 2. Scoring a segment of 6 to [L]
    points subscripts the table at the indices [loggamma_reads] only,
    which all lie between 3 and [L]: no [IndexError] is raised, and the
    score is the same for every table that agrees on those indices,
    whatever its sentinels and its length are. *)
Theorem loggamma_table_reads (observations : list (list float))
  (name : string) (thr : float) (self : Detector) :
  __init__ observations name thr = inr self ->
  let L := max_length observations in
  (forall n, 3 <= n <= L ->
     loggamma self !! n
     = Some (gammaln (F64.f0_5 * F64.of_nat n - F64.one)%f64))
  /\ (forall n, n < 3 -> loggamma self !! n = Some F64.m99)
  /\ (forall obs, 6 <= length obs <= L ->
        (forall i, i ∈ loggamma_reads obs -> 3 <= i <= L)
        /\ _normal_lognormal_bf self obs <> inl IndexError
        /\ forall table',
             (forall i, i ∈ loggamma_reads obs ->
                table' !! i = loggamma self !! i) ->
             _normal_lognormal_bf (set_loggamma self table') obs
             = _normal_lognormal_bf self obs).
Proof.
  intros Hinit L.
  destruct (init_spec _ _ _ _ Hinit) as (_ & _ & _ & _ & Htab).
  split; [|split].
  - intros n Hn. rewrite Htab.
    rewrite lookup_app_r by (cbn; lia). cbn [length].
    rewrite list_lookup_fmap. unfold range.
    rewrite lookup_seq_lt by (fold L; lia).
    cbn [fmap option_fmap option_map].
    by replace (3 + (n - 3)) with n by lia.
  - intros n Hn. rewrite Htab.
    destruct n as [|[|[|n]]]; [done|done|done|lia].
  - intros obs Hobs. split; [|split].
    + intros i Hi.
      pose proof (loggamma_reads_bounds obs i ltac:(lia) Hi). lia.
    + assert (Ht : length obs < length (loggamma self)).
      { rewrite Htab, length_table. fold L. lia. }
      destruct (bf_cases self obs ltac:(lia) Ht)
        as [[_ H]|[(_ & _ & H)|(_ & _ & i & H & _)]]; by rewrite H.
    + intros table' Hag. by apply bf_reads.
Qed.

End TableClaims.

Lemma loggamma_table_reads_witness :
  __init__ (libm := Coarse.libm) [Examples.two_levels; Examples.short]
    "normal" F64.zero
  = inr (Examples.construct [Examples.two_levels; Examples.short]
           "normal" F64.zero)
  /\ forall n, n < 3 ->
       loggamma (Examples.construct [Examples.two_levels; Examples.short]
                   "normal" F64.zero) !! n
       = Some F64.m99.
Proof.
  split; [reflexivity|].
  apply (@loggamma_table_reads Coarse.libm
           [Examples.two_levels; Examples.short] "normal" F64.zero
           (Examples.construct [Examples.two_levels; Examples.short]
              "normal" F64.zero)).
  reflexivity.
Defined.

(** ** Partitions and step function *)

Section ReconstructionClaims.

Context {libm : Libm} {pandas : Pandas}.

(** C3 (amended). After detection on a well-formed detector, the
    State-Emission partitions of a trajectory with at least one recorded
    change point cover the index range of the trajectory exactly: every
    index below its length lies in exactly one partition, every other
    index in none. For a trajectory without change points no partition
    is recorded at all. *)
Theorem partitions_cover_after_split (fuel : nat) (self self' : Detector)
  (k : nat) (obs : list float) (cps : list cp_row) :
  well_formed self ->
  detect_cp fuel self = Some (inr self') ->
  _observations self !! k = Some obs ->
  change_points self' !! traj_key k = Some cps ->
  (cps <> [] ->
   exists se,
     state_emission self' !! traj_key k = Some se
     /\ covers_exactly (map partition se) (length obs))
  /\ (cps = [] -> state_emission self' !! traj_key k = Some []).
Proof.
  intros Hwf Hrun Hobs Hcp. split.
  - intros Hne.
    destruct (detect_cp_split _ _ _ _ _ _ Hwf Hrun Hobs Hcp Hne)
      as (_ & _ & _ & Hchain & Hse & _).
    eexists. split; [exact Hse|].
    rewrite map_map, (map_ext _ id), map_id by done.
    intros i. rewrite (chain_covers _ _ _ Hchain).
    repeat destruct (decide _); lia.
  - intros ->.
    by destruct (detect_cp_unsplit _ _ _ _ _ Hwf Hrun Hobs Hcp)
      as (_ & Hse & _).
Qed.

(** C6 (amended). After detection, for a trajectory with at least one
    recorded change point the step function has the length of the
    trajectory and is the concatenation of one block per partition, each
    partition [(a, b)] written as the inclusive range [a..b] with the
    exponential of its recorded mean. The last partition ends at the last
    index of the trajectory, so this index is written too, and nothing of
    the initial fill of the array is left: the result is the same
    whatever the array was filled with. *)
Theorem step_function_fully_written (fuel : nat) (self self' : Detector)
  (k : nat) (obs : list float) (cps : list cp_row) :
  well_formed self ->
  detect_cp fuel self = Some (inr self') ->
  _observations self !! k = Some obs ->
  change_points self' !! traj_key k = Some cps ->
  cps <> [] ->
  exists se sf,
    state_emission self' !! traj_key k = Some se
    /\ step_function self' !! traj_key k = Some sf
    /\ length sf = length obs
    /\ sf = flat_map block se
    /\ (forall row i,
          row ∈ se -> (partition row).1 <= i <= (partition row).2 ->
          sf !! i = Some (np_exp (sample_mu row)))
    /\ (exists row,
          last se = Some row
          /\ (partition row).2 = length obs - 1
          /\ sf !! (length obs - 1) = Some (np_exp (sample_mu row)))
    /\ (forall fill, length fill = length obs -> write_rows fill se = sf).
Proof.
  intros Hwf Hrun Hobs Hcp Hne.
  destruct (detect_cp_split _ _ _ _ _ _ Hwf Hrun Hobs Hcp Hne)
    as (Htss & _ & Hb & Hchain & Hse & sf & Hsf & Hblocks & Hfill).
  set (se := map (stat_row (_distribution self) obs)
               (partitions_of (length obs) (np_sort (map ts cps)))) in *.
  assert (Hparts : map partition se
                   = partitions_of (length obs) (np_sort (map ts cps))).
  { unfold se. by rewrite map_map, (map_ext _ id), map_id. }
  assert (Hlook : forall row i,
             row ∈ se -> (partition row).1 <= i <= (partition row).2 ->
             sf !! i = Some (np_exp (sample_mu row))).
  { intros row i Hrow Hi. rewrite Hblocks.
    rewrite <- (Nat.sub_0_r i).
    eapply blocks_lookup; [|exact Hrow|exact Hi].
    rewrite Hparts. exact Hchain. }
  exists se, sf. do 2 (split; [done|]).
  split.
  { rewrite <- (Hfill (np_ones (length obs))).
    - rewrite length_write_rows. unfold np_ones. apply length_replicate.
    - unfold np_ones. apply length_replicate. }
  do 2 (split; [done|]). split; [|done].
  destruct (last_partitions_of (length obs) _ Htss) as [a Ha].
  exists (stat_row (_distribution self) obs (a, length obs - 1)).
  assert (Hlast : last se
                  = Some (stat_row (_distribution self) obs
                            (a, length obs - 1))).
  { unfold se.
    change (map ?f ?l) with (f <$> l). by rewrite fmap_last, Ha. }
  split; [done|]. split; [done|].
  apply Hlook.
  - by apply last_Some_elem_of.
  - cbn. pose proof (chain_bounds _ _ _ Hchain) as Hbd.
    rewrite Forall_forall in Hbd.
    specialize (Hbd (a, length obs - 1)
                  ltac:(by apply last_Some_elem_of)).
    cbn in Hbd. lia.
Qed.

(** C8. After detection, for a trajectory without recorded change points
    the step function is the constant sequence of the exponential of the
    mean of the whole trajectory under the distribution model, one entry
    shorter than the trajectory. (The exponential is a well-formed
    binary64 number, which multiplying by [1.0] returns unchanged.) *)
Theorem step_function_without_change_point (fuel : nat)
  (self self' : Detector) (k : nat) (obs : list float) :
  well_formed self ->
  detect_cp fuel self = Some (inr self') ->
  _observations self !! k = Some obs ->
  change_points self' !! traj_key k = Some [] ->
  F64.valid (np_exp (mean_var (_distribution self) obs).1) = true ->
  step_function self' !! traj_key k
  = Some (replicate (length obs - 1)
            (np_exp (mean_var (_distribution self) obs).1)).
Proof.
  intros Hwf Hrun Hobs Hcp Hvalid.
  destruct (detect_cp_unsplit _ _ _ _ _ Hwf Hrun Hobs Hcp)
    as (_ & _ & ->).
  f_equal. unfold np_ones.
  change (map ?f (replicate ?n ?x)) with (f <$> replicate n x).
  rewrite fmap_replicate. by rewrite F64Facts.mul_one_l.
Qed.

(** C10. Running detection on the detector that a first run returned
    returns the same detector again: the same Change Point Records under
    every key, and the trajectories the first run started from. *)
Theorem detect_cp_idempotent (fuel : nat) (self s1 : Detector) :
  detect_cp fuel self = Some (inr s1) ->
  exists s2,
    detect_cp fuel s1 = Some (inr s2)
    /\ change_points s2 = change_points s1
    /\ _observations s2 = _observations self
    /\ _observations s1 = _observations self
    /\ s2 = s1.
Proof.
  intros Hrun. unfold detect_cp in Hrun.
  destruct (detect_cp_loop_spec _ _ _ _ (NoDup_seq _ _) Hrun)
    as (Hc & (Ho & Hn & HT & Hs) & Hres & _).
  exists s1. split; [|by repeat split].
  unfold detect_cp. rewrite <- Hn.
  apply detect_cp_loop_fixed. intros j Hj.
  destruct (Hres j Hj) as (cp & se & sf & Htr & Hat).
  exists cp, se, sf. split; [|done].
  rewrite <- Htr. symmetry.
  apply trajectory_result_ext; [exact Hc|by repeat split].
Qed.

End ReconstructionClaims.

Section Runs.

Import Examples.

Lemma two_trajectories_well_formed : well_formed two_trajectories.
Proof. by split. Qed.

Lemma two_trajectories_detected :
  detect_cp (libm := Coarse.libm) (pandas := Coarse.view) 5 two_trajectories
  = Some (inr detected).
Proof. vm_compute. reflexivity. Qed.

End Runs.

Lemma partitions_cover_after_split_witness :
  well_formed Examples.two_trajectories
  /\ (Examples.detected_cps <> [] ->
      exists se,
        state_emission Examples.detected !! traj_key 0 = Some se
        /\ covers_exactly (map partition se) (length Examples.two_levels)).
Proof.
  split; [apply two_trajectories_well_formed|].
  apply (@partitions_cover_after_split Coarse.libm Coarse.view 5
           Examples.two_trajectories Examples.detected 0
           Examples.two_levels Examples.detected_cps).
  - apply two_trajectories_well_formed.
  - apply two_trajectories_detected.
  - reflexivity.
  - vm_compute. reflexivity.
Defined.

(** C3 as stated fails here. A trajectory of three samples is never split:
    after detection its frame of change points is empty and so is its
    State-Emission frame, and no partition covers the indices 0, 1, 2. *)
Lemma no_partition_without_change_point :
  detect_cp (libm := Coarse.libm) (pandas := Coarse.view) 5
    Examples.two_trajectories
  = Some (inr Examples.detected)
  /\ _observations Examples.two_trajectories !! 1 = Some Examples.short
  /\ change_points Examples.detected !! traj_key 1 = Some []
  /\ state_emission Examples.detected !! traj_key 1 = Some []
  /\ ~ covers_exactly (map partition []) (length Examples.short).
Proof.
  split; [apply two_trajectories_detected|].
  split; [reflexivity|].
  split; [vm_compute; reflexivity|].
  split; [vm_compute; reflexivity|].
  intros H. specialize (H 0). vm_compute in H. discriminate.
Qed.

Lemma step_function_fully_written_witness :
  Examples.detected_cps <> []
  /\ exists se sf,
       state_emission Examples.detected !! traj_key 0 = Some se
       /\ step_function Examples.detected !! traj_key 0 = Some sf
       /\ length sf = length Examples.two_levels
       /\ sf = flat_map (block (libm := Coarse.libm)) se
       /\ (forall row i,
             row ∈ se -> (partition row).1 <= i <= (partition row).2 ->
             sf !! i = Some (Coarse.exp (sample_mu row)))
       /\ (exists row,
             last se = Some row
             /\ (partition row).2 = length Examples.two_levels - 1
             /\ sf !! (length Examples.two_levels - 1)
                = Some (Coarse.exp (sample_mu row)))
       /\ (forall fill,
             length fill = length Examples.two_levels ->
             write_rows (libm := Coarse.libm) fill se = sf).
Proof.
  split; [vm_compute; discriminate|].
  apply (@step_function_fully_written Coarse.libm Coarse.view 5
           Examples.two_trajectories Examples.detected 0
           Examples.two_levels Examples.detected_cps).
  - apply two_trajectories_well_formed.
  - apply two_trajectories_detected.
  - reflexivity.
  - vm_compute. reflexivity.
  - vm_compute. discriminate.
Defined.

(** C6 as stated fails: no run of the detector leaves the last index of a
    step function with change points unwritten, the written ranges never
    all end before the last index of the trajectory. On the samples 1, 2, 3, 11, 12, 13 the
    partitions are (0, 3) and (4, 5), and the entry at the last index, 5,
    is the exponential of the mean recorded for (4, 5). *)
Lemma last_index_always_written :
  (~ exists (libm : Libm) (pandas : Pandas) (fuel : nat)
       (self self' : Detector) (k : nat) (obs : list float)
       (cps : list cp_row) (se : list se_row),
       well_formed self
       /\ detect_cp fuel self = Some (inr self')
       /\ _observations self !! k = Some obs
       /\ change_points self' !! traj_key k = Some cps
       /\ cps <> []
       /\ state_emission self' !! traj_key k = Some se
       /\ Forall (fun row => (partition row).2 < length obs - 1) se)
  /\ map partition <$> state_emission Examples.detected !! traj_key 0
     = Some [(0, 3); (4, 5)]
  /\ step_function Examples.detected !! traj_key 0 ≫= (.!! 5)
     = Some (Coarse.exp (F64.of_Z 12)).
Proof.
  split; [|by vm_compute].
  intros (libm & pandas & fuel & self & self' & k & obs & cps & se
          & Hwf & Hrun & Hobs & Hcp & Hne & Hse & Hall).
  destruct (detect_cp_split _ _ _ _ _ _ Hwf Hrun Hobs Hcp Hne)
    as (Htss & _ & _ & _ & Hse' & _).
  rewrite Hse in Hse'. injection Hse' as ->.
  destruct (last_partitions_of (length obs) _ Htss) as [a Ha].
  rewrite Forall_forall in Hall.
  specialize (Hall (stat_row (_distribution self) obs (a, length obs - 1))).
  cbn in Hall. apply (Nat.lt_irrefl (length obs - 1)), Hall.
  apply list_elem_of_fmap. exists (a, length obs - 1).
  split; [done|]. by apply last_Some_elem_of.
Qed.

(** C7. On the trajectory 1, 2, 3, 11, 12, 13 (normal model, threshold 0)
    the change point 3 is recorded and the partitions are (0, 3) and
    (4, 5). The means recorded for them are 2 and 12, the means of the
    slices [obs[0:3]] = 1, 2, 3 and [obs[4:5]] = 12, which leave out the
    last sample of each partition; the means over exactly the samples of
    the partitions, 1, 2, 3, 11 and 12, 13, are 4.25 and 12.5. *)
Theorem sample_statistics_omit_last_sample :
  map ts <$> change_points Examples.detected !! traj_key 0 = Some [3]
  /\ map (fun row => (partition row, sample_mu row))
       <$> state_emission Examples.detected !! traj_key 0
     = Some [((0, 3), F64.of_Z 2); ((4, 5), F64.of_Z 12)]
  /\ (mean_var (libm := Coarse.libm) Normal
        (slice Examples.two_levels 0 (3 + 1))).1
     = F64.lit 17 (-2)
  /\ (mean_var (libm := Coarse.libm) Normal
        (slice Examples.two_levels 4 (5 + 1))).1
     = F64.lit 25 (-1).
Proof. by vm_compute. Qed.

Lemma step_function_without_change_point_witness :
  change_points Examples.detected !! traj_key 1 = Some []
  /\ step_function Examples.detected !! traj_key 1
     = Some (replicate (length Examples.short - 1)
               (Coarse.exp
                  (mean_var (libm := Coarse.libm) Normal Examples.short).1)).
Proof.
  split; [vm_compute; reflexivity|].
  apply (@step_function_without_change_point Coarse.libm Coarse.view 5
           Examples.two_trajectories Examples.detected 1 Examples.short).
  - apply two_trajectories_well_formed.
  - apply two_trajectories_detected.
  - reflexivity.
  - vm_compute. reflexivity.
  - vm_compute. reflexivity.
Defined.

Lemma detect_cp_idempotent_witness :
  detect_cp (libm := Coarse.libm) (pandas := Coarse.view) 5
    Examples.two_trajectories
  = Some (inr Examples.detected)
  /\ exists s2,
       detect_cp (libm := Coarse.libm) (pandas := Coarse.view) 5
         Examples.detected
       = Some (inr s2)
       /\ change_points s2 = change_points Examples.detected
       /\ _observations s2 = _observations Examples.two_trajectories
       /\ _observations Examples.detected
          = _observations Examples.two_trajectories
       /\ s2 = Examples.detected.
Proof.
  split; [apply two_trajectories_detected|].
  apply (@detect_cp_idempotent Coarse.libm Coarse.view 5
           Examples.two_trajectories Examples.detected).
  apply two_trajectories_detected.
Defined.

(** * Further properties of the program *)

(** ** The constructor *)

Section Constructor.

Context {libm : Libm}.

(** X1. The constructor succeeds exactly when there is at least one
    trajectory and the distribution is named ['log_normal'], ['normal'] or
    ['gaussian'], and raises [ValueError] otherwise. The detector it
    returns holds the trajectories, their number and their lengths, the
    threshold, three empty dictionaries, the model of the name
    (['gaussian'] is stored as ['normal']) and a table of
    [max(3, L + 1)] entries, [L] the length of the longest trajectory. *)
Theorem constructor_contract (observations : list (list float))
  (name : string) (thr : float) :
  let valid_name :=
    name = "log_normal" \/ name = "normal" \/ name = "gaussian" in
  (observations <> [] /\ valid_name ->
   exists self,
     __init__ observations name thr = inr self
     /\ _observations self = observations
     /\ nobservations self = length observations
     /\ observation_lengths self = map length observations
     /\ threshold self = thr
     /\ change_points self = ∅
     /\ state_emission self = ∅
     /\ step_function self = ∅
     /\ _distribution self
        = (if String.eqb name "log_normal" then LogNormal else Normal)
     /\ distribution self = model_name (_distribution self)
     /\ length (loggamma self) = 3 `max` (max_length observations + 1))
  /\ (~ (observations <> [] /\ valid_name) ->
      __init__ observations name thr = inl ValueError).
Proof.
  intros valid_name. unfold valid_name.
  unfold __init__, _generate_loggamma_table. cbn [_Ts].
  destruct (String.eqb_spec name "log_normal") as [->|H1].
  - destruct observations as [|obs observations].
    + split; [by intros [? _]|done].
    + split; [|intros []; split; [done|by left]].
      intros _. eexists. split; [reflexivity|].
      cbn [map]. rewrite table_loop. cbn.
      do 9 (split; [done|]).
      rewrite length_map. unfold range, max_length. rewrite length_seq.
      cbn [map foldr]. lia.
  - destruct (String.eqb_spec name "normal") as [->|H2].
    + destruct observations as [|obs observations].
      * split; [by intros [? _]|done].
      * split; [|intros []; split; [done|by right; left]].
        intros _. eexists. split; [reflexivity|].
        cbn [map]. rewrite table_loop. cbn.
        do 9 (split; [done|]).
        rewrite length_map. unfold range, max_length. rewrite length_seq.
        cbn [map foldr]. lia.
    + destruct (String.eqb_spec name "gaussian") as [->|H3].
      * destruct observations as [|obs observations].
        -- split; [by intros [? _]|done].
        -- split; [|intros []; split; [done|by right; right]].
           intros _. eexists. split; [reflexivity|].
           cbn [map]. rewrite table_loop. cbn.
           do 9 (split; [done|]).
           rewrite length_map. unfold range, max_length. rewrite length_seq.
           cbn [map foldr]. lia.
      * cbn [orb]. split; [|done].
        intros [_ [?|[?|?]]]; done.
Qed.

End Constructor.

(** ** The two distribution models *)

Section Models.

Context {libm : Libm}.

Lemma lognormal_is_normal_of_logarithms_aux (data : list float) :
  mean_var LogNormal data = mean_var Normal (map np_log data).
Proof.
  unfold mean_var, np_var, np_mean. by rewrite !length_map.
Qed.

Lemma slice_map {A B} (f : A -> B) (a : list A) (lo hi : nat) :
  slice (map f a) lo hi = map f (slice a lo hi).
Proof.
  unfold slice. change (map f) with (fmap (M := list) f).
  by rewrite fmap_take, fmap_drop.
Qed.

Lemma split_weight_logarithms (a b : Detector) (obs : list float)
  (i : nat) :
  _distribution a = LogNormal -> _distribution b = Normal ->
  loggamma a = loggamma b ->
  split_weight a obs i = split_weight b (map np_log obs) i.
Proof.
  intros Ha Hb Ht. unfold split_weight.
  rewrite Ha, Hb, Ht, slice_map.
  change (drop i (map np_log obs)) with (drop i (np_log <$> obs)).
  rewrite <- fmap_drop. change (np_log <$> drop i obs)
    with (map np_log (drop i obs)).
  rewrite !length_map, !lognormal_is_normal_of_logarithms_aux.
  reflexivity.
Qed.

Lemma bf_logarithms (a b : Detector) (obs : list float) :
  _distribution a = LogNormal -> _distribution b = Normal ->
  loggamma a = loggamma b -> threshold a = threshold b ->
  _normal_lognormal_bf a obs = _normal_lognormal_bf b (map np_log obs).
Proof.
  intros Ha Hb Ht Hthr. unfold _normal_lognormal_bf.
  rewrite length_map. destruct (length obs <? 6); [done|].
  rewrite Ha, Hb, Ht, Hthr, lognormal_is_normal_of_logarithms_aux.
  destruct (mean_var Normal (map np_log obs)) as [mean var].
  destruct (index (loggamma b) (length obs)) as [e|lg_n]; [done|].
  cbn [mbind raises_bind].
  rewrite (for_each_ext _
    (fun weights i =>
       w ← split_weight b (map np_log obs) i; mret (weights ++ [w]))).
  { reflexivity. }
  intros ws i _. by rewrite (split_weight_logarithms a b).
Qed.

(** X2. Segmenting under the log-normal model is segmenting the
    logarithms of the data under the normal model: the location and scale
    of a segment are the mean and variance of its logarithms, the scorer
    gives the same outcome, and [_split] records the same change points
    with the same log odds, or raises the same exception. *)
Theorem lognormal_is_normal_of_logarithms (self : Detector) :
  _distribution self = LogNormal ->
  (forall data, mean_var LogNormal data = mean_var Normal (map np_log data))
  /\ (forall obs,
        _normal_lognormal_bf self obs
        = _normal_lognormal_bf (with_model self Normal) (map np_log obs))
  /\ (forall fuel obs start end_ itraj,
        partial_map change_points (_split fuel self obs start end_ itraj)
        = partial_map change_points
            (_split fuel (with_model self Normal) (map np_log obs)
               start end_ itraj)).
Proof.
  intros Hd. split; [apply lognormal_is_normal_of_logarithms_aux|].
  split; [intros obs; by apply bf_logarithms|].
  intros fuel obs start end_ itraj.
  assert (Hgen : forall a b : Detector,
             _distribution a = LogNormal -> _distribution b = Normal ->
             loggamma a = loggamma b -> threshold a = threshold b ->
             change_points a = change_points b ->
             forall start end_,
               partial_map change_points (_split fuel a obs start end_ itraj)
               = partial_map change_points
                   (_split fuel b (map np_log obs) start end_ itraj)).
  { clear. induction fuel as [|fuel IH];
      intros a b Ha Hb Ht Hthr Hcp start end_; [done|].
    cbn [_split]. rewrite slice_map.
    rewrite <- (bf_logarithms a b _ Ha Hb Ht Hthr).
    destruct (_normal_lognormal_bf a (slice obs start end_))
      as [e|[[i lo]|]]; cbn; [done| |by rewrite Hcp].
    unfold get_change_points. rewrite <- Hcp.
    destruct (change_points a !! traj_key itraj) as [frame|]; [|done].
    cbn.
    set (a0 := set_change_points a _ _).
    set (b0 := set_change_points b _ _).
    assert (H0 : partial_map change_points
                   (_split fuel a0 obs start (start + i) itraj)
                 = partial_map change_points
                     (_split fuel b0 (map np_log obs) start (start + i)
                        itraj)).
    { apply IH; try done. unfold a0, b0. cbn. by rewrite Hcp. }
    destruct (_split fuel a0 obs start (start + i) itraj)
      as [[e|a1]|] eqn:Ha1;
      destruct (_split fuel b0 (map np_log obs) start (start + i) itraj)
      as [[e'|b1]|] eqn:Hb1; cbn in H0; try done.
    injection H0 as H0. cbn.
    apply split_same_config in Ha1 as (Hd1 & Ht1 & Hthr1).
    apply split_same_config in Hb1 as (Hd2 & Ht2 & Hthr2).
    apply IH; try done; cbn in *; congruence. }
  apply Hgen; done.
Qed.

End Models.

Lemma lognormal_is_normal_of_logarithms_witness :
  _distribution (Examples.construct [Examples.two_levels] "log_normal"
                   F64.zero) = LogNormal
  /\ _normal_lognormal_bf (libm := Coarse.libm)
       (Examples.construct [Examples.two_levels] "log_normal" F64.zero)
       Examples.two_levels
     = _normal_lognormal_bf (libm := Coarse.libm)
         (with_model
            (Examples.construct [Examples.two_levels] "log_normal" F64.zero)
            Normal)
         (map Coarse.log Examples.two_levels).
Proof.
  split; [reflexivity|].
  pose proof (@lognormal_is_normal_of_logarithms Coarse.libm
                (Examples.construct [Examples.two_levels] "log_normal"
                   F64.zero) eq_refl) as (_ & H & _).
  exact (H Examples.two_levels).
Defined.

(** ** The threshold *)

Section Threshold.

Context {libm : Libm}.

Lemma np_argmax_mask_defined (weights : list float) :
  exists i, np_argmax (mask_weights (weights ++ [F64.zero; F64.zero])) = inr i.
Proof.
  assert (Hlen : length (mask_weights (weights ++ [F64.zero; F64.zero]))
                 = length weights + 2).
  { unfold mask_weights. by rewrite !length_insert, length_app. }
  destruct (mask_weights _) as [|x l]; [cbn in Hlen; lia|].
  by eexists.
Qed.

(** X3. The threshold only gates the result of the scorer: the log odds
    and the split index do not depend on it. Under another threshold an
    exception stays the same exception, and an accepted split [(i, lo)]
    stays the same split unless [lo] is below the other threshold, when
    the segment is left unsplit. *)
Theorem threshold_only_gates (self : Detector) (obs : list float)
  (thr : float) :
  match _normal_lognormal_bf self obs with
  | inl e => _normal_lognormal_bf (with_threshold self thr) obs = inl e
  | inr (Some (i, lo)) =>
      _normal_lognormal_bf (with_threshold self thr) obs
      = if F64.ltb lo thr then inr None else inr (Some (i, lo))
  | inr None =>
      forall e, _normal_lognormal_bf (with_threshold self thr) obs <> inl e
  end.
Proof.
  unfold _normal_lognormal_bf.
  cbn [_distribution loggamma threshold with_threshold].
  destruct (length obs <? 6); [by intros e|].
  destruct (mean_var (_distribution self) obs) as [mean var].
  destruct (index (loggamma self) (length obs)) as [e|lg_n]; [done|].
  cbn [mbind raises_bind].
  change (for_each
            (fun weights i =>
               w ← split_weight (with_threshold self thr) obs i;
               mret (weights ++ [w])))
    with (for_each
            (fun weights i =>
               w ← split_weight self obs i; mret (weights ++ [w]))).
  destruct (for_each _ _ _) as [e|weights]; [done|].
  cbn [mbind raises_bind].
  set (lo := (_ - _)%f64).
  destruct (F64.isnan lo) eqn:Hnan; [done|].
  destruct (np_argmax_mask_defined weights) as [i ->].
  destruct (F64.ltb lo (threshold self)), (F64.ltb lo thr) eqn:Hthr;
    cbn; rewrite ?Hthr; done.
Qed.

End Threshold.

(** ** Samples outside the domain of the model *)

Module NonFinite.

Import F64Facts.

Lemma add_nan_l x : (F64.nan + x)%f64 = F64.nan.
Proof. done. Qed.

Lemma add_nan_r x : (x + F64.nan)%f64 = F64.nan.
Proof. by destruct x. Qed.

Lemma sub_nan_l x : (F64.nan - x)%f64 = F64.nan.
Proof. done. Qed.

Lemma sub_nan_r x : (x - F64.nan)%f64 = F64.nan.
Proof. by destruct x. Qed.

Lemma mul_nan_l x : (F64.nan * x)%f64 = F64.nan.
Proof. done. Qed.

Lemma mul_nan_r x : (x * F64.nan)%f64 = F64.nan.
Proof. by destruct x. Qed.

Lemma div_nan_l x : (F64.nan / x)%f64 = F64.nan.
Proof. done. Qed.

Lemma add_low_l x y : F64.low x -> F64.low (x + y)%f64.
Proof.
  intros [->| ->]; [|by right].
  destruct y as [s|[]| |s m e]; cbn; unfold F64.low; auto.
Qed.

Lemma add_high_l x y : high x -> high (x + y)%f64.
Proof.
  intros [->| ->]; [|by right].
  destruct y as [s|[]| |s m e]; cbn; unfold high; auto.
Qed.

Lemma add_high_r x y : high y -> high (x + y)%f64.
Proof.
  intros [->| ->]; [|right; apply add_nan_r].
  destruct x as [s|[]| |s m e]; cbn; unfold high; auto.
Qed.

Lemma div_high_of_nat x n : high x -> high (x / F64.of_nat n)%f64.
Proof.
  intros [->| ->]; [|by right].
  pose proof (of_nat_sign n) as Hs.
  destruct (F64.of_nat n) as [s|s| |s m e]; cbn; unfold high; subst; auto.
Qed.

(** A sum keeps what an element brought into it: NaN stays, an infinity
    stays or becomes NaN. *)
Lemma fold_add_kept (P : float -> Prop) (l : list float) (acc : float) :
  (forall x y, P x -> P (x + y)%f64) ->
  P acc -> P (fold_left F64.add l acc).
Proof.
  intros Hl. revert acc. induction l as [|y l IH]; intros acc Hacc; [done|].
  cbn. apply IH. by apply Hl.
Qed.

Lemma np_sum_kept (P : float -> Prop) (a : list float) (x : float) :
  (forall x y, P x -> P (x + y)%f64) ->
  (forall x y, P y -> P (x + y)%f64) ->
  x ∈ a -> P x -> P (np_sum a).
Proof.
  intros Hl Hr Hin Hx. destruct a as [|x0 a]; [by apply elem_of_nil in Hin|].
  cbn [np_sum]. apply elem_of_cons in Hin as [->|Hin].
  { by apply fold_add_kept. }
  revert x0. induction a as [|y a IH]; intros x0;
    [by apply elem_of_nil in Hin|].
  cbn [fold_left]. apply elem_of_cons in Hin as [->|Hin].
  - apply fold_add_kept; [done|]. by apply Hr.
  - by apply IH.
Qed.

Lemma np_sum_nan (a : list float) : F64.nan ∈ a -> np_sum a = F64.nan.
Proof.
  intros Hin. apply (np_sum_kept is_nan a F64.nan); try done.
  - by intros x y ->.
  - intros x y ->. apply add_nan_r.
Qed.

Lemma np_mean_nan (a : list float) : F64.nan ∈ a -> np_mean a = F64.nan.
Proof. intros Hin. unfold np_mean. by rewrite np_sum_nan. Qed.

Lemma np_mean_low (a : list float) :
  F64.neg_inf ∈ a -> F64.low (np_mean a).
Proof.
  intros Hin. unfold np_mean. apply div_low_of_nat.
  apply (np_sum_kept F64.low a F64.neg_inf); try done.
  - apply add_low_l.
  - intros x y. apply add_low_r.
  - by left.
Qed.

Lemma np_mean_high (a : list float) : F64.inf ∈ a -> high (np_mean a).
Proof.
  intros Hin. unfold np_mean. apply div_high_of_nat.
  apply (np_sum_kept high a F64.inf); try done.
  - apply add_high_l.
  - apply add_high_r.
  - by left.
Qed.

(** The variance of an array that holds a NaN or an infinity is NaN. *)
Lemma np_var_nonfinite (a : list float) (x : float) :
  x ∈ a -> F64.is_finite x = false -> np_var a = F64.nan.
Proof.
  intros Hin Hx. unfold np_var. apply np_mean_nan.
  apply list_elem_of_fmap. exists x. split; [|done].
  destruct x as [s|[]| |s m e]; try done.
  - destruct (np_mean_low a Hin) as [->| ->]; reflexivity.
  - destruct (np_mean_high a Hin) as [->| ->]; reflexivity.
Qed.

End NonFinite.

Section BadSamples.

Context {libm : Libm}.

Import NonFinite.

(** A segment whose variance is NaN makes the log odds NaN. *)
Lemma var_nan_raises (self : Detector) (obs : list float) :
  np_log F64.nan = F64.nan ->
  6 <= length obs -> length obs < length (loggamma self) ->
  (mean_var (_distribution self) obs).2 = F64.nan ->
  _normal_lognormal_bf self obs = inl ValueError.
Proof.
  intros Hlog Hn Ht Hvar. rewrite (bf_spec self obs Hn Ht).
  unfold decision, spec_log_odds, spec_denom. rewrite Hvar.
  by rewrite mul_nan_r, Hlog, mul_nan_r, add_nan_r, add_nan_l, sub_nan_r.
Qed.

Lemma log_outside_domain (x : float) :
  ieee_log -> positive_finite x = false ->
  F64.is_finite (np_log x) = false.
Proof.
  intros (Hnan & Hzero & Hinf & Hninf & Hneg) Hx.
  destruct x as [s|[]| |[] m e]; try done.
  - by rewrite Hzero.
  - unfold F64.neg_inf in Hninf. by rewrite Hninf.
  - unfold F64.inf in Hinf. by rewrite Hinf.
  - unfold F64.nan in Hnan. by rewrite Hnan.
  - by rewrite Hneg.
Qed.

(** X4. Under the normal model, a segment of at least 6 samples that
    holds a NaN or an infinity always makes the scorer raise
    [ValueError], whatever the threshold and the other samples are (the
    logarithm of NaN being NaN): its variance is NaN, and so are the log
    odds. *)
Theorem normal_nonfinite_sample_raises (self : Detector)
  (obs : list float) (x : float) :
  np_log F64.nan = F64.nan ->
  _distribution self = Normal ->
  6 <= length obs -> length obs < length (loggamma self) ->
  x ∈ obs -> F64.is_finite x = false ->
  _normal_lognormal_bf self obs = inl ValueError.
Proof.
  intros Hlog Hd Hn Ht Hin Hx. apply var_nan_raises; try done.
  rewrite Hd. cbn. by apply (np_var_nonfinite obs x).
Qed.

(** X5. Under the log-normal model, a segment of at least 6 samples that
    holds a sample outside the positive finite numbers (a zero, a negative
    number, an infinity or a NaN) always makes the scorer raise
    [ValueError], the logarithm behaving as IEEE 754 has it there. *)
Theorem lognormal_sample_outside_domain_raises (self : Detector)
  (obs : list float) (x : float) :
  ieee_log ->
  _distribution self = LogNormal ->
  6 <= length obs -> length obs < length (loggamma self) ->
  x ∈ obs -> positive_finite x = false ->
  _normal_lognormal_bf self obs = inl ValueError.
Proof.
  intros Hlog Hd Hn Ht Hin Hx. apply var_nan_raises; try done.
  { apply Hlog. }
  rewrite Hd, lognormal_is_normal_of_logarithms_aux. cbn.
  apply (np_var_nonfinite _ (np_log x)).
  - apply list_elem_of_fmap. by exists x.
  - by apply log_outside_domain.
Qed.

End BadSamples.

Lemma coarse_ieee_log : ieee_log (libm := Coarse.libm).
Proof. by repeat split. Qed.

Lemma normal_nonfinite_sample_raises_witness :
  F64.nan ∈ Inputs.with_nan
  /\ _normal_lognormal_bf (libm := Coarse.libm)
       (Examples.construct [Inputs.with_nan] "normal" F64.zero)
       Inputs.with_nan
     = inl ValueError.
Proof.
  assert (Hin : F64.nan ∈ Inputs.with_nan).
  { apply list_elem_of_In. cbn. right; right; left. reflexivity. }
  split; [exact Hin|].
  apply (@normal_nonfinite_sample_raises Coarse.libm
           (Examples.construct [Inputs.with_nan] "normal" F64.zero)
           Inputs.with_nan F64.nan).
  - reflexivity.
  - reflexivity.
  - vm_compute. lia.
  - vm_compute. lia.
  - exact Hin.
  - reflexivity.
Defined.

Lemma lognormal_sample_outside_domain_raises_witness :
  F64.of_Z (-1) ∈ Examples.zero_mean_head
  /\ _normal_lognormal_bf (libm := Coarse.libm)
       (Examples.construct [Examples.zero_mean_head] "log_normal" F64.zero)
       Examples.zero_mean_head
     = inl ValueError.
Proof.
  assert (Hin : F64.of_Z (-1) ∈ Examples.zero_mean_head).
  { apply list_elem_of_In. cbn. right; left. reflexivity. }
  split; [exact Hin|].
  apply (@lognormal_sample_outside_domain_raises Coarse.libm
           (Examples.construct [Examples.zero_mean_head] "log_normal"
              F64.zero)
           Examples.zero_mean_head (F64.of_Z (-1))).
  - apply coarse_ieee_log.
  - reflexivity.
  - vm_compute. lia.
  - vm_compute. lia.
  - exact Hin.
  - reflexivity.
Defined.

(** ** The records of the segmenter *)

Section Records.

Context {libm : Libm}.

Lemma bf_accepted_log_odds (self : Detector) (obs : list float) (i : nat)
  (lo : float) :
  _normal_lognormal_bf self obs = inr (Some (i, lo)) ->
  F64.isnan lo = false /\ F64.ltb lo (threshold self) = false.
Proof.
  intros Hres.
  destruct (decide (length obs < 6)) as [Hn|Hn].
  { by rewrite bf_short in Hres. }
  destruct (decide (length obs < length (loggamma self))) as [Ht|Ht].
  2:{ rewrite bf_table_short in Hres by lia. done. }
  destruct (bf_cases self obs ltac:(lia) Ht)
    as [[_ H]|[(_ & _ & H)|(Hnan & Hlt & j & H & _)]]; rewrite H in Hres;
    [done|done|].
  by injection Hres as _ <-.
Qed.

Lemma record_ok_weaken (thr : float) (s e s' e' : nat) (r : cp_row) :
  s' <= s -> e <= e' -> record_ok thr s e r -> record_ok thr s' e' r.
Proof.
  unfold record_ok. intros ? ? (? & ? & ? & ? & ? & ?).
  repeat split; (done || lia).
Qed.

(** The rows of a window are records of accepted splits inside it, the
    first one of the window itself; sorted, their change points are at
    least three positions apart. *)
Lemma split_rows_records (fuel : nat) :
  forall (self : Detector) (obs : list float) (start end_ : nat)
    (rows : list cp_row),
    split_rows fuel self obs start end_ = Some (inr rows) ->
    Forall (record_ok (threshold self) start end_) rows
    /\ (forall r, head rows = Some r -> start_end r = (start, end_))
    /\ exists l,
         l ≡ₚ map ts rows
         /\ StronglySorted gap3 l
         /\ Forall (fun t => start + 3 <= t /\ t + 3 <= end_
                             /\ t + 3 <= length obs) l.
Proof.
  induction fuel as [|fuel IH]; intros self obs start end_ rows; [done|].
  simpl.
  destruct (_normal_lognormal_bf self _) as [e|[[i lo]|]] eqn:Hbf; simpl;
    [done| |].
  2:{ intros [= <-]. split; [constructor|]. split; [done|].
      exists []. split; [done|]. split; constructor. }
  destruct (bf_accepted_cases _ _ _ _ Hbf) as [Hn [Hi|[-> _]]].
  2:{ rewrite Nat.add_0_r.
      destruct (split_rows fuel self obs start start) as [[e|left]|];
        simpl; [done| |done].
      by rewrite (split_rows_stuck _ _ _ _ lo fuel). }
  destruct (bf_accepted_log_odds _ _ _ _ Hbf) as [Hnan Hlt].
  pose proof (length_slice_le obs start end_) as [Hlen1 Hlen2].
  destruct (split_rows fuel self obs start (start + i))
    as [[e|left]|] eqn:Hl; simpl; [done| |done].
  destruct (split_rows fuel self obs (start + i) end_)
    as [[e|right]|] eqn:Hr; simpl; [done| |done].
  intros [= <-].
  apply IH in Hl as (Hlok & _ & ll & Hlp & Hls & Hlb).
  apply IH in Hr as (Hrok & _ & lr & Hrp & Hrs & Hrb).
  split; [|split].
  - apply Forall_cons; split.
    { unfold record_ok. cbn. repeat split; (done || lia). }
    apply Forall_app; split.
    + eapply Forall_impl; [exact Hlok|]. intros r.
      apply record_ok_weaken; lia.
    + eapply Forall_impl; [exact Hrok|]. intros r.
      apply record_ok_weaken; lia.
  - by intros r [= <-].
  - exists (ll ++ (start + i) :: lr). split; [|split].
    + cbn [map ts]. rewrite map_app, <- Hlp, <- Hrp.
      by rewrite Permutation_middle.
    + rewrite Forall_forall in Hlb, Hrb.
      apply StronglySorted_app_2; [|done|].
      * intros x1 x2 Hx1 [->|Hx2]%elem_of_cons.
        -- specialize (Hlb x1 Hx1). unfold gap3. lia.
        -- specialize (Hlb x1 Hx1). specialize (Hrb x2 Hx2).
           unfold gap3. lia.
      * constructor; [done|]. apply Forall_forall. intros x Hx.
        specialize (Hrb x Hx). unfold gap3. lia.
    + apply Forall_app; split; [|apply Forall_cons; split].
      * eapply Forall_impl; [exact Hlb|]. cbn. lia.
      * lia.
      * eapply Forall_impl; [exact Hrb|]. cbn. lia.
Qed.

(** X6. [_split] changes nothing of the detector but the frame of its
    trajectory, and only appends to it. Every record it appends has log
    odds that are a number not below the threshold, a window
    [start_end] inside the window of the call, and a change point at
    least three positions inside its own window; the first one records
    the window of the call itself, and the change points are pairwise
    distinct. *)
Theorem split_appends_records (fuel : nat) (self self' : Detector)
  (obs : list float) (start end_ itraj : nat) (frame : list cp_row) :
  change_points self !! traj_key itraj = Some frame ->
  _split fuel self obs start end_ itraj = Some (inr self') ->
  exists rows,
    self' = set_change_points self (traj_key itraj) (frame ++ rows)
    /\ Forall (record_ok (threshold self) start end_) rows
    /\ (forall r, head rows = Some r -> start_end r = (start, end_))
    /\ NoDup (map ts rows).
Proof.
  intros Hf Hrun. rewrite (split_rows_spec fuel _ _ _ _ _ _ Hf) in Hrun.
  destruct (split_rows fuel self obs start end_) as [[e|rows]|] eqn:Hrows;
    [done| |done].
  cbn in Hrun. injection Hrun as <-.
  exists rows. split; [done|].
  destruct (split_rows_records _ _ _ _ _ _ Hrows) as (Hok & Hhead & _).
  destruct (split_rows_ok _ _ _ _ _ _ Hrows) as [_ Hnd].
  done.
Qed.

End Records.

Lemma split_appends_records_witness :
  change_points Inputs.before_split !! traj_key 0 = Some []
  /\ exists rows,
       Inputs.after_split
       = set_change_points Inputs.before_split (traj_key 0) ([] ++ rows)
       /\ Forall (record_ok (threshold Inputs.before_split) 0 6) rows
       /\ (forall r, head rows = Some r -> start_end r = (0, 6))
       /\ NoDup (map ts rows).
Proof.
  split; [reflexivity|].
  apply (@split_appends_records Coarse.libm 7 Inputs.before_split
           Inputs.after_split Examples.two_levels 0 6 0 []).
  - reflexivity.
  - vm_compute. reflexivity.
Defined.

(** ** What detection leaves in the frames *)

Section Detected.

Context {libm : Libm} {pandas : Pandas}.

Lemma sort_ts_column_log_odds (frame : list cp_row) :
  map log_odds (sort_ts_column frame) = map log_odds frame.
Proof.
  unfold sort_ts_column. destruct values_is_view; [|done].
  assert (Hlen : length (np_sort (map ts frame)) = length frame).
  { unfold np_sort. by rewrite merge_sort_Permutation, length_map. }
  revert Hlen. generalize (np_sort (map ts frame)).
  induction frame as [|row frame IH]; intros [|t l] Hlen; try done.
  cbn. f_equal. apply IH. cbn in Hlen. lia.
Qed.

Lemma sort_ts_column_ts (frame : list cp_row) :
  map ts (sort_ts_column frame) ≡ₚ map ts frame.
Proof.
  unfold sort_ts_column. destruct values_is_view; [|done].
  assert (Hp : np_sort (map ts frame) ≡ₚ map ts frame).
  { unfold np_sort. by rewrite merge_sort_Permutation. }
  rewrite <- Hp at 2.
  assert (Hlen : length (np_sort (map ts frame)) = length frame).
  { by rewrite Hp, length_map. }
  revert Hlen. generalize (np_sort (map ts frame)). clear Hp.
  intros l Hlen. apply reflexive_eq. revert l Hlen.
  induction frame as [|row frame IH]; intros [|t l] Hlen; try done.
  cbn. f_equal. apply IH. cbn in Hlen. lia.
Qed.

Lemma gap3_count (l : list nat) (lo hi : nat) :
  StronglySorted gap3 l ->
  Forall (fun t => lo + 3 <= t /\ t + 3 <= hi) l ->
  l = [] \/ lo + 3 * (length l + 1) <= hi.
Proof.
  revert lo. induction l as [|t l IH]; intros lo Hs Hb; [by left|].
  right. apply StronglySorted_inv in Hs as [Hs Ht].
  apply Forall_cons in Hb as [Hbt Hb].
  destruct (IH t Hs) as [->|Hc].
  - apply Forall_forall. intros x Hx.
    rewrite Forall_forall in Ht, Hb.
    specialize (Ht x Hx). specialize (Hb x Hx). unfold gap3 in Ht. lia.
  - cbn. lia.
  - cbn [length]. lia.
Qed.

Lemma np_sort_gap3 (l l' : list nat) :
  l' ≡ₚ l -> StronglySorted gap3 l' -> np_sort l = l'.
Proof.
  intros Hp Hs. unfold np_sort.
  assert (Hle : StronglySorted le l').
  { clear Hp. induction Hs as [|t l0 Hs IH Ht]; constructor; [exact IH|].
    eapply Forall_impl; [exact Ht|]. unfold gap3. lia. }
  apply (Sorted_unique le).
  - apply Sorted_merge_sort; apply _.
  - by apply StronglySorted_Sorted.
  - by rewrite merge_sort_Permutation.
Qed.

(** What a successful detection leaves for a trajectory, in terms of the
    rows of [_split]. *)
Lemma detected_frame (fuel : nat) (self self' : Detector) (k : nat)
  (obs : list float) (cps : list cp_row) :
  well_formed self ->
  detect_cp fuel self = Some (inr self') ->
  _observations self !! k = Some obs ->
  change_points self' !! traj_key k = Some cps ->
  exists rows,
    split_rows fuel self obs 0 (length obs) = Some (inr rows)
    /\ cps = sort_ts_column rows.
Proof.
  intros Hwf Hrun Hobs Hcp.
  destruct (detect_cp_trajectory _ _ _ _ _ Hwf Hrun Hobs)
    as (rows & cp & se & sf & Hsp & Hlen & Hrec & Hat).
  unfold results_at in Hat. injection Hat as Hcp' _ _.
  rewrite Hcp in Hcp'. injection Hcp' as ->.
  exists rows. split; [done|].
  unfold reconstruct in Hrec. rewrite Hlen in Hrec. cbn in Hrec.
  destruct rows as [|row rows].
  - destruct (length obs =? 0); [done|]. injection Hrec as <- _ _.
    symmetry. by apply sort_ts_column_nil.
  - destruct (mean_var _ _). by injection Hrec as <- _ _.
Qed.

(** X7. After detection, every Change Point Record of a trajectory has
    log odds that are a number not below the threshold; its change point
    lies at least three positions from both ends of the trajectory; the
    sorted change points are at least three positions apart; and so a
    trajectory of [n] samples has at most [n / 3 - 1] change points. *)
Theorem detected_change_points_spaced (fuel : nat) (self self' : Detector)
  (k : nat) (obs : list float) (cps : list cp_row) :
  well_formed self ->
  detect_cp fuel self = Some (inr self') ->
  _observations self !! k = Some obs ->
  change_points self' !! traj_key k = Some cps ->
  Forall (fun lo => F64.isnan lo = false
                    /\ F64.ltb lo (threshold self) = false)
    (map log_odds cps)
  /\ Forall (fun t => 3 <= t /\ t + 3 <= length obs) (map ts cps)
  /\ StronglySorted gap3 (np_sort (map ts cps))
  /\ (cps = [] \/ 3 * (length cps + 1) <= length obs).
Proof.
  intros Hwf Hrun Hobs Hcp.
  destruct (detected_frame _ _ _ _ _ _ Hwf Hrun Hobs Hcp)
    as (rows & Hsp & ->).
  destruct (split_rows_records _ _ _ _ _ _ Hsp)
    as (Hok & _ & l & Hp & Hs & Hb).
  assert (Hb' : Forall (fun t => 0 + 3 <= t /\ t + 3 <= length obs) l).
  { eapply Forall_impl; [exact Hb|]. cbn. lia. }
  split; [|split; [|split]].
  - rewrite sort_ts_column_log_odds. apply Forall_fmap.
    eapply Forall_impl; [exact Hok|]. intros r (? & ? & _). done.
  - rewrite sort_ts_column_ts, <- Hp.
    eapply Forall_impl; [exact Hb'|]. cbn. lia.
  - rewrite np_sort_sort_ts_column. by rewrite (np_sort_gap3 _ l).
  - destruct (gap3_count l 0 (length obs) Hs Hb') as [->|Hc].
    + left. apply sort_ts_column_nil.
      apply Permutation_nil_l in Hp. by destruct rows.
    + right. rewrite length_sort_ts_column.
      rewrite <- (length_map ts rows), <- Hp. lia.
Qed.

(** The sorted change points detection leaves: at least three positions
    apart from each other and from both ends of the trajectory. *)
Lemma detected_sorted (fuel : nat) (self self' : Detector) (k : nat)
  (obs : list float) (cps : list cp_row) :
  well_formed self ->
  detect_cp fuel self = Some (inr self') ->
  _observations self !! k = Some obs ->
  change_points self' !! traj_key k = Some cps ->
  StronglySorted gap3 (np_sort (map ts cps))
  /\ Forall (fun t => 3 <= t /\ t + 3 <= length obs)
       (np_sort (map ts cps))
  /\ length (np_sort (map ts cps)) = length cps.
Proof.
  intros Hwf Hrun Hobs Hcp.
  destruct (detected_frame _ _ _ _ _ _ Hwf Hrun Hobs Hcp)
    as (rows & Hsp & ->).
  destruct (split_rows_records _ _ _ _ _ _ Hsp)
    as (_ & _ & l & Hp & Hs & Hb).
  rewrite np_sort_sort_ts_column, (np_sort_gap3 _ l) by done.
  split; [done|]. split.
  - eapply Forall_impl; [exact Hb|]. cbn. lia.
  - by rewrite length_sort_ts_column, Hp, length_map.
Qed.

Lemma partitions_after_nonempty (hi : nat) (rest : list nat) :
  forall j,
    StronglySorted gap3 (j :: rest) ->
    Forall (fun t => t + 2 <= hi) (j :: rest) ->
    Forall (fun p => p.1 < p.2 /\ p.2 <= hi)
      (partitions_after hi (j :: rest))
    /\ length (partitions_after hi (j :: rest)) = S (length rest).
Proof.
  induction rest as [|next rest IH]; intros j Hs Hb.
  - apply Forall_cons in Hb as [Hj _]. cbn. split; [|done].
    constructor; [cbn; lia|constructor].
  - apply StronglySorted_inv in Hs as [Hs Hj].
    apply Forall_cons in Hb as [Hbj Hb].
    destruct (IH next Hs Hb) as [IH1 IH2].
    cbn [partitions_after] in *. split.
    + constructor; [|exact IH1].
      apply Forall_cons in Hj as [Hj _].
      apply Forall_cons in Hb as [Hbn _]. unfold gap3 in Hj. cbn. lia.
    + cbn [length] in *. lia.
Qed.

(** X8. After detection, a trajectory with [c >= 1] change points has
    [c + 1] State-Emission rows, and the statistics of every row are
    those of a slice [obs[a:b]] of the trajectory that is not empty:
    [a < b < len(obs)], so that the slice has [b - a >= 1] samples and
    the mean and variance never divide by zero. *)
Theorem state_emission_rows (fuel : nat) (self self' : Detector)
  (k : nat) (obs : list float) (cps : list cp_row) :
  well_formed self ->
  detect_cp fuel self = Some (inr self') ->
  _observations self !! k = Some obs ->
  change_points self' !! traj_key k = Some cps ->
  cps <> [] ->
  exists se,
    state_emission self' !! traj_key k = Some se
    /\ length se = length cps + 1
    /\ Forall
         (fun row =>
            let '(a, b) := partition row in
            a < b < length obs
            /\ length (slice obs a b) = b - a
            /\ (sample_mu row, sample_sigma row)
               = mean_var (_distribution self) (slice obs a b))
         se.
Proof.
  intros Hwf Hrun Hobs Hcp Hne.
  destruct (detect_cp_split _ _ _ _ _ _ Hwf Hrun Hobs Hcp Hne)
    as (Htss & _ & _ & _ & Hse & _).
  destruct (detected_sorted _ _ _ _ _ _ Hwf Hrun Hobs Hcp)
    as (Hs & Hb & Hlen).
  eexists. split; [exact Hse|].
  destruct (np_sort (map ts cps)) as [|t0 tss] eqn:Hsort; [done|].
  destruct (partitions_after_nonempty (length obs - 1) tss t0 Hs)
    as [Hparts Hcount].
  { eapply Forall_impl; [exact Hb|]. cbn. lia. }
  split.
  - rewrite length_map. unfold partitions_of. cbn [length].
    rewrite Hcount. cbn [length] in Hlen. lia.
  - apply Forall_fmap. unfold partitions_of.
    apply Forall_cons in Hb as [Ht0 _].
    assert (Hrow : forall p : nat * nat,
               p.1 < p.2 /\ p.2 <= length obs - 1 ->
               let '(a, b) := partition (stat_row (_distribution self) obs p)
               in a < b < length obs
                  /\ length (slice obs a b) = b - a
                  /\ (sample_mu (stat_row (_distribution self) obs p),
                      sample_sigma (stat_row (_distribution self) obs p))
                     = mean_var (_distribution self) (slice obs a b)).
    { intros [a b] [Hab Hbl]. cbn in *. split; [lia|]. split.
      - unfold slice. rewrite length_take, length_drop. lia.
      - by destruct (mean_var _ _). }
    constructor.
    + apply (Hrow (0, t0)). cbn. lia.
    + eapply Forall_impl; [exact Hparts|]. intros p Hp. by apply Hrow.
Qed.

(** X9. A detection that returns has changed nothing of what the
    constructor set (trajectories, their number and lengths, model,
    table, threshold); in each of the three dictionaries it has written
    the key [traj_k] of every trajectory [k], and no other key: every
    other entry, present or absent, is as it was. *)
Theorem detect_cp_writes_its_keys_only (fuel : nat)
  (self self' : Detector) :
  detect_cp fuel self = Some (inr self') ->
  same_config self self'
  /\ same_input self self'
  /\ (forall k, k < _nobs self ->
        is_Some (change_points self' !! traj_key k)
        /\ is_Some (state_emission self' !! traj_key k)
        /\ is_Some (step_function self' !! traj_key k))
  /\ (forall key, (forall k, k < _nobs self -> key <> traj_key k) ->
        change_points self' !! key = change_points self !! key
        /\ state_emission self' !! key = state_emission self !! key
        /\ step_function self' !! key = step_function self !! key).
Proof.
  intros Hrun. unfold detect_cp in Hrun.
  destruct (detect_cp_loop_spec _ _ _ _ (NoDup_seq _ _) Hrun)
    as (Hc & Hi & Hres & Hother).
  split; [done|]. split; [done|]. split.
  - intros k Hk. destruct (Hres k) as (cp & se & sf & _ & Hat).
    { unfold range. apply list_elem_of_In, in_seq. lia. }
    unfold results_at in Hat. injection Hat as -> -> ->. by repeat split.
  - intros key Hkey.
    assert (Hat : results_at self' key = results_at self key).
    { apply Hother. intros k Hk. apply Hkey.
      unfold range in Hk. apply list_elem_of_In, in_seq in Hk. lia. }
    unfold results_at in Hat. by injection Hat as -> -> ->.
Qed.

End Detected.

Lemma detected_change_points_spaced_witness :
  well_formed Examples.two_trajectories
  /\ Forall (fun lo => F64.isnan lo = false
                       /\ F64.ltb lo (threshold Examples.two_trajectories)
                          = false)
       (map log_odds Examples.detected_cps)
  /\ Forall (fun t => 3 <= t /\ t + 3 <= length Examples.two_levels)
       (map ts Examples.detected_cps)
  /\ StronglySorted gap3 (np_sort (map ts Examples.detected_cps))
  /\ (Examples.detected_cps = []
      \/ 3 * (length Examples.detected_cps + 1)
         <= length Examples.two_levels).
Proof.
  split; [apply two_trajectories_well_formed|].
  apply (@detected_change_points_spaced Coarse.libm Coarse.view 5
           Examples.two_trajectories Examples.detected 0
           Examples.two_levels Examples.detected_cps).
  - apply two_trajectories_well_formed.
  - apply two_trajectories_detected.
  - reflexivity.
  - vm_compute. reflexivity.
Defined.

Lemma state_emission_rows_witness :
  Examples.detected_cps <> []
  /\ exists se,
       state_emission Examples.detected !! traj_key 0 = Some se
       /\ length se = length Examples.detected_cps + 1
       /\ Forall
            (fun row =>
               let '(a, b) := partition row in
               a < b < length Examples.two_levels
               /\ length (slice Examples.two_levels a b) = b - a
               /\ (sample_mu row, sample_sigma row)
                  = mean_var (libm := Coarse.libm)
                      (_distribution Examples.two_trajectories)
                      (slice Examples.two_levels a b))
            se.
Proof.
  assert (Hne : Examples.detected_cps <> []) by (vm_compute; discriminate).
  split; [exact Hne|].
  apply (@state_emission_rows Coarse.libm Coarse.view 5
           Examples.two_trajectories Examples.detected 0
           Examples.two_levels Examples.detected_cps).
  - apply two_trajectories_well_formed.
  - apply two_trajectories_detected.
  - reflexivity.
  - vm_compute. reflexivity.
  - exact Hne.
Defined.

Lemma detect_cp_writes_its_keys_only_witness :
  detect_cp (libm := Coarse.libm) (pandas := Coarse.view) 5
    Examples.two_trajectories
  = Some (inr Examples.detected)
  /\ same_input Examples.two_trajectories Examples.detected.
Proof.
  split; [apply two_trajectories_detected|].
  pose proof (@detect_cp_writes_its_keys_only Coarse.libm Coarse.view 5
                Examples.two_trajectories Examples.detected
                two_trajectories_detected) as (_ & H & _).
  exact H.
Defined.

(** ** Termination of detection *)

Section Termination.

Context {libm : Libm} {pandas : Pandas}.

Lemma split_rows_total (w : nat) :
  forall (self : Detector) (obs : list float) (start end_ : nat),
    end_ - start <= w ->
    F64.ltb F64.neg_inf (threshold self) = true ->
    exists r, forall fuel,
      w < fuel -> split_rows fuel self obs start end_ = Some r.
Proof.
  induction w as [w IH] using lt_wf_ind.
  intros self obs start end_ Hw Hthr.
  destruct (_normal_lognormal_bf self (slice obs start end_))
    as [e|[[i lo]|]] eqn:Hbf.
  - exists (inl e). intros [|fuel] Hf; [lia|]. simpl. by rewrite Hbf.
  - destruct (bf_accepted_cases _ _ _ _ Hbf) as [Hn [Hi|[_ Hi]]];
      [|congruence].
    pose proof (length_slice_le obs start end_) as [Hlen _].
    destruct (IH (w - 1) ltac:(lia) self obs start (start + i)
                ltac:(lia) Hthr) as [r1 Hr1].
    destruct (IH (w - 1) ltac:(lia) self obs (start + i) end_
                ltac:(lia) Hthr) as [r2 Hr2].
    destruct r1 as [e|left].
    { exists (inl e). intros [|fuel] Hf; [lia|]. simpl.
      rewrite Hbf. simpl. by rewrite Hr1 by lia. }
    destruct r2 as [e|right].
    { exists (inl e). intros [|fuel] Hf; [lia|]. simpl.
      rewrite Hbf. simpl. rewrite Hr1 by lia. simpl.
      by rewrite Hr2 by lia. }
    eexists. intros [|fuel] Hf; [lia|]. simpl.
    rewrite Hbf. simpl. rewrite Hr1 by lia. simpl.
    rewrite Hr2 by lia. reflexivity.
  - exists (inr []). intros [|fuel] Hf; [lia|]. simpl. by rewrite Hbf.
Qed.

Lemma trajectory_result_total (self : Detector) (k bound : nat) :
  F64.ltb F64.neg_inf (threshold self) = true ->
  Forall (fun n => n <= bound) (_Ts self) ->
  exists r, forall fuel,
    bound < fuel -> trajectory_result fuel self k = Some r.
Proof.
  intros Hthr Hb. unfold trajectory_result, observation_lengths.
  destruct (index (_observations self) k) as [e|obs];
    [by exists (inl e)|].
  unfold index at 1.
  destruct (_Ts self !! k) as [len|] eqn:Hlen; [|by exists (inl IndexError)].
  assert (Hle : len <= bound).
  { rewrite Forall_forall in Hb. apply Hb.
    by apply list_elem_of_lookup_2 in Hlen. }
  destruct (split_rows_total len self obs 0 len ltac:(lia) Hthr)
    as [r Hr].
  destruct r as [e|rows].
  - exists (inl e). intros fuel Hf. cbn. by rewrite Hr by lia.
  - exists (reconstruct self obs k rows). intros fuel Hf. cbn.
    by rewrite Hr by lia.
Qed.

Lemma detect_cp_loop_total (bound : nat) (ks : list nat) :
  forall self : Detector,
    F64.ltb F64.neg_inf (threshold self) = true ->
    Forall (fun n => n <= bound) (_Ts self) ->
    exists r, forall fuel,
      bound < fuel -> detect_cp_loop fuel ks self = Some r.
Proof.
  induction ks as [|k ks IH]; intros self Hthr Hb.
  { by exists (inr self). }
  destruct (trajectory_result_total self k bound Hthr Hb) as [r Hr].
  destruct r as [e|r].
  { exists (inl e). intros fuel Hf.
    by rewrite detect_cp_loop_step, Hr by lia. }
  destruct (store_same_config self k r) as [(_ & _ & Ht) (_ & _ & HT & _)].
  destruct (IH (store self k r)) as [r' Hr'].
  { by rewrite <- Ht. }
  { by rewrite <- HT. }
  exists r'. intros fuel Hf.
  rewrite detect_cp_loop_step, Hr by lia. cbn. by apply Hr'.
Qed.

Lemma max_length_bound (l : list nat) :
  Forall (fun n => n <= foldr Nat.max 0 l) l.
Proof.
  induction l as [|n l IH]; constructor; cbn; [lia|].
  eapply Forall_impl; [exact IH|]. cbn. lia.
Qed.

(** X10. With a threshold above negative infinity, detection finishes on
    every detector: once the recursion of [_split] may go deeper than the
    longest trajectory is long, [detect_cp] returns the detector or
    raises, and which of the two, and the detector or error, no longer
    depend on the depth allowed. *)
Theorem detect_cp_terminates (self : Detector) :
  F64.ltb F64.neg_inf (threshold self) = true ->
  exists r, forall fuel,
    foldr Nat.max 0 (observation_lengths self) < fuel ->
    detect_cp fuel self = Some r.
Proof.
  intros Hthr. unfold detect_cp, observation_lengths.
  apply detect_cp_loop_total; [exact Hthr|apply max_length_bound].
Qed.

(** X11. A detector with an empty trajectory cannot be run: with a
    threshold above negative infinity, [detect_cp] raises, at the latest
    when [np.ones] is asked for an array of length -1 for the empty
    trajectory, and never returns normally. *)
Theorem empty_trajectory_raises (self : Detector) (k : nat) :
  well_formed self ->
  F64.ltb F64.neg_inf (threshold self) = true ->
  _observations self !! k = Some [] ->
  exists e, forall fuel,
    foldr Nat.max 0 (observation_lengths self) < fuel ->
    detect_cp fuel self = Some (inl e).
Proof.
  intros Hwf Hthr Hobs.
  destruct (detect_cp_loop_total (foldr Nat.max 0 (_Ts self))
              (range 0 (_nobs self)) self Hthr (max_length_bound _))
    as [[e|self'] Hr]; [by exists e|].
  exfalso.
  specialize (Hr (S (foldr Nat.max 0 (_Ts self))) ltac:(lia)).
  destruct (detect_cp_trajectory _ _ _ _ _ Hwf Hr Hobs)
    as (rows & cp & se & sf & Hsp & Hlen & Hrec & _).
  cbn in Hsp. injection Hsp as <-.
  unfold reconstruct in Hrec. by rewrite Hlen in Hrec.
Qed.

End Termination.

Lemma detect_cp_terminates_witness :
  F64.ltb F64.neg_inf (threshold Examples.two_trajectories) = true
  /\ exists r, forall fuel,
       foldr Nat.max 0 (observation_lengths Examples.two_trajectories)
       < fuel ->
       detect_cp (libm := Coarse.libm) (pandas := Coarse.view) fuel
         Examples.two_trajectories
       = Some r.
Proof.
  split; [reflexivity|].
  apply (@detect_cp_terminates Coarse.libm Coarse.view
           Examples.two_trajectories).
  reflexivity.
Defined.

Lemma empty_trajectory_raises_witness :
  well_formed Inputs.with_empty
  /\ exists e, forall fuel,
       foldr Nat.max 0 (observation_lengths Inputs.with_empty) < fuel ->
       detect_cp (libm := Coarse.libm) (pandas := Coarse.view) fuel
         Inputs.with_empty
       = Some (inl e).
Proof.
  assert (Hwf : well_formed Inputs.with_empty) by (by split).
  split; [exact Hwf|].
  apply (@empty_trajectory_raises Coarse.libm Coarse.view
           Inputs.with_empty 1).
  - exact Hwf.
  - reflexivity.
  - reflexivity.
Defined.

(** ** Trajectories are processed independently *)

Section Independence.

Context {libm : Libm} {pandas : Pandas}.

Lemma bf_table_agree (a b : Detector) (obs : list float) :
  _distribution a = _distribution b ->
  threshold a = threshold b ->
  (forall i, 3 <= i <= length obs -> loggamma a !! i = loggamma b !! i) ->
  _normal_lognormal_bf a obs = _normal_lognormal_bf b obs.
Proof.
  intros Hd Ht Hag.
  destruct (decide (length obs < 6)) as [Hn|Hn].
  { by rewrite !bf_short. }
  rewrite <- (bf_reads b (loggamma a) obs).
  - apply bf_same_config. by repeat split.
  - intros i Hi. apply Hag.
    apply loggamma_reads_bounds; [lia|done].
Qed.

Lemma split_rows_table_agree (fuel : nat) (a b : Detector)
  (obs : list float) :
  _distribution a = _distribution b ->
  threshold a = threshold b ->
  (forall i, 3 <= i <= length obs -> loggamma a !! i = loggamma b !! i) ->
  forall start end_,
    split_rows fuel a obs start end_ = split_rows fuel b obs start end_.
Proof.
  intros Hd Ht Hag.
  induction fuel as [|fuel IH]; intros start end_; [done|].
  cbn [split_rows].
  rewrite (bf_table_agree a b (slice obs start end_) Hd Ht).
  - destruct (_normal_lognormal_bf b _) as [e|[[i lo]|]]; [done| |done].
    cbn. by rewrite !IH.
  - intros i Hi. apply Hag.
    pose proof (length_slice_le obs start end_) as [_ Hlen]. lia.
Qed.

Lemma reconstruct_agree (a b : Detector) (obs : list float) (ka kb : nat)
  (rows : list cp_row) :
  _distribution a = _distribution b ->
  index (observation_lengths a) ka = index (observation_lengths b) kb ->
  reconstruct a obs ka rows = reconstruct b obs kb rows.
Proof. intros Hd Hi. unfold reconstruct. by rewrite Hd, Hi. Qed.

Lemma init_models (observations others : list (list float))
  (name : string) (thr : float) (self : Detector) :
  __init__ observations name thr = inr self ->
  others <> [] ->
  exists other,
    __init__ others name thr = inr other
    /\ _distribution other = _distribution self
    /\ threshold other = threshold self.
Proof.
  unfold __init__, _generate_loggamma_table. cbn [_Ts].
  intros Hinit Hne.
  assert (Hl : map length others <> []) by (by destruct others).
  destruct (String.eqb name "log_normal");
    [|destruct (String.eqb name "normal" || String.eqb name "gaussian")];
    [| |done];
    (destruct (map length observations); [done|]);
    (destruct (map length others) eqn:Ho; [done|]);
    injection Hinit as <-; rewrite !table_loop;
    (eexists; split; [reflexivity|done]).
Qed.

Lemma init_table_lookup (observations : list (list float)) (name : string)
  (thr : float) (self : Detector) (n : nat) :
  __init__ observations name thr = inr self ->
  3 <= n <= max_length observations ->
  loggamma self !! n
  = Some (gammaln (F64.f0_5 * F64.of_nat n - F64.one)%f64).
Proof.
  intros Hinit Hn.
  destruct (init_spec _ _ _ _ Hinit) as (_ & _ & _ & _ & ->).
  rewrite lookup_app_r by (cbn; lia). cbn [length].
  rewrite list_lookup_fmap. unfold range.
  rewrite lookup_seq_lt by lia.
  cbn [fmap option_fmap option_map].
  by replace (3 + (n - 3)) with n by lia.
Qed.

Lemma max_length_lookup (observations : list (list float)) (k : nat)
  (obs : list float) :
  observations !! k = Some obs -> length obs <= max_length observations.
Proof.
  intros Hk. unfold max_length.
  pose proof (max_length_bound (map length observations)) as Hb.
  rewrite Forall_forall in Hb. apply Hb.
  apply list_elem_of_fmap. exists obs. split; [done|].
  by apply list_elem_of_lookup_2 in Hk.
Qed.

(** X12. The results for a trajectory do not depend on the other
    trajectories of the detector: when detection on a detector built
    from several trajectories returns, detection on a detector built,
    with the same model and threshold, from the trajectory [k] alone
    returns too, and holds under [traj_0] the change points, the
    State-Emission frame and the step function that the first holds
    under [traj_k]. (The longer table of the first detector is read at
    the same indices only.) *)
Theorem trajectories_independent (observations : list (list float))
  (name : string) (thr : float) (fuel : nat) (self self' : Detector)
  (k : nat) (obs : list float) :
  __init__ observations name thr = inr self ->
  detect_cp fuel self = Some (inr self') ->
  observations !! k = Some obs ->
  exists single single',
    __init__ [obs] name thr = inr single
    /\ detect_cp fuel single = Some (inr single')
    /\ change_points single' !! traj_key 0
       = change_points self' !! traj_key k
    /\ state_emission single' !! traj_key 0
       = state_emission self' !! traj_key k
    /\ step_function single' !! traj_key 0
       = step_function self' !! traj_key k.
Proof.
  intros Hinit Hrun Hobs.
  destruct (init_models observations [obs] name thr self Hinit
              ltac:(done)) as (single & Hinit1 & Hd & Ht).
  destruct (init_spec _ _ _ _ Hinit) as (Ho & [Hn HT] & _).
  destruct (init_spec _ _ _ _ Hinit1) as (Ho1 & [Hn1 HT1] & _).
  rewrite <- Ho in Hobs.
  assert (Hag : forall i, 3 <= i <= length obs ->
                  loggamma single !! i = loggamma self !! i).
  { intros i Hi.
    rewrite (init_table_lookup _ _ _ _ i Hinit1)
      by (unfold max_length; cbn; lia).
    rewrite (init_table_lookup _ _ _ _ i Hinit); [done|].
    rewrite Ho in Hobs. pose proof (max_length_lookup _ _ _ Hobs). lia. }
  assert (Hlen : index (observation_lengths self) k = inr (length obs)).
  { unfold index, observation_lengths.
    by rewrite HT, list_lookup_fmap, Hobs. }
  assert (Hlen1 : index (observation_lengths single) 0 = inr (length obs)).
  { unfold index, observation_lengths. by rewrite HT1, Ho1. }
  unfold detect_cp in Hrun.
  destruct (detect_cp_loop_spec _ _ _ _ (NoDup_seq _ _) Hrun)
    as (_ & _ & Hres & _).
  destruct (Hres k) as (cp & se & sf & Htr & Hat).
  { unfold range. apply list_elem_of_In, in_seq.
    apply lookup_lt_Some in Hobs. lia. }
  assert (Htr1 : trajectory_result fuel single 0
                 = Some (inr (cp, se, sf))).
  { rewrite <- Htr. unfold trajectory_result.
    rewrite Hlen, Hlen1. unfold index. rewrite Hobs, Ho1.
    cbn [lookup list_lookup mbind partial_bind lift mret raises_ret].
    rewrite (split_rows_table_agree fuel single self obs Hd Ht Hag).
    destruct (split_rows fuel self obs 0 (length obs)) as [[e|rows]|];
      [done| |done].
    cbn [mbind partial_bind lift]. f_equal.
    apply reconstruct_agree; [done|]. by rewrite Hlen, Hlen1. }
  exists single, (store single 0 (cp, se, sf)).
  split; [done|]. split.
  { unfold detect_cp. rewrite Hn1, Ho1. cbn [length range Nat.sub seq].
    rewrite detect_cp_loop_step, Htr1. reflexivity. }
  assert (Heq : results_at (store single 0 (cp, se, sf)) (traj_key 0)
                = results_at self' (traj_key k)).
  { by rewrite results_at_store, Hat. }
  unfold results_at in Heq. injection Heq as H1 H2 H3. by repeat split.
Qed.

End Independence.

Lemma trajectories_independent_witness :
  __init__ (libm := Coarse.libm) [Examples.two_levels; Examples.short]
    "normal" F64.zero
  = inr Examples.two_trajectories
  /\ exists single single',
       __init__ (libm := Coarse.libm) [Examples.two_levels] "normal"
         F64.zero
       = inr single
       /\ detect_cp (libm := Coarse.libm) (pandas := Coarse.view) 5 single
          = Some (inr single')
       /\ change_points single' !! traj_key 0
          = change_points Examples.detected !! traj_key 0
       /\ state_emission single' !! traj_key 0
          = state_emission Examples.detected !! traj_key 0
       /\ step_function single' !! traj_key 0
          = step_function Examples.detected !! traj_key 0.
Proof.
  assert (Hinit : __init__ (libm := Coarse.libm)
                    [Examples.two_levels; Examples.short] "normal" F64.zero
                  = inr Examples.two_trajectories).
  { vm_compute. reflexivity. }
  split; [exact Hinit|].
  apply (@trajectories_independent Coarse.libm Coarse.view
           [Examples.two_levels; Examples.short] "normal" F64.zero 5
           Examples.two_trajectories Examples.detected 0
           Examples.two_levels).
  - exact Hinit.
  - apply two_trajectories_detected.
  - reflexivity.
Defined.

(** ** Export *)

Section CsvExport.

Context {libm : Libm} {pandas : Pandas}.

(** X13. [to_csv] before and after detection. On a detector as the
    constructor returns it there is no frame to concatenate, and
    every call raises [ValueError]. After a detection that returned, a
    call without a file name, or with the empty string, raises
    [AttributeError] (it reads [to_csv] off the built-in [all]) and
    never returns the text; a call with a file name writes the frames of
    exactly the keys [traj_k], [k] below the number of trajectories. *)
Theorem to_csv_before_and_after_detection
  (observations : list (list float)) (name : string) (thr : float)
  (fuel : nat) (self self' : Detector) :
  __init__ observations name thr = inr self ->
  detect_cp fuel self = Some (inr self') ->
  (forall filename, to_csv self filename = CsvValueError)
  /\ to_csv self' None = CsvAttributeError
  /\ to_csv self' (Some "") = CsvAttributeError
  /\ forall filename, filename <> "" ->
       to_csv self' (Some filename)
       = CsvWritten filename (change_points self')
       /\ forall key,
            is_Some (change_points self' !! key)
            <-> exists k, k < length observations /\ key = traj_key k.
Proof.
  intros Hinit Hrun.
  destruct (init_spec _ _ _ _ Hinit) as (Ho & [Hn _] & _ & Hcp & _).
  rewrite Ho in Hn.
  assert (Hlen : 0 < length observations).
  { destruct observations; [|cbn; lia].
    unfold __init__, _generate_loggamma_table in Hinit. cbn in Hinit.
    destruct (String.eqb name "log_normal"); [done|].
    by destruct (String.eqb name "normal" || String.eqb name "gaussian"). }
  unfold detect_cp in Hrun.
  destruct (detect_cp_loop_spec _ _ _ _ (NoDup_seq _ _) Hrun)
    as (_ & _ & Hres & Hother).
  assert (Hkeys : forall key,
             is_Some (change_points self' !! key)
             <-> exists k, k < length observations /\ key = traj_key k).
  { intros key. split.
    - intros Hsome.
      destruct (decide (key ∈ (traj_key <$> range 0 (_nobs self))))
        as [Hin|Hout].
      + apply list_elem_of_fmap in Hin as (k & -> & Hk).
        exists k. split; [|done].
        unfold range in Hk. apply list_elem_of_In, in_seq in Hk. lia.
      + specialize (Hother key). unfold results_at in Hother.
        rewrite Hcp in Hother.
        assert (Hnone : change_points self' !! key = None).
        { assert (H : forall k, k ∈ range 0 (_nobs self) ->
                        key <> traj_key k).
          { intros k Hk ->. apply Hout, list_elem_of_fmap. by exists k. }
          specialize (Hother H). by injection Hother as -> _ _. }
        rewrite Hnone in Hsome. by destruct Hsome.
    - intros (k & Hk & ->).
      destruct (Hres k) as (cp & se & sf & _ & Hat).
      { unfold range. apply list_elem_of_In, in_seq. lia. }
      unfold results_at in Hat. by injection Hat as -> _ _. }
  assert (Hne : change_points self' <> ∅).
  { intros Hempty.
    assert (Hsome : is_Some (change_points self' !! traj_key 0)).
    { apply Hkeys. by exists 0. }
    rewrite Hempty in Hsome. by destruct Hsome. }
  unfold to_csv. rewrite Hcp.
  split; [by intros []|].
  destruct (decide (change_points self' = ∅)); [done|].
  split; [done|]. split; [done|].
  intros filename Hf. split; [|exact Hkeys].
  destruct (String.eqb_spec filename ""); done.
Qed.

End CsvExport.

Lemma to_csv_before_and_after_detection_witness :
  __init__ (libm := Coarse.libm) [Examples.two_levels; Examples.short]
    "normal" F64.zero
  = inr Examples.two_trajectories
  /\ to_csv Examples.detected None = CsvAttributeError.
Proof.
  assert (Hinit : __init__ (libm := Coarse.libm)
                    [Examples.two_levels; Examples.short] "normal" F64.zero
                  = inr Examples.two_trajectories).
  { vm_compute. reflexivity. }
  split; [exact Hinit|].
  pose proof (@to_csv_before_and_after_detection Coarse.libm Coarse.view
                [Examples.two_levels; Examples.short] "normal" F64.zero 5
                Examples.two_trajectories Examples.detected Hinit
                two_trajectories_detected) as (_ & H & _).
  exact H.
Defined.

(** ** The split index *)

Module FloatOrder.

Ltac cases :=
  change (PosDef.Pos.compare_cont Eq) with Pos.compare in *;
  repeat match goal with
    | H : context [(?a ?= ?b)%Z] |- _ => destruct (Z.compare_spec a b)
    | |- context [(?a ?= ?b)%Z] => destruct (Z.compare_spec a b)
    | H : context [(?a ?= ?b)%positive] |- _ =>
        destruct (Pos.compare_spec a b)
    | |- context [(?a ?= ?b)%positive] => destruct (Pos.compare_spec a b)
    end;
  cbn in *; try done; try lia.

Lemma leb_trans (x y z : float) :
  F64.leb x y = true -> F64.leb y z = true -> F64.leb x z = true.
Proof.
  unfold F64.leb, SFleb.
  destruct x as [[]|[]| |[] mx ex], y as [[]|[]| |[] my ey],
    z as [[]|[]| |[] mz ez]; cbn; try done; cases.
Qed.

Lemma ltb_leb_trans (x y z : float) :
  F64.ltb x y = true -> F64.leb y z = true -> F64.ltb x z = true.
Proof.
  unfold F64.leb, F64.ltb, SFleb, SFltb.
  destruct x as [[]|[]| |[] mx ex], y as [[]|[]| |[] my ey],
    z as [[]|[]| |[] mz ez]; cbn; try done; cases.
Qed.

Lemma leb_ltb_trans (x y z : float) :
  F64.leb x y = true -> F64.ltb y z = true -> F64.ltb x z = true.
Proof.
  unfold F64.leb, F64.ltb, SFleb, SFltb.
  destruct x as [[]|[]| |[] mx ex], y as [[]|[]| |[] my ey],
    z as [[]|[]| |[] mz ez]; cbn; try done; cases.
Qed.

Lemma not_leb (x y : float) :
  F64.isnan x = false -> F64.isnan y = false ->
  F64.leb x y = false -> F64.ltb y x = true.
Proof.
  unfold F64.leb, F64.ltb, SFleb, SFltb.
  destruct x as [[]|[]| |[] mx ex], y as [[]|[]| |[] my ey];
    cbn; try done; cases.
Qed.

Lemma ltb_leb (x y : float) : F64.ltb x y = true -> F64.leb x y = true.
Proof.
  unfold F64.leb, F64.ltb, SFleb, SFltb.
  by destruct (SFcompare x y) as [[]|].
Qed.

Lemma leb_refl (x : float) : F64.isnan x = false -> F64.leb x x = true.
Proof.
  unfold F64.leb, SFleb.
  destruct x as [[]|[]| |[] mx ex]; cbn; try done; cases.
Qed.

Lemma leb_not_nan (x y : float) :
  F64.leb x y = true -> F64.isnan x = false /\ F64.isnan y = false.
Proof. by destruct x, y. Qed.

End FloatOrder.

(** [argmax] on an array without NaN: the index returned holds a value
    that no other value exceeds and that every value before it is
    below. *)
Lemma np_argmax_from_optimal (a : list float) :
  forall (i : nat) (mp : float) (best : nat),
    F64.isnan mp = false ->
    Forall (fun x => F64.isnan x = false) a ->
    let r := np_argmax_from a i mp best in
    (r = best /\ Forall (fun x => F64.leb x mp = true) a)
    \/ (i <= r
        /\ exists xr,
            a !! (r - i) = Some xr
            /\ F64.ltb mp xr = true
            /\ (forall j x, a !! j = Some x -> F64.leb x xr = true)
            /\ (forall j x, j < r - i -> a !! j = Some x ->
                              F64.ltb x xr = true)).
Proof.
  induction a as [|x a IH]; intros i mp best Hmp Ha; [by left|].
  apply Forall_cons in Ha as [Hx Ha]. cbn [np_argmax_from].
  destruct (F64.leb x mp) eqn:Hle.
  - destruct (IH (S i) mp best Hmp Ha)
      as [[Hr Hall]|(Hr & xr & Hxr & Hlt & Hmax & Hfirst)].
    + left. split; [done|]. by constructor.
    + right. split; [lia|]. exists xr.
      replace (np_argmax_from a (S i) mp best - i)
        with (S (np_argmax_from a (S i) mp best - S i)) by lia.
      split; [done|]. split; [done|].
      assert (Hxlt : F64.ltb x xr = true).
      { by apply (FloatOrder.leb_ltb_trans x mp xr). }
      split.
      * intros [|j] y Hy; [|exact (Hmax j y Hy)].
        injection Hy as <-. by apply FloatOrder.ltb_leb.
      * intros [|j] y Hj Hy; [by injection Hy as <-|].
        exact (Hfirst j y ltac:(lia) Hy).
  - rewrite Hx.
    assert (Hlt : F64.ltb mp x = true) by (by apply FloatOrder.not_leb).
    destruct (IH (S i) x i Hx Ha)
      as [[Hr Hall]|(Hr & xr & Hxr & Hlt' & Hmax & Hfirst)].
    + right. rewrite Hr. split; [lia|]. exists x.
      rewrite Nat.sub_diag. split; [done|]. split; [done|]. split.
      * intros [|j] y Hy.
        -- injection Hy as <-. by apply FloatOrder.leb_refl.
        -- rewrite Forall_forall in Hall. apply Hall.
           apply (list_elem_of_lookup_2 a j). exact Hy.
      * intros j y Hj. lia.
    + right. split; [lia|]. exists xr.
      replace (np_argmax_from a (S i) x i - i)
        with (S (np_argmax_from a (S i) x i - S i)) by lia.
      split; [done|]. split.
      { apply (FloatOrder.ltb_leb_trans mp x xr); [done|].
        by apply FloatOrder.ltb_leb. }
      split.
      * intros [|j] y Hy; [|exact (Hmax j y Hy)].
        injection Hy as <-. by apply FloatOrder.ltb_leb.
      * intros [|j] y Hj Hy; [by injection Hy as <-|].
        exact (Hfirst j y ltac:(lia) Hy).
Qed.

Lemma np_argmax_optimal (a : list float) (r : nat) :
  Forall (fun x => F64.isnan x = false) a ->
  np_argmax a = inr r ->
  exists xr,
    a !! r = Some xr
    /\ (forall j x, a !! j = Some x -> F64.leb x xr = true)
    /\ (forall j x, j < r -> a !! j = Some x -> F64.ltb x xr = true).
Proof.
  intros Ha. destruct a as [|x0 a]; [done|].
  apply Forall_cons in Ha as [Hx0 Ha]. cbn [np_argmax]. rewrite Hx0.
  intros [= <-].
  destruct (np_argmax_from_optimal a 1 x0 0 Hx0 Ha)
    as [[Hr Hall]|(Hr & xr & Hxr & Hlt & Hmax & Hfirst)].
  - rewrite Hr. exists x0. split; [done|]. split; [|intros; lia].
    intros [|j] y Hy.
    + injection Hy as <-. by apply FloatOrder.leb_refl.
    + rewrite Forall_forall in Hall. apply Hall.
      apply (list_elem_of_lookup_2 a j). exact Hy.
  - set (r := np_argmax_from a 1 x0 0) in *. exists xr.
    replace r with (S (r - 1)) at 1 by lia.
    split; [done|]. split.
    + intros [|j] y Hy; [|exact (Hmax j y Hy)].
      injection Hy as <-. by apply FloatOrder.ltb_leb.
    + intros [|j] y Hj Hy; [by injection Hy as <-|].
      exact (Hfirst j y ltac:(lia) Hy).
Qed.

Section SplitIndex.

Context {libm : Libm}.

(** X14. The split index the scorer returns is the candidate of maximal
    weight, and the first of them: with a threshold above negative
    infinity, no candidate [3 <= j <= n - 3] weighs more than the index
    returned, every candidate before it weighs less, and no weight is
    NaN. *)
Theorem split_index_is_first_maximum (self : Detector) (obs : list float)
  (i : nat) (lo : float) :
  F64.ltb F64.neg_inf (threshold self) = true ->
  _normal_lognormal_bf self obs = inr (Some (i, lo)) ->
  3 <= i <= length obs - 3
  /\ exists wi,
      split_weight self obs i = inr wi
      /\ forall j, 3 <= j <= length obs - 3 ->
           exists wj,
             split_weight self obs j = inr wj
             /\ F64.isnan wj = false
             /\ F64.leb wj wi = true
             /\ (j < i -> F64.ltb wj wi = true).
Proof.
  intros Hthr Hres.
  destruct (decide (length obs < 6)) as [Hn|Hn].
  { by rewrite bf_short in Hres. }
  destruct (decide (length obs < length (loggamma self))) as [Ht|Ht].
  2:{ rewrite bf_table_short in Hres by lia. done. }
  destruct (bf_accepted _ _ _ _ Ht Hthr Hres) as [_ Hi].
  split; [exact Hi|].
  set (w := spec_w (table_fun (loggamma self)) (_distribution self) obs).
  assert (Hw : forall j, j <= length obs -> split_weight self obs j
                                           = inr (w j)).
  { intros j Hj. by apply split_weight_spec. }
  rewrite bf_spec in Hres by lia. unfold decision in Hres.
  destruct (F64.isnan (spec_log_odds _ _ _)) eqn:Hnan; [done|].
  destruct (F64.ltb (spec_log_odds _ _ _) _); [done|].
  unfold spec_log_odds, spec_num in Hnan.
  rewrite <- weights_spec in Hres, Hnan by lia. fold w in Hres, Hnan.
  set (mid := map w (range 3 (length obs - 2))) in *.
  assert (Hmid : Forall (fun x => F64.isnan x = false) mid).
  { apply Forall_forall. intros x Hx.
    destruct x; try done. exfalso.
    rewrite NonFinite.np_mean_nan in Hnan.
    - by rewrite NonFinite.add_nan_r, NonFinite.sub_nan_l in Hnan.
    - apply elem_of_app. right. apply elem_of_app. by left. }
  rewrite mask_weights_shape in Hres.
  destruct (np_argmax (_ ++ mid ++ _)) as [e|r] eqn:Harg; [done|].
  cbn in Hres. injection Hres as ->.
  apply np_argmax_optimal in Harg as (wi & Hwi & Hmax & Hfirst).
  2:{ repeat (apply Forall_cons; split; [done|]).
      apply Forall_app. split; [done|]. by repeat constructor. }
  assert (Hlook : forall j, 3 <= j <= length obs - 3 ->
            ([F64.neg_inf; F64.neg_inf; F64.neg_inf]
               ++ mid ++ [F64.neg_inf; F64.neg_inf]) !! j = Some (w j)).
  { intros j Hj. rewrite lookup_app_r by (cbn; lia). cbn [length].
    rewrite lookup_app_l
      by (unfold mid, range; rewrite length_map, length_seq; lia).
    unfold mid, range.
    change (map ?f ?l) with (f <$> l).
    rewrite list_lookup_fmap, lookup_seq_lt by lia.
    cbn [fmap option_fmap option_map].
    by replace (3 + (j - 3)) with j by lia. }
  rewrite (Hlook i Hi) in Hwi. injection Hwi as <-.
  exists (w i). split; [apply Hw; lia|].
  intros j Hj. exists (w j). split; [apply Hw; lia|].
  pose proof (Hmax j (w j) (Hlook j Hj)) as Hle.
  split; [by apply FloatOrder.leb_not_nan in Hle as [? _]|].
  split; [done|]. intros Hji. exact (Hfirst j (w j) Hji (Hlook j Hj)).
Qed.

End SplitIndex.

Lemma split_index_is_first_maximum_witness :
  F64.ltb F64.neg_inf (threshold Inputs.three_levels_detector) = true
  /\ 3 <= Inputs.three_levels_split.1 <= length Inputs.three_levels - 3
  /\ exists wi,
       split_weight (libm := Coarse.libm) Inputs.three_levels_detector
         Inputs.three_levels Inputs.three_levels_split.1
       = inr wi
       /\ forall j, 3 <= j <= length Inputs.three_levels - 3 ->
            exists wj,
              split_weight (libm := Coarse.libm)
                Inputs.three_levels_detector Inputs.three_levels j
              = inr wj
              /\ F64.isnan wj = false
              /\ F64.leb wj wi = true
              /\ (j < Inputs.three_levels_split.1 ->
                  F64.ltb wj wi = true).
Proof.
  split; [reflexivity|].
  apply (@split_index_is_first_maximum Coarse.libm
           Inputs.three_levels_detector Inputs.three_levels
           Inputs.three_levels_split.1 Inputs.three_levels_split.2).
  - reflexivity.
  - vm_compute. reflexivity.
Defined.

(** ** Views and copies *)

Section Aliasing.

Context {libm : Libm}.

Variables p q : Pandas.

Lemma sort_ts_column_start_end {pandas : Pandas} (frame : list cp_row) :
  map start_end (sort_ts_column frame) = map start_end frame.
Proof.
  unfold sort_ts_column. destruct values_is_view; [|done].
  assert (Hlen : length (np_sort (map ts frame)) = length frame).
  { unfold np_sort. by rewrite merge_sort_Permutation, length_map. }
  revert Hlen. generalize (np_sort (map ts frame)).
  induction frame as [|row frame IH]; intros [|t l] Hlen; try done.
  cbn. f_equal. apply IH. cbn in Hlen. lia.
Qed.

Lemma reconstruct_alias (self : Detector) (obs : list float) (k : nat)
  (rows cp : list cp_row) (se : list se_row) (sf : list float) :
  reconstruct (pandas := p) self obs k rows = inr (cp, se, sf) ->
  cp = sort_ts_column (pandas := p) rows
  /\ reconstruct (pandas := q) self obs k rows
     = inr (sort_ts_column (pandas := q) rows, se, sf).
Proof.
  unfold reconstruct.
  destruct (index (observation_lengths self) k) as [e|len]; [done|]. cbn.
  destruct rows as [|row rows].
  - destruct (len =? 0); [done|]. intros [= <- <- <-].
    split; symmetry; [by apply sort_ts_column_nil|].
    f_equal. f_equal. f_equal. by apply sort_ts_column_nil.
  - destruct (mean_var _ _). by intros [= <- <- <-].
Qed.

Lemma trajectory_result_alias (fuel : nat) (self : Detector) (k : nat)
  (cp : list cp_row) (se : list se_row) (sf : list float) :
  trajectory_result (pandas := p) fuel self k = Some (inr (cp, se, sf)) ->
  exists rows,
    cp = sort_ts_column (pandas := p) rows
    /\ trajectory_result (pandas := q) fuel self k
       = Some (inr (sort_ts_column (pandas := q) rows, se, sf)).
Proof.
  unfold trajectory_result.
  destruct (index (_observations self) k) as [e|obs]; [done|]. cbn.
  destruct (index (observation_lengths self) k) as [e|len]; [done|]. cbn.
  destruct (split_rows fuel self obs 0 len) as [[e|rows]|]; [done| |done].
  cbn. unfold lift. intros [= Hrec].
  apply reconstruct_alias in Hrec as [-> Hrec].
  exists rows. split; [done|]. by rewrite Hrec.
Qed.

Lemma detect_cp_loop_alias (fuel : nat) (ks : list nat) :
  forall (sp sq a : Detector),
    same_config sp sq -> same_input sp sq ->
    detect_cp_loop (pandas := p) fuel ks sp = Some (inr a) ->
    exists b, detect_cp_loop (pandas := q) fuel ks sq = Some (inr b).
Proof.
  induction ks as [|k ks IH]; intros sp sq a Hc Hi Hrun.
  { by exists sq. }
  rewrite detect_cp_loop_step in Hrun.
  destruct (trajectory_result (pandas := p) fuel sp k)
    as [[e|[[cp se] sf]]|] eqn:Hr; [done| |done].
  cbn in Hrun.
  apply trajectory_result_alias in Hr as (rows & _ & Hr).
  rewrite (trajectory_result_ext fuel sp sq k Hc Hi) in Hr.
  rewrite detect_cp_loop_step, Hr. cbn.
  apply (IH (store sp k (cp, se, sf)) _ a); [| |exact Hrun].
  - destruct Hc as (? & ? & ?). by repeat split.
  - destruct Hi as (? & ? & ? & ?). by repeat split.
Qed.

(** X15. Whether [frame['ts'].values] is a view of the stored frame or
    a copy of it changes nothing but the order of the stored [ts]
    column: when detection returns with the one, it returns with the
    other, with the same State-Emission frames and step functions, and
    with frames of change points that have the same [log_odds] and
    [start_end] columns and the same change points up to their order. *)
Theorem aliasing_only_reorders_ts (fuel : nat) (self a : Detector) :
  detect_cp (pandas := p) fuel self = Some (inr a) ->
  exists b,
    detect_cp (pandas := q) fuel self = Some (inr b)
    /\ state_emission b = state_emission a
    /\ step_function b = step_function a
    /\ forall key,
         option_Forall2
           (fun fa fb =>
              map log_odds fa = map log_odds fb
              /\ map start_end fa = map start_end fb
              /\ np_sort (map ts fa) = np_sort (map ts fb))
           (change_points a !! key) (change_points b !! key).
Proof.
  intros Hrun. unfold detect_cp in *.
  destruct (detect_cp_loop_alias fuel _ self self a
              (same_config_refl self) ltac:(by repeat split) Hrun)
    as [b Hrun'].
  exists b. split; [done|].
  destruct (detect_cp_loop_spec (pandas := p) _ _ _ _ (NoDup_seq _ _) Hrun)
    as (_ & _ & Hres & Hother).
  destruct (detect_cp_loop_spec (pandas := q) _ _ _ _ (NoDup_seq _ _) Hrun')
    as (_ & _ & Hres' & Hother').
  assert (Hkey : forall key,
             (exists rows se sf,
                results_at a key
                = (Some (sort_ts_column (pandas := p) rows), Some se,
                   Some sf)
                /\ results_at b key
                   = (Some (sort_ts_column (pandas := q) rows), Some se,
                      Some sf))
             \/ results_at a key = results_at b key).
  { intros key.
    destruct (decide (key ∈ (traj_key <$> range 0 (_nobs self))))
      as [Hin|Hout].
    - apply list_elem_of_fmap in Hin as (k & -> & Hk). left.
      destruct (Hres k Hk) as (cp & se & sf & Htr & Hat).
      destruct (Hres' k Hk) as (cp' & se' & sf' & Htr' & Hat').
      apply trajectory_result_alias in Htr as (rows & -> & Htr).
      rewrite Htr in Htr'. injection Htr' as <- <- <-.
      by exists rows, se, sf.
    - right. rewrite Hother, Hother'; [done| |];
        intros k Hk ->; apply Hout, list_elem_of_fmap; by exists k. }
  split; [|split].
  - apply map_eq. intros key.
    destruct (Hkey key) as [(rows & se & sf & Ha & Hb)|Heq];
      unfold results_at in *.
    + injection Ha as _ -> _. by injection Hb as _ -> _.
    + by injection Heq as _ -> _.
  - apply map_eq. intros key.
    destruct (Hkey key) as [(rows & se & sf & Ha & Hb)|Heq];
      unfold results_at in *.
    + injection Ha as _ _ ->. by injection Hb as _ _ ->.
    + by injection Heq as _ _ ->.
  - intros key.
    destruct (Hkey key) as [(rows & se & sf & Ha & Hb)|Heq];
      unfold results_at in *.
    + injection Ha as -> _ _. injection Hb as -> _ _. constructor.
      rewrite !sort_ts_column_log_odds, !sort_ts_column_start_end.
      by rewrite !np_sort_sort_ts_column.
    + injection Heq as -> _ _.
      destruct (change_points b !! key); by constructor.
Qed.

End Aliasing.

Lemma aliasing_only_reorders_ts_witness :
  detect_cp (libm := Coarse.libm) (pandas := Coarse.view) 5
    Examples.two_trajectories
  = Some (inr Examples.detected)
  /\ exists b,
       detect_cp (libm := Coarse.libm) (pandas := Coarse.copy) 5
         Examples.two_trajectories
       = Some (inr b)
       /\ state_emission b = state_emission Examples.detected
       /\ step_function b = step_function Examples.detected
       /\ forall key,
            option_Forall2
              (fun fa fb =>
                 map log_odds fa = map log_odds fb
                 /\ map start_end fa = map start_end fb
                 /\ np_sort (map ts fa) = np_sort (map ts fb))
              (change_points Examples.detected !! key)
              (change_points b !! key).
Proof.
  split; [apply two_trajectories_detected|].
  apply (@aliasing_only_reorders_ts Coarse.libm Coarse.view Coarse.copy 5
           Examples.two_trajectories Examples.detected).
  apply two_trajectories_detected.
Defined.

(** ** Raising the threshold *)

Section RaisingThreshold.

Context {libm : Libm}.

Lemma bf_raise_threshold (self : Detector) (thr : float)
  (obs : list float) :
  F64.leb (threshold self) thr = true ->
  match _normal_lognormal_bf self obs with
  | inl e => _normal_lognormal_bf (with_threshold self thr) obs = inl e
  | inr (Some (i, lo)) =>
      _normal_lognormal_bf (with_threshold self thr) obs
      = inr (Some (i, lo))
      \/ _normal_lognormal_bf (with_threshold self thr) obs = inr None
  | inr None => _normal_lognormal_bf (with_threshold self thr) obs = inr None
  end.
Proof.
  intros Hle. unfold _normal_lognormal_bf.
  cbn [_distribution loggamma threshold with_threshold].
  destruct (length obs <? 6); [done|].
  destruct (mean_var (_distribution self) obs) as [mean var].
  destruct (index (loggamma self) (length obs)) as [e|lg_n]; [done|].
  cbn [mbind raises_bind].
  change (for_each
            (fun weights i =>
               w ← split_weight (with_threshold self thr) obs i;
               mret (weights ++ [w])))
    with (for_each
            (fun weights i =>
               w ← split_weight self obs i; mret (weights ++ [w]))).
  destruct (for_each _ _ _) as [e|weights]; [done|].
  cbn [mbind raises_bind].
  set (lo := (_ - _)%f64).
  destruct (F64.isnan lo) eqn:Hnan; [done|].
  destruct (np_argmax_mask_defined weights) as [i ->].
  destruct (F64.ltb lo (threshold self)) eqn:Hlt.
  - by rewrite (FloatOrder.ltb_leb_trans lo (threshold self) thr).
  - cbn. destruct (F64.ltb lo thr); [by right|by left].
Qed.

Lemma split_rows_raise_threshold (fuel : nat) :
  forall (self : Detector) (thr : float) (obs : list float)
    (start end_ : nat) (rows : list cp_row),
    F64.leb (threshold self) thr = true ->
    split_rows fuel self obs start end_ = Some (inr rows) ->
    exists rows',
      split_rows fuel (with_threshold self thr) obs start end_
      = Some (inr rows')
      /\ sublist rows' rows.
Proof.
  induction fuel as [|fuel IH]; intros self thr obs start end_ rows Hle;
    [done|].
  cbn [split_rows].
  pose proof (bf_raise_threshold self thr (slice obs start end_) Hle) as Hbf.
  destruct (_normal_lognormal_bf self (slice obs start end_))
    as [e|[[i lo]|]]; [done| |].
  2:{ rewrite Hbf. intros [= <-]. by exists []. }
  cbn [mbind partial_bind lift].
  destruct (split_rows fuel self obs start (start + i))
    as [[e|left]|] eqn:Hl; [done| |done].
  destruct (split_rows fuel self obs (start + i) end_)
    as [[e|right]|] eqn:Hr; [done| |done].
  intros [= <-].
  destruct Hbf as [-> | ->].
  - destruct (IH _ thr _ _ _ _ Hle Hl) as (left' & -> & Hsl).
    destruct (IH _ thr _ _ _ _ Hle Hr) as (right' & -> & Hsr).
    eexists. split; [reflexivity|].
    apply sublist_skip. by apply sublist_app.
  - exists []. split; [done|]. apply sublist_nil_l.
Qed.

(** X16. Raising the threshold only prunes. When [_split] returns on a
    window, it returns on it under every higher threshold too, and the
    records it then appends are among those it appended under the lower
    threshold, in the same order: no change point appears or moves, and
    no log odds or window changes. *)
Theorem higher_threshold_prunes (fuel : nat) (self a : Detector)
  (thr : float) (obs : list float) (start end_ itraj : nat)
  (frame : list cp_row) :
  F64.leb (threshold self) thr = true ->
  change_points self !! traj_key itraj = Some frame ->
  _split fuel self obs start end_ itraj = Some (inr a) ->
  exists b rows rows',
    _split fuel (with_threshold self thr) obs start end_ itraj
    = Some (inr b)
    /\ change_points a !! traj_key itraj = Some (frame ++ rows)
    /\ change_points b !! traj_key itraj = Some (frame ++ rows')
    /\ sublist rows' rows.
Proof.
  intros Hle Hf Hrun.
  rewrite (split_rows_spec fuel _ _ _ _ _ _ Hf) in Hrun.
  destruct (split_rows fuel self obs start end_) as [[e|rows]|] eqn:Hrows;
    [done| |done].
  cbn in Hrun. injection Hrun as <-.
  destruct (split_rows_raise_threshold _ _ thr _ _ _ _ Hle Hrows)
    as (rows' & Hrows' & Hsub).
  eexists _, rows, rows'. split; [|split; [|split]].
  - rewrite (split_rows_spec fuel (with_threshold self thr) _ _ _ _ frame)
      by exact Hf.
    rewrite Hrows'. reflexivity.
  - cbn. apply lookup_insert_eq.
  - cbn. apply lookup_insert_eq.
  - exact Hsub.
Qed.

End RaisingThreshold.

Lemma higher_threshold_prunes_witness :
  F64.leb (threshold Inputs.before_split) (F64.of_Z 1) = true
  /\ exists b rows rows',
       _split (libm := Coarse.libm) 7
         (with_threshold Inputs.before_split (F64.of_Z 1))
         Examples.two_levels 0 6 0
       = Some (inr b)
       /\ change_points Inputs.after_split !! traj_key 0
          = Some ([] ++ rows)
       /\ change_points b !! traj_key 0 = Some ([] ++ rows')
       /\ sublist rows' rows.
Proof.
  split; [reflexivity|].
  apply (@higher_threshold_prunes Coarse.libm 7 Inputs.before_split
           Inputs.after_split (F64.of_Z 1) Examples.two_levels 0 6 0 []).
  - reflexivity.
  - reflexivity.
  - vm_compute. reflexivity.
Defined.
